(** * school_bot: a shallow embedding of the student-registration bot

    The development follows [school_bot.py]: the Python text primitives the
    handlers rely on ([str.strip], [int]), the [students] table, the CSV
    export, the per-chat dialogue state kept by the FSM storage, and the
    message handlers themselves, written in a small state-and-exception
    monad. Definitions come first, theorems after. *)

From Stdlib Require Import ZArith NArith List Ascii String Bool Lia.
From stdpp Require Import base option list gmap strings sorting.
Import ListNotations.

Local Open Scope Z_scope.

(** ** Python text *)

(** A Python [str] is a sequence of Unicode code points. *)
Abbreviation char := N (only parsing).
Abbreviation str := (list N) (only parsing).

(** The source file is UTF-8: a literal of the source is the decoding of
    its bytes. [need] counts the continuation bytes still expected. *)
Fixpoint utf8_decode_from (need : nat) (acc : N) (bs : list N) : str :=
  match bs with
  | [] => []
  | b :: r =>
      match need with
      | S n =>
          let acc' := (acc * 64 + N.land b 63)%N in
          match n with
          | O => acc' :: utf8_decode_from 0 0 r
          | S _ => utf8_decode_from n acc' r
          end
      | O =>
          if (b <? 128)%N then b :: utf8_decode_from 0 0 r
          else if (b <? 224)%N then utf8_decode_from 1 (N.land b 31) r
          else if (b <? 240)%N then utf8_decode_from 2 (N.land b 15) r
          else utf8_decode_from 3 (N.land b 7) r
      end
  end.

Definition lit (s : string) : str :=
  utf8_decode_from 0 0 (map N_of_ascii (list_ascii_of_string s)).
Arguments lit : simpl never.

(** [Py_UNICODE_ISSPACE]: the code points [str.isspace] and [str.strip]
    treat as whitespace. *)
Definition isspace (c : char) : bool :=
  ((9 <=? c) && (c <=? 13) || (28 <=? c) && (c <=? 32)
   || (c =? 0x85) || (c =? 0xA0) || (c =? 0x1680)
   || (0x2000 <=? c) && (c <=? 0x200A)
   || (c =? 0x2028) || (c =? 0x2029) || (c =? 0x202F)
   || (c =? 0x205F) || (c =? 0x3000))%N.

(** First code point of every run of ten decimal digits (general category
    Nd) of the Unicode character database, version 14.0. *)
Definition decimal_zeros : list N :=
  [0x30; 0x660; 0x6F0; 0x7C0; 0x966; 0x9E6; 0xA66; 0xAE6; 0xB66; 0xBE6;
   0xC66; 0xCE6; 0xD66; 0xDE6; 0xE50; 0xED0; 0xF20; 0x1040; 0x1090;
   0x17E0; 0x1810; 0x1946; 0x19D0; 0x1A80; 0x1A90; 0x1B50; 0x1BB0;
   0x1C40; 0x1C50; 0xA620; 0xA8D0; 0xA900; 0xA9D0; 0xA9F0; 0xAA50;
   0xABF0; 0xFF10; 0x104A0; 0x10D30; 0x11066; 0x110F0; 0x11136; 0x111D0;
   0x112F0; 0x11450; 0x114D0; 0x11650; 0x116C0; 0x11730; 0x118E0;
   0x11950; 0x11C50; 0x11D50; 0x11DA0; 0x16A60; 0x16AC0; 0x16B50;
   0x1D7CE; 0x1D7D8; 0x1D7E2; 0x1D7EC; 0x1D7F6; 0x1E140; 0x1E2F0;
   0x1E950; 0x1FBF0]%N.

(** [Py_UNICODE_TODECIMAL]: the decimal value of a digit, if it is one. *)
Fixpoint todecimal_in (zeros : list N) (c : char) : option N :=
  match zeros with
  | [] => None
  | z :: zs =>
      if ((z <=? c) && (c <? z + 10))%N then Some (c - z)%N
      else todecimal_in zs c
  end.

Definition todecimal (c : char) : option N := todecimal_in decimal_zeros c.

(** [str.strip()] with no argument. *)
Fixpoint lstrip (s : str) : str :=
  match s with
  | c :: r => if isspace c then lstrip r else s
  | [] => []
  end.

Definition rstrip (s : str) : str := rev (lstrip (rev s)).

Definition strip (s : str) : str := rstrip (lstrip s).

(** ** Exceptions *)

Inductive exn : Set :=
  | ValueError
  | sqlite3_Error
  | AttributeError
  | OSError
  | OverflowError.

Inductive result (A : Type) : Type :=
  | Ok (a : A)
  | Raise (e : exn).
Arguments Ok {A} a.
Arguments Raise {A} e.

(** ** [int(str)] in base 10 *)

(** [_PyUnicode_TransformDecimalAndSpaceToASCII]: an ASCII string is taken
    as it is; otherwise whitespace becomes a space, a decimal digit its
    ASCII digit, and the text is cut after a question mark at the first
    code point that is neither. *)
Definition is_ascii (s : str) : bool := forallb (fun c => c <? 128)%N s.

Fixpoint transform_decimal_and_space (s : str) : str :=
  match s with
  | [] => []
  | ch :: r =>
      if (ch <? 127)%N then ch :: transform_decimal_and_space r
      else if isspace ch then 32%N :: transform_decimal_and_space r
      else match todecimal ch with
           | Some d => (48 + d)%N :: transform_decimal_and_space r
           | None => [63%N]
           end
  end.

Definition to_ascii_digits (s : str) : str :=
  if is_ascii s then s else transform_decimal_and_space s.

(** [Py_ISSPACE], the whitespace of the C locale. *)
Definition c_isspace (c : char) : bool :=
  ((9 <=? c) && (c <=? 13) || (c =? 32))%N.

Fixpoint skip_c_spaces (s : str) : str :=
  match s with
  | c :: r => if c_isspace c then skip_c_spaces r else s
  | [] => []
  end.

Definition digit_value (c : char) : option Z :=
  if ((48 <=? c) && (c <=? 57))%N then Some (Z.of_N c - 48) else None.

Definition underscore : char := 95%N.

(** The scan of [long_from_string_base]: digits, with single underscores
    between them; it yields the value, the number of digits and the rest of
    the text. [prev] tells that the previous character was an underscore. *)
Fixpoint scan_digits (s : str) (prev : bool) (digits : nat) (acc : Z)
  : option (Z * nat * str) :=
  match s with
  | c :: r =>
      if (c =? underscore)%N then
        if prev then None else scan_digits r true digits acc
      else
        match digit_value c with
        | Some d => scan_digits r false (S digits) (acc * 10 + d)
        | None => if prev then None else Some (acc, digits, s)
        end
  | [] => if prev then None else Some (acc, digits, [])
  end.

(** [sys.get_int_max_str_digits()], at its default. *)
Definition max_str_digits : nat := 4300.

(** [PyLong_FromString] for base 10. *)
Definition PyLong_FromString (s : str) : result Z :=
  let s1 := skip_c_spaces s in
  let '(sign, s2) :=
    match s1 with
    | c :: r => if (c =? 43)%N then (1, r)
                else if (c =? 45)%N then (-1, r) else (1, s1)
    | [] => (1, s1)
    end in
  match s2 with
  | c :: _ => if (c =? underscore)%N then Raise ValueError else
      match scan_digits s2 false 0 0 with
      | None => Raise ValueError
      | Some (v, digits, rest) =>
          if (max_str_digits <? digits)%nat then Raise ValueError
          else if (digits =? 0)%nat then Raise ValueError
          else match skip_c_spaces rest with
               | [] => Ok (sign * v)
               | _ :: _ => Raise ValueError
               end
      end
  | [] => Raise ValueError
  end.

Definition py_int (s : str) : result Z :=
  PyLong_FromString (to_ascii_digits s).

(** ** Utilities of the bot *)

(** [parse_age]: only [ValueError] is handled. *)
Definition parse_age (text : str) : result (option Z) :=
  match py_int (strip text) with
  | Ok age => Ok (if (1 <=? age) && (age <=? 120) then Some age else None)
  | Raise ValueError => Ok None
  | Raise e => Raise e
  end.

(** [str(n)] for an integer. *)
Fixpoint uint_digits (d : Decimal.uint) : str :=
  match d with
  | Decimal.Nil => []
  | Decimal.D0 r => 48%N :: uint_digits r
  | Decimal.D1 r => 49%N :: uint_digits r
  | Decimal.D2 r => 50%N :: uint_digits r
  | Decimal.D3 r => 51%N :: uint_digits r
  | Decimal.D4 r => 52%N :: uint_digits r
  | Decimal.D5 r => 53%N :: uint_digits r
  | Decimal.D6 r => 54%N :: uint_digits r
  | Decimal.D7 r => 55%N :: uint_digits r
  | Decimal.D8 r => 56%N :: uint_digits r
  | Decimal.D9 r => 57%N :: uint_digits r
  end.

Definition str_of_int (n : Z) : str :=
  match Z.to_int n with
  | Decimal.Pos d => uint_digits d
  | Decimal.Neg d => 45%N :: uint_digits d
  end.

Definition nl : str := [10%N].

(** Truth value of a [str]: the empty string is false. *)
Definition not_ (s : str) : bool :=
  match s with [] => true | _ :: _ => false end.

(** ** The [students] table *)

Definition DB_NAME : str := lit "school_data.db".

(** A row [(id, name, age, grade)]. *)
Definition row : Type := Z * str * Z * str.

Definition row_id (r : row) : Z := let '(id, _, _, _) := r in id.
Definition row_name (r : row) : str := let '(_, name, _, _) := r in name.
Definition row_age (r : row) : Z := let '(_, _, age, _) := r in age.
Definition row_grade (r : row) : str := let '(_, _, _, grade) := r in grade.

(** The table, and the counter [sqlite_sequence] that AUTOINCREMENT keeps:
    the largest id ever handed out. *)
Record database : Type := {
  students : list row;
  sqlite_sequence : Z
}.

Definition empty_db : database := {| students := []; sqlite_sequence := 0 |}.

Definition max_rowid (rows : list row) : Z :=
  fold_right (fun r m => Z.max (row_id r) m) 0 rows.

(** AUTOINCREMENT: one more than the largest id the table ever held. *)
Definition next_rowid (d : database) : Z :=
  Z.max (max_rowid (students d)) (sqlite_sequence d) + 1.

Definition insert_student (name : str) (age : Z) (grade : str) (d : database)
  : Z * database :=
  let id := next_rowid d in
  (id, {| students := students d ++ [(id, name, age, grade)];
          sqlite_sequence := id |}).

Definition id_desc (r1 r2 : row) : Prop := row_id r2 <= row_id r1.
Definition id_asc (r1 r2 : row) : Prop := row_id r1 <= row_id r2.

#[global] Instance id_desc_dec : RelDecision id_desc.
Proof. intros r1 r2. unfold id_desc. apply Z_le_dec. Defined.
#[global] Instance id_asc_dec : RelDecision id_asc.
Proof. intros r1 r2. unfold id_asc. apply Z_le_dec. Defined.

(** [ORDER BY id DESC] and [ORDER BY id ASC]. *)
Definition order_by_id_desc (rows : list row) : list row := merge_sort id_desc rows.
Definition order_by_id_asc (rows : list row) : list row := merge_sort id_asc rows.

(** [LIMIT n]: a negative [n] means no limit. *)
Definition sql_limit (n : Z) (rows : list row) : list row :=
  if n <? 0 then rows else take (Z.to_nat n) rows.

(** ** Files *)

Definition Path : Type := list str.

(** Directories that exist, and the text of the regular files. *)
Record filesystem : Type := {
  dirs : gset Path;
  files : gmap Path str
}.

Definition EXPORTS_DIR : Path := [lit "exports"].

(** [Path.mkdir(exist_ok=True)] for a directory of the working directory:
    an existing directory is left alone, a regular file of that name is an
    error. *)
Definition mkdir_exist_ok (p : Path) (f : filesystem) : result unit * filesystem :=
  if decide (p ∈ dirs f) then (Ok tt, f)
  else match files f !! p with
       | Some _ => (Raise OSError, f)
       | None => (Ok tt, {| dirs := {[p]} ∪ dirs f; files := files f |})
       end.

(** ** Time *)

Record datetime : Type := {
  year : Z; month : Z; day : Z; hour : Z; minute : Z; second : Z
}.

(** A decimal number zero-padded to [w] digits, as [%Y] (four) and
    [%m %d %H %M %S] (two) print the fields of a [datetime]. *)
Fixpoint zero_padded (w : nat) (n : Z) : str :=
  match w with
  | O => []
  | S w' => zero_padded w' (n / 10) ++ [(48 + Z.to_N (n mod 10))%N]
  end.

(** [strftime('%Y%m%d_%H%M%S')]. *)
Definition strftime_stamp (t : datetime) : str :=
  zero_padded 4 (year t) ++ zero_padded 2 (month t) ++ zero_padded 2 (day t)
  ++ lit "_"
  ++ zero_padded 2 (hour t) ++ zero_padded 2 (minute t) ++ zero_padded 2 (second t).

(** ** Dialogue state *)

Module StudentForm.
Inductive t : Set := name | age | grade.
End StudentForm.

#[global] Instance StudentForm_eq_dec : EqDecision StudentForm.t.
Proof. solve_decision. Defined.

(** What the handlers keep in the FSM data: strings and integers. *)
Inductive value : Type :=
  | VStr (s : str)
  | VInt (n : Z).

(** The key of a dialogue: chat and user. *)
Definition StorageKey : Type := Z * Z.

Record MemoryStorageRecord : Type := {
  rec_state : option StudentForm.t;
  rec_data : gmap string value
}.

Definition empty_record : MemoryStorageRecord :=
  {| rec_state := None; rec_data := ∅ |}.

Inductive command : Set := Start | Help | Cancel | Students | ExportCsv.

#[global] Instance command_eq_dec : EqDecision command.
Proof. solve_decision. Defined.

(** What a message carries: a text that is exactly one of the commands; any
    text, or no text at all; or, for a photo or a document, a caption and
    no text. *)
Inductive content : Type :=
  | Command (c : command)
  | Plain (text : option str)
  | Captioned (caption : str).

#[global] Instance content_eq_dec : EqDecision content.
Proof. solve_decision. Defined.

Record Message : Type := {
  chat_id : Z;
  user_id : Z;
  body : content
}.

Definition command_text (c : command) : str :=
  match c with
  | Start => lit "/start"
  | Help => lit "/help"
  | Cancel => lit "/cancel"
  | Students => lit "/students"
  | ExportCsv => lit "/export_csv"
  end.

Definition text (message : Message) : option str :=
  match body message with
  | Command c => Some (command_text c)
  | Plain t => t
  | Captioned _ => None
  end.

Definition caption (message : Message) : option str :=
  match body message with
  | Captioned t => Some t
  | _ => None
  end.

(** [message.text or ""]. *)
Definition text_or_empty (message : Message) : str :=
  match text message with
  | Some t => if not_ t then [] else t
  | None => []
  end.

Record FSMContext : Type := { key : StorageKey }.

(** ** The world the handlers act on *)

(** What a handler does to the outside, in the order it happens: messages
    and documents sent to a chat, log records, and every attempt to open
    the database with its outcome. *)
Inductive effect : Type :=
  | answer_sent (chat : Z) (text : str)
  | document_sent (chat : Z) (path : Path) (caption : str)
  | logged_exception (msg : str)
  | db_opened (ok : bool).

Record world : Type := {
  storage : gmap StorageKey MemoryStorageRecord;
  db : database;
  fs : filesystem;
  effects : list effect
}.

Definition with_storage (st : gmap StorageKey MemoryStorageRecord) (w : world) : world :=
  {| storage := st; db := db w; fs := fs w; effects := effects w |}.
Definition with_db (d : database) (w : world) : world :=
  {| storage := storage w; db := d; fs := fs w; effects := effects w |}.
Definition with_fs (f : filesystem) (w : world) : world :=
  {| storage := storage w; db := db w; fs := f; effects := effects w |}.
Definition emitting (xs : list effect) (w : world) : world :=
  {| storage := storage w; db := db w; fs := fs w; effects := effects w ++ xs |}.

(** How the database is while one update is handled: the file opens and the
    table is there; the file opens and the table is not there ([init_db]
    having failed), so that every statement is refused; or the file cannot
    be opened. *)
Inductive db_condition : Set := db_ready | db_no_table | db_closed.

(** What the surroundings decide while one update is handled: the condition
    of the database, the reading of the clock, and whether a mention that
    follows a command names this bot, which the filter decides by
    [not me.username or mention.lower() == me.username.lower()], [me] being
    what [bot.me()] returns. *)
Record env : Type := {
  db_is : db_condition;
  now : datetime;
  for_me : str -> bool
}.

(** [sqlite3.connect] succeeds. *)
Definition db_opens (e : env) : bool :=
  match db_is e with db_closed => false | _ => true end.

(** The database opens and its table can be read and written. *)
Definition db_online (e : env) : bool :=
  match db_is e with db_ready => true | _ => false end.

(** ** Handlers as computations *)

Definition M (A : Type) : Type := env -> world -> result A * world.

Definition ret {A} (a : A) : M A := fun _ w => (Ok a, w).

Definition bind {A B} (m : M A) (k : A -> M B) : M B :=
  fun e w =>
    match m e w with
    | (Ok a, w') => k a e w'
    | (Raise x, w') => (Raise x, w')
    end.

Definition raise {A} (x : exn) : M A := fun _ w => (Raise x, w).

Declare Scope py_scope.
Delimit Scope py_scope with py.
Notation "'let*' x ':=' m 'in' k" := (bind m (fun x => k))
  (at level 10, x name, m at level 100, k at level 200) : py_scope.
Notation "m ';;;' k" := (bind m (fun _ => k))
  (at level 100, k at level 200, right associativity) : py_scope.

(** [try: body / except <handles>: handler]. *)
Definition try_except {A} (body : M A) (handles : exn -> bool) (handler : M A) : M A :=
  fun e w =>
    match body e w with
    | (Ok a, w') => (Ok a, w')
    | (Raise x, w') => if handles x then handler e w' else (Raise x, w')
    end.

(** [try: body / finally: final]. *)
Definition try_finally {A} (body : M A) (final : M unit) : M A :=
  fun e w =>
    match body e w with
    | (r, w') =>
        match final e w' with
        | (Ok _, w'') => (r, w'')
        | (Raise x, w'') => (Raise x, w'')
        end
    end.

Definition is_sqlite3_Error (x : exn) : bool :=
  match x with sqlite3_Error => true | _ => false end.

(** [except Exception]. *)
Definition is_Exception (x : exn) : bool := true.

(** A pure computation that may raise. *)
Definition lift {A} (r : result A) : M A := fun _ w => (r, w).

(** *** Primitive effects *)

Definition emit (x : effect) : M unit :=
  fun _ w => (Ok tt, emitting [x] w).

Definition answer (message : Message) (t : str) : M unit :=
  emit (answer_sent (chat_id message) t).

Definition answer_document (message : Message) (p : Path) (caption : str) : M unit :=
  emit (document_sent (chat_id message) p caption).

Definition logger_exception (msg : str) : M unit :=
  emit (logged_exception msg).

Definition datetime_now : M datetime := fun e w => (Ok (now e), w).

(** *** The FSM context over the memory storage *)

(** The storage is a [defaultdict]: a key never written reads as the empty
    record. *)
Definition record_of (st : gmap StorageKey MemoryStorageRecord) (k : StorageKey)
  : MemoryStorageRecord :=
  default empty_record (st !! k).

Definition modify_record (k : StorageKey)
  (f : MemoryStorageRecord -> MemoryStorageRecord) : M unit :=
  fun _ w =>
    (Ok tt, with_storage (<[k := f (record_of (storage w) k)]> (storage w)) w).

Definition get_state (state : FSMContext) : M (option StudentForm.t) :=
  fun _ w => (Ok (rec_state (record_of (storage w) (key state))), w).

Definition set_state (state : FSMContext) (s : option StudentForm.t) : M unit :=
  modify_record (key state) (fun r => {| rec_state := s; rec_data := rec_data r |}).

Definition get_data (state : FSMContext) : M (gmap string value) :=
  fun _ w => (Ok (rec_data (record_of (storage w) (key state))), w).

Definition set_data (state : FSMContext) (data : gmap string value) : M unit :=
  modify_record (key state) (fun r => {| rec_state := rec_state r; rec_data := data |}).

(** [update_data(k=v)]: read, update the copy, store. *)
Definition update_data (state : FSMContext) (k : string) (v : value) : M unit :=
  (let* current := get_data state in
   set_data state (<[k := v]> current))%py.

(** [clear()]: no state, no data. *)
Definition clear (state : FSMContext) : M unit :=
  (set_state state None ;;; set_data state ∅)%py.

(** [for x in xs: body x]. *)
Fixpoint for_each {A} (xs : list A) (body : A -> M unit) : M unit :=
  match xs with
  | [] => ret tt
  | x :: r => (body x ;;; for_each r body)%py
  end.

(** ** The repository *)

(** [sqlite3.connect(DB_NAME)]. *)
Definition sqlite3_connect : M unit :=
  fun e w =>
    let w' := emitting [db_opened (db_opens e)] w in
    if db_opens e then (Ok tt, w') else (Raise sqlite3_Error, w').

(** An integer that SQLite can hold: 64 bits, signed. *)
Definition fits_int64 (n : Z) : bool := (- 2 ^ 63 <=? n) && (n <? 2 ^ 63).

(** [cur.execute(sql, params)] on an open connection, committed. The
    statement is prepared first, which fails when the table is not there;
    then the parameters are bound, and an integer that SQLite cannot hold
    raises [OverflowError]; then the statement runs. [params] are the
    integers among the parameters. *)
Definition execute {A} (params : list Z) (f : database -> A * database) : M A :=
  fun e w =>
    if db_online e then
      if forallb fits_int64 params then
        (Ok (fst (f (db w))), with_db (snd (f (db w))) w)
      else (Raise OverflowError, w)
    else (Raise sqlite3_Error, w).

Definition add_student (name : str) (age : Z) (grade : str) : M Z :=
  let name := strip name in
  let grade := strip grade in
  (sqlite3_connect ;;;
   execute [age] (insert_student name age grade))%py.

Definition list_students (limit : Z) : M (list row) :=
  (sqlite3_connect ;;;
   execute [limit] (fun d => (sql_limit limit (order_by_id_desc (students d)), d)))%py.

(** *** The CSV export *)

(** [open(p, "w")]: the file is created or truncated, which needs its
    directory. *)
Definition open_w (p : Path) : M unit :=
  fun _ w =>
    if decide (removelast p ∈ dirs (fs w)) then
      if decide (p ∈ dirs (fs w)) then (Raise OSError, w)
      else (Ok tt, with_fs {| dirs := dirs (fs w);
                              files := <[p := []]> (files (fs w)) |} w)
    else (Raise OSError, w).

Definition file_text (f : filesystem) (p : Path) : str :=
  default [] (files f !! p).

(** [f.write(t)] on the file opened at [p]; the host is POSIX, a newline is
    written as it is. *)
Definition f_write (p : Path) (t : str) : M unit :=
  fun _ w =>
    (Ok tt, with_fs {| dirs := dirs (fs w);
                       files := <[p := file_text (fs w) p ++ t]> (files (fs w)) |} w).

Definition comma : str := lit ",".

Definition csv_header : str := lit "id,name,age,grade".

Definition csv_line (r : row) : str :=
  let '(_id, name, age, grade) := r in
  str_of_int _id ++ comma ++ name ++ comma ++ str_of_int age ++ comma ++ grade.

Definition export_name (t : datetime) : str :=
  lit "students_" ++ strftime_stamp t ++ lit ".csv".

Definition export_students_csv : M Path :=
  (let* t := datetime_now in
   let filename := EXPORTS_DIR ++ [export_name t] in
   sqlite3_connect ;;;
   open_w filename ;;;
   let* rows := execute [] (fun d => (order_by_id_asc (students d), d)) in
   f_write filename (csv_header ++ nl) ;;;
   for_each rows (fun r => f_write filename (csv_line r ++ nl)) ;;;
   ret filename)%py.

(** What loading the module does to the files: [EXPORTS_DIR.mkdir(exist_ok=True)]. *)
Definition load_module (f : filesystem) : result unit * filesystem :=
  mkdir_exist_ok EXPORTS_DIR f.

(** ** The handlers *)

Definition greeting : str :=
  lit "Привет! Я бот для записи учеников в базу данных." ++ nl
  ++ lit "Давай внесём твою информацию." ++ nl ++ nl
  ++ lit "Как тебя зовут?" ++ nl ++ nl
  ++ lit "ℹ️ В любой момент можно отменить: /cancel".

Definition on_start (message : Message) (state : FSMContext) : M unit :=
  (clear state ;;;
   answer message greeting ;;;
   set_state state (Some StudentForm.name))%py.

Definition help_text : str :=
  lit "Доступные команды:" ++ nl
  ++ lit "/start — начать ввод ученика" ++ nl
  ++ lit "/cancel — отменить текущий ввод" ++ nl
  ++ lit "/students — показать последние записи" ++ nl
  ++ lit "/export_csv — выгрузить всех учеников в CSV".

Definition on_help (message : Message) : M unit :=
  answer message help_text.

Definition cancelled : str := lit "Операция отменена. Чтобы начать заново — /start".

Definition on_cancel (message : Message) (state : FSMContext) : M unit :=
  (clear state ;;;
   answer message cancelled)%py.

Definition name_prompt_again : str :=
  lit "Имя не должно быть пустым. Введи имя ещё раз.".
Definition age_prompt_again : str :=
  lit "Возраст должен быть целым числом от 1 до 120. Попробуй ещё раз.".
Definition grade_prompt_again : str :=
  lit "Класс не должен быть пустым. Введи класс ещё раз.".
Definition data_invalid : str := lit "Данные некорректны. Начни заново: /start".
Definition db_failure : str := lit "Ошибка БД. Попробуйте позже.".
Definition age_prompt : str := lit "Сколько тебе лет? (целое число 1–120)".
Definition grade_prompt : str := lit "В каком ты классе? (например: 5А или 5)".
Definition save_failed_log : str := lit "Ошибка при сохранении в БД".
Definition list_empty : str := lit "Список пуст. Пока нет записей в таблице students.".
Definition list_title : str := lit "Последние записи (до 10):".
Definition export_caption : str := lit "Экспорт учеников (CSV).".
Definition export_failed_log : str := lit "Ошибка при экспорте CSV".
Definition export_failed : str := lit "Не удалось сформировать CSV. Попробуйте позже.".

Definition on_name (message : Message) (state : FSMContext) : M unit :=
  let name := strip (text_or_empty message) in
  if not_ name then
    answer message name_prompt_again
  else
    (update_data state "name" (VStr name) ;;;
     answer message age_prompt ;;;
     set_state state (Some StudentForm.age))%py.

Definition on_age (message : Message) (state : FSMContext) : M unit :=
  (let* age := lift (parse_age (text_or_empty message)) in
   match age with
   | None => answer message age_prompt_again
   | Some age =>
       update_data state "age" (VInt age) ;;;
       answer message grade_prompt ;;;
       set_state state (Some StudentForm.grade)
   end)%py.

Definition saved_message (student_id : Z) (name : str) (age : Z) (grade : str) : str :=
  lit "✅ Сохранено!" ++ nl ++ nl
  ++ lit "ID: " ++ str_of_int student_id ++ nl
  ++ lit "Имя: " ++ name ++ nl
  ++ lit "Возраст: " ++ str_of_int age ++ nl
  ++ lit "Класс: " ++ grade ++ nl ++ nl
  ++ lit "Чтобы добавить ещё — /start" ++ nl
  ++ lit "Посмотреть последние записи — /students".

(** [data.get("name", "").strip()]: only a string has [strip]. *)
Definition strip_value (v : value) : M str :=
  match v with
  | VStr s => ret (strip s)
  | VInt _ => raise AttributeError
  end.

(** [isinstance(age, int)], with the integer when it is one. *)
Definition as_int (v : option value) : option Z :=
  match v with
  | Some (VInt n) => Some n
  | _ => None
  end.

Definition on_grade (message : Message) (state : FSMContext) : M unit :=
  let grade := strip (text_or_empty message) in
  if not_ grade then
    answer message grade_prompt_again
  else
    (let* data := get_data state in
     let* name := strip_value (default (VStr []) (data !! "name")) in
     let age := data !! "age" in
     (* final validation *)
     match (if not_ name then None else as_int age) with
     | None =>
         answer message data_invalid ;;;
         clear state
     | Some age =>
         try_finally
           (try_except
              (let* student_id := add_student name age grade in
               answer message (saved_message student_id name age grade))
              is_sqlite3_Error
              (logger_exception save_failed_log ;;;
               answer message db_failure))
           (clear state)
     end)%py.

Definition student_line (r : row) : str :=
  let '(_id, name, age, grade) := r in
  lit "• #" ++ str_of_int _id ++ lit ": " ++ name ++ lit ", "
  ++ str_of_int age ++ lit " лет, класс " ++ grade.

(** [sep.join(parts)]. *)
Fixpoint join (sep : str) (parts : list str) : str :=
  match parts with
  | [] => []
  | [p] => p
  | p :: r => p ++ sep ++ join sep r
  end.

Definition on_students (message : Message) : M unit :=
  (let* rows := list_students 10 in
   match rows with
   | [] => answer message list_empty
   | _ :: _ =>
       let lines := [list_title] ++ map student_line rows in
       answer message (join nl lines)
   end)%py.

Definition on_export_csv (message : Message) : M unit :=
  try_except
    (let* path := export_students_csv in
     answer_document message path export_caption)%py
    is_Exception
    (logger_exception export_failed_log ;;;
     answer message export_failed)%py.

(** ** The router *)

(** *** The command filter

    [Command(name)], and [CommandStart()] which is [Command("start")] when
    no deep link is asked for: the filter reads the first word of the text,
    or of the caption when there is no text. The word must be the prefix
    [/], the name of the command and possibly [@] and a mention, which must
    then name this bot. What follows the first word is not looked at. *)

(** A text up to its first whitespace. *)
Fixpoint word (s : str) : str :=
  match s with
  | [] => []
  | c :: r => if isspace c then [] else c :: word r
  end.

(** [text.split(maxsplit=1)[0]], when the text has a word at all. *)
Definition first_word (t : str) : option str :=
  if not_ (lstrip t) then None else Some (word (lstrip t)).

Definition at_sign : char := 64%N.
Definition slash : char := 47%N.

(** [s.partition("@")]: what stands before the first [@], and after it. *)
Fixpoint partition_at (s : str) : str * str :=
  match s with
  | [] => ([], [])
  | c :: r =>
      if (c =? at_sign)%N then ([], r)
      else let '(before, after) := partition_at r in (c :: before, after)
  end.

(** The prefix, the name and the mention of the command a text starts with. *)
Definition extract_command (t : str) : option (char * str * str) :=
  match first_word t with
  | Some (p :: rest) =>
      let '(name, mention) := partition_at rest in Some (p, name, mention)
  | _ => None
  end.

Definition command_name (c : command) : str :=
  match c with
  | Start => lit "start"
  | Help => lit "help"
  | Cancel => lit "cancel"
  | Students => lit "students"
  | ExportCsv => lit "export_csv"
  end.

(** [message.text or message.caption]. *)
Definition text_or_caption (message : Message) : option str :=
  match text message with
  | Some t => if not_ t then caption message else Some t
  | None => caption message
  end.

(** Whether the filter of the command [c] lets the message through. *)
Definition commanded (e : env) (message : Message) (c : command) : bool :=
  match text_or_caption message with
  | Some t =>
      if not_ t then false
      else match extract_command t with
           | Some (p, name, mention) =>
               (p =? slash)%N
               && (not_ mention || for_me e mention)
               && bool_decide (name = command_name c)
           | None => false
           end
  | None => false
  end.

(** A filter sees what the surroundings tell, the message and the state of
    its dialogue. *)
Definition Filter : Type := env -> Message -> option StudentForm.t -> bool.

Definition is_command (c : command) : Filter :=
  fun e message _ => commanded e message c.

Definition in_state (s : StudentForm.t) : Filter :=
  fun _ _ current => bool_decide (current = Some s).

Definition handler : Type := Message -> FSMContext -> M unit.

(** The handlers in the order they are registered; the first whose filter
    passes handles the message. *)
Definition router : list (Filter * handler) :=
  [ (is_command Start, on_start);
    (is_command Help, fun message _ => on_help message);
    (is_command Cancel, on_cancel);
    (in_state StudentForm.name, on_name);
    (in_state StudentForm.age, on_age);
    (in_state StudentForm.grade, on_grade);
    (is_command Students, fun message _ => on_students message);
    (is_command ExportCsv, fun message _ => on_export_csv message) ].

Definition context_of (message : Message) : FSMContext :=
  {| key := (chat_id message, user_id message) |}.

Definition state_of (w : world) (k : StorageKey) : option StudentForm.t :=
  rec_state (record_of (storage w) k).

Definition data_of (w : world) (k : StorageKey) : gmap string value :=
  rec_data (record_of (storage w) k).

Definition resolve (e : env) (message : Message) (w : world) : option handler :=
  snd <$> List.find
            (fun fh => fst fh e message (state_of w (key (context_of message))))
            router.

(** One update through the dispatcher: an exception a handler lets out is
    logged by the dispatcher, the polling goes on. *)
Definition feed_update (e : env) (message : Message) (w : world) : world :=
  match resolve e message w with
  | Some h => snd (h message (context_of message) e w)
  | None => w
  end.

Definition update : Type := env * Message.

Definition run (us : list update) (w : world) : world :=
  fold_left (fun w u => feed_update (fst u) (snd u) w) us w.

(** ** Auxiliary definitions of the statements *)

(** The stored name and age as the final validation reads them. *)
Definition final_check (data : gmap string value) : option (str * Z) :=
  match default (VStr []) (data !! "name") with
  | VStr s => if not_ (strip s) then None
              else match as_int (data !! "age") with
                   | Some age => Some (strip s, age)
                   | None => None
                   end
  | VInt _ => None
  end.

Definition name_is_text (data : gmap string value) : Prop :=
  forall n, data !! "name" <> Some (VInt n).

Definition csv_rows (rows : list row) : str :=
  concat (map (fun r => csv_line r ++ nl) rows).

Definition csv_text (rows : list row) : str :=
  csv_header ++ nl ++ csv_rows rows.

Definition export_path (t : datetime) : Path := EXPORTS_DIR ++ [export_name t].

Definition students_reply (rows : list row) : str :=
  match rows with
  | [] => list_empty
  | _ :: _ => join nl (list_title :: map student_line rows)
  end.


(** *** The transition table

    What one update does to the world, case by case: the dialogue of the
    sender is the only one written, the table only grows. [put] writes the
    sender's record and appends to the effects. *)

Definition put (k : StorageKey) (r : MemoryStorageRecord) (xs : list effect)
  (w : world) : world :=
  {| storage := <[k := r]> (storage w); db := db w; fs := fs w;
     effects := effects w ++ xs |}.

(** A message that the three command filters registered first let through. *)
Definition reaches_states (e : env) (message : Message) : Prop :=
  commanded e message Start = false /\ commanded e message Help = false
  /\ commanded e message Cancel = false.

Section Transition.
Variables (e : env) (message : Message) (w : world).

Let k := key (context_of message).
Let r := record_of (storage w) k.
Let chat := chat_id message.
Let said := text_or_empty message.

Inductive step : world -> Prop :=
  | step_start :
      commanded e message Start = true ->
      step (put k {| rec_state := Some StudentForm.name; rec_data := ∅ |}
              [answer_sent chat greeting] w)
  | step_help :
      commanded e message Help = true ->
      step (emitting [answer_sent chat help_text] w)
  | step_cancel :
      commanded e message Cancel = true ->
      step (put k empty_record [answer_sent chat cancelled] w)
  | step_name_again :
      reaches_states e message -> rec_state r = Some StudentForm.name ->
      strip said = [] ->
      step (emitting [answer_sent chat name_prompt_again] w)
  | step_name :
      reaches_states e message -> rec_state r = Some StudentForm.name ->
      strip said <> [] ->
      step (put k {| rec_state := Some StudentForm.age;
                     rec_data := <["name" := VStr (strip said)]> (rec_data r) |}
              [answer_sent chat age_prompt] w)
  | step_age_again :
      reaches_states e message -> rec_state r = Some StudentForm.age ->
      parse_age said = Ok None ->
      step (emitting [answer_sent chat age_prompt_again] w)
  | step_age age :
      reaches_states e message -> rec_state r = Some StudentForm.age ->
      parse_age said = Ok (Some age) ->
      step (put k {| rec_state := Some StudentForm.grade;
                     rec_data := <["age" := VInt age]> (rec_data r) |}
              [answer_sent chat grade_prompt] w)
  | step_grade_again :
      reaches_states e message -> rec_state r = Some StudentForm.grade ->
      strip said = [] ->
      step (emitting [answer_sent chat grade_prompt_again] w)
  | step_grade_not_text n :
      reaches_states e message -> rec_state r = Some StudentForm.grade ->
      strip said <> [] ->
      rec_data r !! "name" = Some (VInt n) ->
      step w
  | step_grade_invalid :
      reaches_states e message -> rec_state r = Some StudentForm.grade ->
      strip said <> [] ->
      name_is_text (rec_data r) -> final_check (rec_data r) = None ->
      step (put k empty_record [answer_sent chat data_invalid] w)
  | step_grade_saved name age :
      reaches_states e message -> rec_state r = Some StudentForm.grade ->
      strip said <> [] ->
      final_check (rec_data r) = Some (name, age) ->
      db_online e = true -> fits_int64 age = true ->
      step {| storage := <[k := empty_record]> (storage w);
              db := {| students := students (db w)
                                   ++ [(next_rowid (db w), strip name, age,
                                        strip (strip said))];
                       sqlite_sequence := next_rowid (db w) |};
              fs := fs w;
              effects := effects w ++
                [db_opened true;
                 answer_sent chat
                   (saved_message (next_rowid (db w)) name age (strip said))] |}
  | step_grade_failed name age :
      reaches_states e message -> rec_state r = Some StudentForm.grade ->
      strip said <> [] ->
      final_check (rec_data r) = Some (name, age) ->
      db_online e = false ->
      step (put k empty_record
              [db_opened (db_opens e); logged_exception save_failed_log;
               answer_sent chat db_failure] w)
  | step_grade_overflow name age :
      reaches_states e message -> rec_state r = Some StudentForm.grade ->
      strip said <> [] ->
      final_check (rec_data r) = Some (name, age) ->
      db_online e = true -> fits_int64 age = false ->
      step (put k empty_record [db_opened true] w)
  | step_read f xs :
      reaches_states e message -> rec_state r = None ->
      commanded e message Students = true \/ commanded e message ExportCsv = true ->
      (forall c, answer_sent c data_invalid ∉ xs) ->
      step {| storage := storage w; db := db w; fs := f;
              effects := effects w ++ xs |}
  | step_unhandled :
      reaches_states e message -> rec_state r = None ->
      commanded e message Students = false ->
      commanded e message ExportCsv = false ->
      step w.
End Transition.

(** *** One dialogue on its own *)

Definition sender (message : Message) : StorageKey := key (context_of message).

(** The record of the sender after an update, from its record before. *)
Definition session_after (e : env) (message : Message) (r : MemoryStorageRecord)
  : MemoryStorageRecord :=
  let said := text_or_empty message in
  if commanded e message Start then
    {| rec_state := Some StudentForm.name; rec_data := ∅ |}
  else if commanded e message Help then r
  else if commanded e message Cancel then empty_record
  else
    match rec_state r with
    | None => r
    | Some StudentForm.name =>
        if not_ (strip said) then r
        else {| rec_state := Some StudentForm.age;
                rec_data := <["name" := VStr (strip said)]> (rec_data r) |}
    | Some StudentForm.age =>
        match parse_age said with
        | Ok (Some age) =>
            {| rec_state := Some StudentForm.grade;
               rec_data := <["age" := VInt age]> (rec_data r) |}
        | _ => r
        end
    | Some StudentForm.grade =>
        if not_ (strip said) then r
        else match rec_data r !! "name" with
             | Some (VInt _) => r
             | _ => empty_record
             end
    end.

(** A row without its id. *)
Definition fields (r : row) : str * Z * str := (row_name r, row_age r, row_grade r).

(** What an update adds to the table, from the record of its sender. *)
Definition persisted (e : env) (message : Message) (r : MemoryStorageRecord)
  : list (str * Z * str) :=
  let said := text_or_empty message in
  if commanded e message Start || commanded e message Help
     || commanded e message Cancel then []
  else
    match rec_state r with
    | Some StudentForm.grade =>
        if not_ (strip said) then []
        else match final_check (rec_data r) with
             | Some (name, age) =>
                 if db_online e && fits_int64 age
                 then [(strip name, age, strip (strip said))]
                 else []
             | None => []
             end
    | _ => []
    end.

(** The rows a run added to the table. *)
Definition new_rows (w w' : world) : list row :=
  drop (length (students (db w))) (students (db w')).

(** The updates of one dialogue among those of a run. *)
Definition from (k : StorageKey) (u : update) : bool :=
  bool_decide (sender (snd u) = k).

(** The dialogue [k] followed on its own through a run: its record at the
    end and what it added to the table. *)
Fixpoint solo (k : StorageKey) (us : list update) (r : MemoryStorageRecord)
  : MemoryStorageRecord * list (str * Z * str) :=
  match us with
  | [] => (r, [])
  | u :: rest =>
      if from k u then
        let '(r', added) := solo k rest (session_after (fst u) (snd u) r) in
        (r', persisted (fst u) (snd u) r ++ added)
      else solo k rest r
  end.

(** *** Worlds the bot can be in *)

(** The bot starts with an empty storage and no effect yet; the table and
    the files are whatever they are. *)
Inductive reachable : world -> Prop :=
  | reachable_start d f :
      reachable {| storage := ∅; db := d; fs := f; effects := [] |}
  | reachable_update e message w :
      reachable w -> reachable (feed_update e message w).

(** What the handlers keep in a record, state by state. *)
Definition consistent (r : MemoryStorageRecord) : Prop :=
  match rec_state r with
  | None | Some StudentForm.name => rec_data r = ∅
  | Some StudentForm.age =>
      exists name, rec_data r = {["name" := VStr name]}
                   /\ name <> [] /\ strip name = name
  | Some StudentForm.grade =>
      exists name age,
        rec_data r = <["age" := VInt age]> {["name" := VStr name]}
        /\ name <> [] /\ strip name = name /\ 1 <= age <= 120
  end.

(** *** Validation as the handlers decide it *)

(** A text passes the validation of the state it is given in. *)
Definition valid_input (s : StudentForm.t) (t : str) : Prop :=
  match s with
  | StudentForm.name | StudentForm.grade => strip t <> []
  | StudentForm.age => exists age, parse_age t = Ok (Some age)
  end.

Definition prompt_again (s : StudentForm.t) : str :=
  match s with
  | StudentForm.name => name_prompt_again
  | StudentForm.age => age_prompt_again
  | StudentForm.grade => grade_prompt_again
  end.

(** The field a handler is said to store its input under. *)
Definition stores_stripped (e : env) (message : Message) (w : world)
  (field : string) : Prop :=
  rec_data (record_of (storage (feed_update e message w)) (sender message)) !! field
  = Some (VStr (strip (text_or_empty message))).

(** *** Sample inputs *)

Definition fresh_world : world :=
  {| storage := ∅; db := empty_db;
     fs := {| dirs := {[EXPORTS_DIR]}; files := ∅ |}; effects := [] |}.

Definition sample_time : datetime :=
  {| year := 2024; month := 3; day := 7; hour := 9; minute := 5; second := 0 |}.

Definition online : env :=
  {| db_is := db_ready; now := sample_time; for_me := fun _ => true |}.
Definition offline : env :=
  {| db_is := db_closed; now := sample_time; for_me := fun _ => true |}.

Definition says (user : Z) (t : string) : Message :=
  {| chat_id := user; user_id := user; body := Plain (Some (lit t)) |}.

Definition sends (user : Z) (c : command) : Message :=
  {| chat_id := user; user_id := user; body := Command c |}.

(** A dialogue of user 1 that has reached the question about the grade. *)
Definition asked_grade : world :=
  run [(online, sends 1 Start); (online, says 1 " Ann "); (online, says 1 "10")] fresh_world.

(** A dialogue of user 1 that has just been started. *)
Definition asked_name : world := run [(online, sends 1 Start)] fresh_world.

(** Two dialogues whose updates alternate. *)
Definition interleaved : list update :=
  [ (online, sends 1 Start); (online, sends 2 Start);
    (online, says 1 "Ann"); (online, says 2 "Bob");
    (online, says 2 "11"); (online, says 1 "10");
    (online, says 2 "5A"); (online, says 1 "4B") ].

(** *** Tables filled through [add_student] *)

(** The world after the given students were added one after the other, the
    database being writable. *)
Definition enrolled (rs : list (str * Z * str)) (w : world) : world :=
  fold_left (fun w r => snd (add_student (fst (fst r)) (snd (fst r)) (snd r) online w))
    rs w.

(** Ids strictly decreasing, and strictly increasing. *)
Definition id_above (r1 r2 : row) : Prop := row_id r2 < row_id r1.
Definition id_below (r1 r2 : row) : Prop := row_id r1 < row_id r2.

(** *** Reading the exported file *)

Definition line_feed : N := 10%N.

(** The lines of a text: what a line feed ends, and what is left after the
    last one when it is not empty. [cur] is the line being read, reversed. *)
Fixpoint lines_from (cur : str) (s : str) : list str :=
  match s with
  | [] => match cur with [] => [] | _ :: _ => [rev cur] end
  | c :: r =>
      if (c =? line_feed)%N then rev cur :: lines_from [] r
      else lines_from (c :: cur) r
  end.

Definition lines (s : str) : list str := lines_from [] s.

Definition one_line (s : str) : Prop := line_feed ∉ s.

Definition is_digit (c : N) : bool := ((48 <=? c) && (c <=? 57))%N.

(** [students_<YYYYMMDD_HHMMSS>.csv]. *)
Definition stamped_name (s : str) : Prop :=
  exists date time : str,
    s = lit "students_" ++ date ++ lit "_" ++ time ++ lit ".csv"
    /\ length date = 8%nat /\ length time = 6%nat
    /\ forallb is_digit date = true /\ forallb is_digit time = true.

(** A table with one student whose name was sent on two lines, and the
    world after it was exported. *)
Definition two_line_name : list update :=
  [ (online, sends 1 Start);
    (online, {| chat_id := 1; user_id := 1;
                body := Plain (Some (lit "Ann" ++ nl ++ lit "Lee")) |});
    (online, says 1 "10"); (online, says 1 "4B") ].

Definition exported_text (w : world) : str :=
  file_text (fs (snd (export_students_csv online w))) (export_path (now online)).

(** *** Integer texts

    What [int] documents as the text of a base-10 integer: an optional sign,
    then decimal digits with single underscores allowed between them, the
    whole possibly surrounded by whitespace. [digit c d] tells that the
    character [c] is a digit of value [d]. *)

Section Numerals.
Variable digit : N -> Z -> Prop.

(** What may follow a digit: nothing, a digit, or an underscore and a digit. *)
Inductive digits_from : list N -> list Z -> Prop :=
  | digits_end : digits_from [] []
  | digits_next c d r ds :
      digit c d -> digits_from r ds -> digits_from (c :: r) (d :: ds)
  | digits_grouped c d r ds :
      digit c d -> digits_from r ds -> digits_from (underscore :: c :: r) (d :: ds).

Inductive numeral : list N -> list Z -> Prop :=
  | numeral_intro c d r ds :
      digit c d -> digits_from r ds -> numeral (c :: r) (d :: ds).
End Numerals.

Definition value_from (acc : Z) (ds : list Z) : Z :=
  fold_left (fun acc d => acc * 10 + d) ds acc.

Definition decimal_value (ds : list Z) : Z := value_from 0 ds.

Inductive sign_text : list N -> Z -> Prop :=
  | sign_none : sign_text [] 1
  | sign_plus : sign_text [43%N] 1
  | sign_minus : sign_text [45%N] (-1).

(** The ASCII digits, and the decimal digits of Unicode. *)
Definition ascii_digit (c : N) (d : Z) : Prop := digit_value c = Some d.
Definition unicode_digit (c : N) (d : Z) : Prop :=
  exists m, todecimal c = Some m /\ d = Z.of_N m.

(** [s] is the text of the integer [n], between whitespace that [space]
    recognises, with digits that [digit] recognises. *)
Definition integer_text_of (space : N -> bool) (digit : N -> Z -> Prop)
  (s : list N) (n : Z) : Prop :=
  exists ws1 sg body ws2 sigma ds,
    s = ws1 ++ sg ++ body ++ ws2
    /\ forallb space ws1 = true /\ forallb space ws2 = true
    /\ sign_text sg sigma
    /\ numeral digit body ds
    /\ (length ds <= max_str_digits)%nat
    /\ n = sigma * decimal_value ds.

(** The base-10 integer texts that [parse_age] is given: Unicode whitespace
    around, Unicode decimal digits. *)
Definition integer_text : list N -> Z -> Prop := integer_text_of isspace unicode_digit.

(** What [_PyUnicode_TransformDecimalAndSpaceToASCII] makes of one
    character when it does not cut the text. *)
Definition to_ascii (c : N) : N :=
  if (c <? 127)%N then c
  else if isspace c then 32%N
  else match todecimal c with
       | Some d => (48 + d)%N
       | None => 63%N
       end.

(** A character the transformation lets through. *)
Definition transformable (c : N) : Prop :=
  (c < 127)%N \/ isspace c = true \/ todecimal c <> None.

(** Where the scan of the digits may stop. *)
Definition stops (rest : list N) : Prop :=
  match rest with
  | [] => True
  | c :: _ => c <> underscore /\ digit_value c = None
  end.

(** The whitespace of [isspace], one by one. *)
Definition space_points : list N :=
  [9; 10; 11; 12; 13; 28; 29; 30; 31; 32; 0x85; 0xA0; 0x1680;
   0x2000; 0x2001; 0x2002; 0x2003; 0x2004; 0x2005; 0x2006; 0x2007; 0x2008;
   0x2009; 0x200A; 0x2028; 0x2029; 0x202F; 0x205F; 0x3000]%N.

(** *** Further notions for the properties of the handlers *)

(** The chat an effect is sent to, when it is a message or a document. *)
Definition addressed (x : effect) : option Z :=
  match x with
  | answer_sent c _ => Some c
  | document_sent c _ _ => Some c
  | logged_exception _ => None
  | db_opened _ => None
  end.

Definition is_sent (x : effect) : bool :=
  match addressed x with Some _ => true | None => false end.

(** A row as the dialogue makes them: name and grade stripped and not
    empty, age from 1 to 120. *)
Definition valid_row (r : row) : Prop :=
  row_name r <> [] /\ strip (row_name r) = row_name r
  /\ 1 <= row_age r <= 120
  /\ row_grade r <> [] /\ strip (row_grade r) = row_grade r.

(** [s.split(sep)] for a separator of one character. [cur] is the field
    being read, reversed. *)
Fixpoint split_from (sep : N) (cur : str) (s : str) : list str :=
  match s with
  | [] => [rev cur]
  | c :: r =>
      if (c =? sep)%N then rev cur :: split_from sep [] r
      else split_from sep (c :: cur) r
  end.

Definition split_on (sep : N) (s : str) : list str := split_from sep [] s.

Definition comma_point : N := 44%N.

(** The four fields of a row as the export prints them. *)
Definition printed_fields (r : row) : list str :=
  [str_of_int (row_id r); row_name r; str_of_int (row_age r); row_grade r].

Definition plain_field (s : str) : Prop := (comma_point ∉ s) /\ (line_feed ∉ s).

(** A dialogue of user 1 waiting for the age. *)
Definition asked_age : world :=
  run [(online, sends 1 Start); (online, says 1 "Ann")] fresh_world.

(** A table of two students, in a world with the export directory. *)
Definition two_students : world :=
  enrolled [(lit "Ann", 10, lit "4B"); (lit "Bob", 11, lit "5A")] fresh_world.

(** An update that gets no answer: from a sender who is in no dialogue, a
    message that is none of the commands, or [/students] when the table
    cannot be read. *)
Definition unanswered (e : env) (message : Message) (w : world) : Prop :=
  state_of w (sender message) = None
  /\ ((forall c, commanded e message c = false)
      \/ (commanded e message Students = true /\ db_online e = false)).

(** The database file opens, and the table is not there. *)
Definition no_table : env :=
  {| db_is := db_no_table; now := sample_time; for_me := fun _ => true |}.

(** The dates and times a [datetime] holds. *)
Definition valid_datetime (t : datetime) : Prop :=
  1 <= year t <= 9999 /\ 1 <= month t <= 12 /\ 1 <= day t <= 31
  /\ 0 <= hour t <= 23 /\ 0 <= minute t <= 59 /\ 0 <= second t <= 59.

(** One second before [sample_time]. *)
Definition second_before : datetime :=
  {| year := 2024; month := 3; day := 7; hour := 9; minute := 4; second := 59 |}.

(** * Properties *)

(** ** Stripping *)

Lemma lstrip_idemp (s : str) : lstrip (lstrip s) = lstrip s.
Proof.
  induction s as [|c r IH]; [reflexivity|].
  simpl. destruct (isspace c) eqn:Hc; [exact IH|].
  simpl. now rewrite Hc.
Qed.

(** What [lstrip] removes is whitespace, and what it leaves starts with
    something else. *)
Lemma lstrip_split (s : str) :
  exists ws, s = ws ++ lstrip s /\ forallb isspace ws = true.
Proof.
  induction s as [|c r (ws & Heq & Hws)].
  - exists []. split; reflexivity.
  - simpl. destruct (isspace c) eqn:Hc.
    + exists (c :: ws). split; [simpl; congruence|]. simpl. now rewrite Hc.
    + exists []. split; reflexivity.
Qed.

Lemma lstrip_head (s : str) c r : lstrip s = c :: r -> isspace c = false.
Proof.
  induction s as [|a s IH]; simpl; [discriminate|].
  destruct (isspace a) eqn:Ha; [exact IH|].
  intros [= <- _]. exact Ha.
Qed.

Lemma lstrip_fixed (s : str) c r : s = c :: r -> isspace c = false -> lstrip s = s.
Proof. intros -> H. simpl. now rewrite H. Qed.

Lemma lstrip_app_spaces (ws s : str) :
  forallb isspace ws = true -> lstrip (ws ++ s) = lstrip s.
Proof.
  induction ws as [|c ws IH]; simpl; [reflexivity|].
  intros [Hc Hws]%andb_prop. rewrite Hc. auto.
Qed.

Lemma lstrip_spaces (ws : str) : forallb isspace ws = true -> lstrip ws = [].
Proof.
  intros H. rewrite <- (app_nil_r ws). now rewrite lstrip_app_spaces.
Qed.

Lemma lstrip_app_keep (s t : str) : lstrip s <> [] -> lstrip (s ++ t) = lstrip s ++ t.
Proof.
  induction s as [|c s IH]; simpl; [congruence|].
  destruct (isspace c); auto.
Qed.

Lemma rstrip_idemp (s : str) : rstrip (rstrip s) = rstrip s.
Proof. unfold rstrip. now rewrite rev_involutive, lstrip_idemp. Qed.

Lemma rstrip_split (s : str) :
  exists ws, s = rstrip s ++ ws /\ forallb isspace ws = true.
Proof.
  destruct (lstrip_split (rev s)) as (ws & Heq & Hws).
  exists (rev ws). split.
  - unfold rstrip. rewrite <- rev_app_distr, <- Heq. now rewrite rev_involutive.
  - rewrite forallb_forall in *. intros x Hx. apply Hws. now apply in_rev.
Qed.

(** Stripping on the right keeps the first character of what is left. *)
Lemma lstrip_rstrip (s : str) : lstrip s = s -> lstrip (rstrip s) = rstrip s.
Proof.
  intros Hs. destruct (rstrip s) as [|c r] eqn:Hr; [reflexivity|].
  destruct (rstrip_split s) as (ws & Heq & _). rewrite Hr in Heq.
  apply (lstrip_fixed _ c r eq_refl).
  apply (lstrip_head s c (r ++ ws)). now rewrite Hs.
Qed.

Lemma strip_idemp (s : str) : strip (strip s) = strip s.
Proof.
  unfold strip.
  rewrite (lstrip_rstrip (lstrip s) (lstrip_idemp s)).
  apply rstrip_idemp.
Qed.

Lemma strip_nil : strip [] = [].
Proof. reflexivity. Qed.

Lemma not_true_iff_nil (s : str) : not_ s = true <-> s = [].
Proof. destruct s; simpl; split; congruence. Qed.

Lemma not_false_iff (s : str) : not_ s = false <-> s <> [].
Proof. destruct s; simpl; split; congruence. Qed.

(** A text of whitespace only strips to nothing, and conversely. *)
Lemma strip_nil_iff (s : str) : strip s = [] <-> forallb isspace s = true.
Proof.
  unfold strip. split.
  - intros H. destruct (lstrip_split s) as (ws & Heq & Hws).
    destruct (rstrip_split (lstrip s)) as (ws' & Heq' & Hws').
    rewrite H in Heq'. simpl in Heq'. rewrite Heq, Heq'.
    rewrite List.forallb_app. apply andb_true_intro. split; assumption.
  - intros H. now rewrite (lstrip_spaces s H).
Qed.

(** ** The storage as a total map *)

Lemma record_of_insert_eq (st : gmap StorageKey MemoryStorageRecord) k r :
  record_of (<[k := r]> st) k = r.
Proof. unfold record_of. now rewrite lookup_insert_eq. Qed.

Lemma record_of_insert_ne (st : gmap StorageKey MemoryStorageRecord) k k' r :
  k <> k' -> record_of (<[k := r]> st) k' = record_of st k'.
Proof. intros H. unfold record_of. now rewrite lookup_insert_ne. Qed.

Lemma record_of_empty k : record_of ∅ k = empty_record.
Proof. unfold record_of. now rewrite lookup_empty. Qed.

Lemma text_or_empty_default (message : Message) :
  text_or_empty message = default [] (text message).
Proof.
  unfold text_or_empty. destruct (text message) as [[|c r]|]; reflexivity.
Qed.

Ltac unfold_handler :=
  unfold clear, update_data, set_state, set_data, get_data, get_state,
    modify_record, answer, answer_document, logger_exception, emit, lift,
    add_student, sqlite3_connect, execute, try_finally, try_except, bind,
    ret, raise, with_storage, with_db, with_fs, emitting;
  cbn [storage db fs effects fst snd rec_state rec_data].

Ltac storage_simpl :=
  repeat (rewrite record_of_insert_eq || rewrite insert_insert_eq);
  cbn [storage db fs effects fst snd rec_state rec_data].


(** ** What each handler does *)

Lemma on_start_spec message state e w :
  on_start message state e w =
  (Ok tt, {| storage := <[key state := {| rec_state := Some StudentForm.name;
                                          rec_data := ∅ |}]> (storage w);
             db := db w; fs := fs w;
             effects := effects w ++ [answer_sent (chat_id message) greeting] |}).
Proof. unfold on_start. unfold_handler. storage_simpl. reflexivity. Qed.

Lemma on_cancel_spec message state e w :
  on_cancel message state e w =
  (Ok tt, {| storage := <[key state := empty_record]> (storage w);
             db := db w; fs := fs w;
             effects := effects w ++ [answer_sent (chat_id message) cancelled] |}).
Proof. unfold on_cancel. unfold_handler. storage_simpl. reflexivity. Qed.

Lemma on_help_spec message e w :
  on_help message e w =
  (Ok tt, emitting [answer_sent (chat_id message) help_text] w).
Proof. reflexivity. Qed.

Lemma on_name_reject message state e w :
  strip (text_or_empty message) = [] ->
  on_name message state e w =
  (Ok tt, emitting [answer_sent (chat_id message) name_prompt_again] w).
Proof. intros H. unfold on_name. rewrite H. reflexivity. Qed.

Lemma on_name_accept message state e w :
  strip (text_or_empty message) <> [] ->
  on_name message state e w =
  (Ok tt, {| storage :=
               <[key state :=
                   {| rec_state := Some StudentForm.age;
                      rec_data := <["name" := VStr (strip (text_or_empty message))]>
                                    (rec_data (record_of (storage w) (key state))) |}]>
                 (storage w);
             db := db w; fs := fs w;
             effects := effects w ++ [answer_sent (chat_id message) age_prompt] |}).
Proof.
  intros H%not_false_iff. unfold on_name. rewrite H.
  unfold_handler. storage_simpl. reflexivity.
Qed.

Lemma on_age_reject message state e w :
  parse_age (text_or_empty message) = Ok None ->
  on_age message state e w =
  (Ok tt, emitting [answer_sent (chat_id message) age_prompt_again] w).
Proof. intros H. unfold on_age. unfold_handler. rewrite H. reflexivity. Qed.

Lemma on_age_accept message state e w age :
  parse_age (text_or_empty message) = Ok (Some age) ->
  on_age message state e w =
  (Ok tt, {| storage :=
               <[key state :=
                   {| rec_state := Some StudentForm.grade;
                      rec_data := <["age" := VInt age]>
                                    (rec_data (record_of (storage w) (key state))) |}]>
                 (storage w);
             db := db w; fs := fs w;
             effects := effects w ++ [answer_sent (chat_id message) grade_prompt] |}).
Proof.
  intros H. unfold on_age. unfold_handler. rewrite H.
  storage_simpl. reflexivity.
Qed.

Lemma on_grade_reject message state e w :
  strip (text_or_empty message) = [] ->
  on_grade message state e w =
  (Ok tt, emitting [answer_sent (chat_id message) grade_prompt_again] w).
Proof. intros H. unfold on_grade. rewrite H. reflexivity. Qed.

Lemma on_grade_invalid message state e w :
  strip (text_or_empty message) <> [] ->
  name_is_text (rec_data (record_of (storage w) (key state))) ->
  final_check (rec_data (record_of (storage w) (key state))) = None ->
  on_grade message state e w =
  (Ok tt, {| storage := <[key state := empty_record]> (storage w);
             db := db w; fs := fs w;
             effects := effects w ++ [answer_sent (chat_id message) data_invalid] |}).
Proof.
  intros H%not_false_iff Htext Hcheck. unfold on_grade. rewrite H.
  unfold final_check in Hcheck. unfold_handler. unfold strip_value.
  destruct (rec_data (record_of (storage w) (key state)) !! "name") as [[s|n]|] eqn:Hn;
    cbn [default from_option id] in *.
  - unfold_handler.
    destruct (not_ (strip s)).
    + unfold_handler. storage_simpl. reflexivity.
    + destruct (as_int _); [discriminate|].
      unfold_handler. storage_simpl. reflexivity.
  - now destruct (Htext n).
  - unfold_handler. rewrite strip_nil. cbn [not_].
    unfold_handler. storage_simpl. reflexivity.
Qed.

Lemma online_opens e : db_online e = true -> db_opens e = true.
Proof. unfold db_online, db_opens. now destruct (db_is e). Qed.

Lemma closed_offline e : db_opens e = false -> db_online e = false.
Proof. unfold db_online, db_opens. now destruct (db_is e). Qed.

Lemma fits_int64_range n : fits_int64 n = true <-> - 2 ^ 63 <= n < 2 ^ 63.
Proof. unfold fits_int64. rewrite andb_true_iff, Z.leb_le, Z.ltb_lt. reflexivity. Qed.

Lemma age_fits_int64 age : 1 <= age <= 120 -> fits_int64 age = true.
Proof. intros H. apply fits_int64_range. lia. Qed.

Lemma on_grade_saved message state e w name age :
  strip (text_or_empty message) <> [] ->
  final_check (rec_data (record_of (storage w) (key state))) = Some (name, age) ->
  db_online e = true -> fits_int64 age = true ->
  let grade := strip (text_or_empty message) in
  let id := next_rowid (db w) in
  on_grade message state e w =
  (Ok tt, {| storage := <[key state := empty_record]> (storage w);
             db := {| students := students (db w) ++ [(id, strip name, age, strip grade)];
                      sqlite_sequence := id |};
             fs := fs w;
             effects := effects w ++
               [db_opened true;
                answer_sent (chat_id message) (saved_message id name age grade)] |}).
Proof.
  intros H%not_false_iff Hcheck Hon Hfit. unfold on_grade. rewrite H.
  unfold final_check in Hcheck. unfold_handler. unfold strip_value.
  destruct (default (VStr []) _) as [s|n]; [|discriminate].
  unfold_handler.
  destruct (not_ (strip s)); [discriminate|].
  destruct (as_int _) as [a|]; [|discriminate].
  injection Hcheck as <- <-.
  unfold_handler. rewrite (online_opens e Hon), Hon. cbn [forallb]. rewrite Hfit.
  cbn [andb]. unfold insert_student. storage_simpl.
  rewrite <- app_assoc. reflexivity.
Qed.

Lemma on_grade_failed message state e w name age :
  strip (text_or_empty message) <> [] ->
  final_check (rec_data (record_of (storage w) (key state))) = Some (name, age) ->
  db_online e = false ->
  on_grade message state e w =
  (Ok tt, {| storage := <[key state := empty_record]> (storage w);
             db := db w; fs := fs w;
             effects := effects w ++
               [db_opened (db_opens e);
                logged_exception save_failed_log;
                answer_sent (chat_id message) db_failure] |}).
Proof.
  intros H%not_false_iff Hcheck Hon. unfold on_grade. rewrite H.
  unfold final_check in Hcheck. unfold_handler. unfold strip_value.
  destruct (default (VStr []) _) as [s|n]; [|discriminate].
  unfold_handler.
  destruct (not_ (strip s)); [discriminate|].
  destruct (as_int _) as [a|]; [|discriminate].
  unfold_handler. rewrite Hon.
  destruct (db_opens e); unfold is_sqlite3_Error; storage_simpl;
    rewrite <- !app_assoc; reflexivity.
Qed.

(** An age that SQLite cannot hold: [OverflowError] is not caught, the
    session is cleared on the way out. *)
Lemma on_grade_overflow message state e w name age :
  strip (text_or_empty message) <> [] ->
  final_check (rec_data (record_of (storage w) (key state))) = Some (name, age) ->
  db_online e = true -> fits_int64 age = false ->
  on_grade message state e w =
  (Raise OverflowError,
   {| storage := <[key state := empty_record]> (storage w);
      db := db w; fs := fs w;
      effects := effects w ++ [db_opened true] |}).
Proof.
  intros H%not_false_iff Hcheck Hon Hfit. unfold on_grade. rewrite H.
  unfold final_check in Hcheck. unfold_handler. unfold strip_value.
  destruct (default (VStr []) _) as [s|n]; [|discriminate].
  unfold_handler.
  destruct (not_ (strip s)); [discriminate|].
  destruct (as_int _) as [a|]; [|discriminate].
  injection Hcheck as <- <-.
  unfold_handler. rewrite (online_opens e Hon), Hon. cbn [forallb]. rewrite Hfit.
  cbn [andb]. unfold is_sqlite3_Error. storage_simpl. reflexivity.
Qed.

(** ** The export, step by step *)

Lemma for_each_write p (g : row -> str) rows : forall e w t,
  files (fs w) !! p = Some t ->
  for_each rows (fun r => f_write p (g r)) e w =
  (Ok tt, with_fs {| dirs := dirs (fs w);
                     files := <[p := t ++ concat (map g rows)]> (files (fs w)) |} w).
Proof.
  induction rows as [|r rows IH]; intros e w t Hp.
  - simpl. unfold ret, with_fs. rewrite app_nil_r, (insert_id _ _ _ Hp).
    destruct w as [? ? [? ?] ?]; reflexivity.
  - simpl. unfold bind at 1. unfold f_write at 1. unfold file_text. rewrite Hp.
    cbn [default from_option id].
    rewrite (IH e _ (t ++ g r)).
    + unfold with_fs. cbn [storage db fs effects dirs files].
      rewrite insert_insert_eq, <- app_assoc. reflexivity.
    + unfold with_fs. cbn [fs files]. apply lookup_insert_eq.
Qed.

Lemma export_students_csv_offline e w :
  db_opens e = false ->
  export_students_csv e w = (Raise sqlite3_Error, emitting [db_opened false] w).
Proof.
  intros H. unfold export_students_csv, datetime_now, sqlite3_connect, bind.
  rewrite H. reflexivity.
Qed.

Lemma export_students_csv_no_file e w :
  db_opens e = true ->
  EXPORTS_DIR ∉ dirs (fs w) \/ export_path (now e) ∈ dirs (fs w) ->
  export_students_csv e w = (Raise OSError, emitting [db_opened true] w).
Proof.
  intros H Hfs. unfold export_students_csv, datetime_now, sqlite3_connect, bind.
  rewrite H. unfold open_w. cbn [emitting fs].
  rewrite removelast_last.
  fold (export_path (now e)).
  destruct (decide _) as [Hd|Hd]; [|reflexivity].
  destruct (decide _) as [Hp|Hp]; [reflexivity|].
  destruct Hfs as [Hfs|Hfs]; [now destruct Hfs | now destruct Hp].
Qed.

(** The file is opened before the rows are read: when the statement is
    refused, the file is there already, and empty. *)
Lemma export_students_csv_no_table e w :
  db_opens e = true -> db_online e = false ->
  EXPORTS_DIR ∈ dirs (fs w) ->
  export_path (now e) ∉ dirs (fs w) ->
  export_students_csv e w =
  (Raise sqlite3_Error,
   {| storage := storage w; db := db w;
      fs := {| dirs := dirs (fs w);
               files := <[export_path (now e) := []]> (files (fs w)) |};
      effects := effects w ++ [db_opened true] |}).
Proof.
  intros H Hoff Hd Hp.
  unfold export_students_csv, datetime_now, sqlite3_connect.
  unfold bind at 1 2. rewrite H.
  unfold bind at 1. unfold open_w. cbn [emitting fs].
  rewrite removelast_last.
  fold (export_path (now e)).
  destruct (decide _) as [_|Hd']; [|now destruct Hd'].
  destruct (decide _) as [Hp'|_]; [now destruct Hp|].
  unfold bind at 1. unfold execute at 1. rewrite Hoff. reflexivity.
Qed.

Lemma export_students_csv_ok e w :
  db_online e = true ->
  EXPORTS_DIR ∈ dirs (fs w) ->
  export_path (now e) ∉ dirs (fs w) ->
  export_students_csv e w =
  (Ok (export_path (now e)),
   {| storage := storage w; db := db w;
      fs := {| dirs := dirs (fs w);
               files := <[export_path (now e) :=
                            csv_text (order_by_id_asc (students (db w)))]>
                          (files (fs w)) |};
      effects := effects w ++ [db_opened true] |}).
Proof.
  intros H Hd Hp.
  unfold export_students_csv, datetime_now, sqlite3_connect.
  unfold bind at 1 2. rewrite (online_opens e H).
  unfold bind at 1. unfold open_w. cbn [emitting fs].
  rewrite removelast_last.
  fold (export_path (now e)).
  destruct (decide _) as [_|Hd']; [|now destruct Hd'].
  destruct (decide _) as [Hp'|_]; [now destruct Hp|].
  unfold bind at 1. unfold execute at 1. rewrite H. cbn [forallb fst snd].
  unfold bind at 1. unfold f_write at 1. unfold file_text.
  cbn [with_fs with_db fs files storage db effects dirs].
  rewrite lookup_insert_eq. cbn [default from_option id app].
  unfold bind.
  rewrite (for_each_write _ (fun r => csv_line r ++ nl) _ _ _ (csv_header ++ nl)).
  - unfold ret, with_fs, with_db. cbn [storage db fs effects dirs files].
    rewrite !insert_insert_eq. unfold csv_text, csv_rows.
    rewrite <- app_assoc. reflexivity.
  - unfold with_fs, with_db. cbn [fs files]. apply lookup_insert_eq.
Qed.

Lemma on_students_spec message e w :
  on_students message e w =
  if db_online e then
    (Ok tt, emitting [db_opened true;
                      answer_sent (chat_id message)
                        (students_reply (sql_limit 10 (order_by_id_desc (students (db w)))))] w)
  else (Raise sqlite3_Error, emitting [db_opened (db_opens e)] w).
Proof.
  unfold on_students, list_students. unfold_handler.
  unfold db_online, db_opens. destruct (db_is e); try reflexivity.
  change (forallb fits_int64 [10]) with true. cbv iota.
  destruct w as [st d f xs]. cbn [storage db fs effects].
  destruct d as [rows sq]. cbn [students].
  unfold students_reply.
  destruct (sql_limit 10 (order_by_id_desc rows)); unfold_handler;
    rewrite <- app_assoc; reflexivity.
Qed.

(** ** The command filter *)

Lemma command_name_inj c c2 : command_name c = command_name c2 -> c = c2.
Proof. destruct c, c2; intros H; try reflexivity; vm_compute in H; discriminate. Qed.

(** A message passes the filter of one command at most. *)
Lemma commanded_unique e message c c2 :
  commanded e message c = true -> commanded e message c2 = true -> c = c2.
Proof.
  unfold commanded.
  destruct (text_or_caption message) as [t|]; try discriminate.
  destruct (not_ t); try discriminate.
  destruct (extract_command t) as [[[p name] mention]|]; try discriminate.
  intros [_ H1%bool_decide_eq_true]%andb_prop [_ H2%bool_decide_eq_true]%andb_prop.
  apply command_name_inj. congruence.
Qed.

Lemma commanded_other e message c c2 :
  commanded e message c = true -> c2 <> c -> commanded e message c2 = false.
Proof.
  intros H Hne. destruct (commanded e message c2) eqn:H2; [|reflexivity].
  destruct Hne. now apply (commanded_unique e message).
Qed.

(** A message whose text is exactly a command passes the filter of that
    command, and of no other. *)
Lemma commanded_body e message c c2 :
  body message = Command c -> commanded e message c2 = bool_decide (c2 = c).
Proof.
  intros Hb. unfold commanded, text_or_caption, text. rewrite Hb.
  destruct c, c2; reflexivity.
Qed.

Lemma commanded_command e message c :
  body message = Command c -> commanded e message c = true.
Proof. intros Hb. rewrite (commanded_body e message c c Hb). now apply bool_decide_eq_true. Qed.

(** A message without text and without caption is no command. *)
Lemma commanded_nothing e message c :
  body message = Plain None -> commanded e message c = false.
Proof. intros Hb. unfold commanded, text_or_caption, text, caption. now rewrite Hb. Qed.

(** The word a command is read from starts with the prefix. *)
Lemma commanded_slash e message c :
  commanded e message c = true ->
  exists t rest, text_or_caption message = Some t /\ lstrip t = slash :: rest.
Proof.
  unfold commanded.
  destruct (text_or_caption message) as [t|]; try discriminate.
  destruct (not_ t); try discriminate.
  unfold extract_command, first_word.
  destruct (lstrip t) as [|x r] eqn:Hl; [discriminate|].
  pose proof (lstrip_head _ _ _ Hl) as Hx. cbn [not_ word]. rewrite Hx.
  destruct (partition_at (word r)) as [name mention].
  intros [[Hp%N.eqb_eq _]%andb_prop _]%andb_prop. subst x.
  now exists t, r.
Qed.

(** A text that does not start, whitespace apart, with the prefix is no
    command: it goes to the handler of the state. *)
Lemma plain_reaches_states e chat user (t : str) :
  (forall rest, lstrip t <> slash :: rest) ->
  reaches_states e {| chat_id := chat; user_id := user; body := Plain (Some t) |}.
Proof.
  intros Ht.
  assert (H : forall c, commanded e {| chat_id := chat; user_id := user;
                                       body := Plain (Some t) |} c = false).
  { intros c. destruct (commanded e _ c) eqn:Hc; [|reflexivity].
    apply commanded_slash in Hc as (t2 & rest & Ht2 & Hl).
    unfold text_or_caption, text, caption in Ht2. cbn [body] in Ht2.
    destruct (not_ t); [discriminate|]. injection Ht2 as <-.
    now destruct (Ht rest). }
  repeat split; apply H.
Qed.

Lemma command_reaches_states e message c :
  body message = Command c -> c = Students \/ c = ExportCsv ->
  reaches_states e message.
Proof.
  intros Hb Hc. unfold reaches_states. rewrite !(commanded_body e message c _ Hb).
  destruct Hc; subst c; repeat split.
Qed.

(** ** Routing *)

Lemma resolve_start e message w :
  commanded e message Start = true -> resolve e message w = Some on_start.
Proof. intros H. unfold resolve, router, is_command. simpl. now rewrite H. Qed.

Lemma resolve_help e message w :
  commanded e message Help = true ->
  resolve e message w = Some (fun message _ => on_help message).
Proof.
  intros H. unfold resolve, router, is_command. simpl.
  now rewrite (commanded_other e message Help Start H), H.
Qed.

Lemma resolve_cancel e message w :
  commanded e message Cancel = true -> resolve e message w = Some on_cancel.
Proof.
  intros H. unfold resolve, router, is_command. simpl.
  now rewrite (commanded_other e message Cancel Start H),
    (commanded_other e message Cancel Help H), H.
Qed.

Lemma resolve_students_idle e message w :
  commanded e message Students = true ->
  state_of w (key (context_of message)) = None ->
  resolve e message w = Some (fun message _ => on_students message).
Proof.
  intros Hb Hs. unfold resolve. rewrite Hs.
  unfold router, is_command, in_state. simpl.
  now rewrite (commanded_other e message Students Start Hb),
    (commanded_other e message Students Help Hb),
    (commanded_other e message Students Cancel Hb), Hb.
Qed.

Lemma resolve_export_idle e message w :
  commanded e message ExportCsv = true ->
  state_of w (key (context_of message)) = None ->
  resolve e message w = Some (fun message _ => on_export_csv message).
Proof.
  intros Hb Hs. unfold resolve. rewrite Hs.
  unfold router, is_command, in_state. simpl.
  now rewrite (commanded_other e message ExportCsv Start Hb),
    (commanded_other e message ExportCsv Help Hb),
    (commanded_other e message ExportCsv Cancel Hb),
    (commanded_other e message ExportCsv Students Hb), Hb.
Qed.

Lemma resolve_state e message w s :
  reaches_states e message ->
  state_of w (key (context_of message)) = Some s ->
  resolve e message w =
  Some match s with
       | StudentForm.name => on_name
       | StudentForm.age => on_age
       | StudentForm.grade => on_grade
       end.
Proof.
  intros (H1 & H2 & H3) Hs. unfold resolve. rewrite Hs.
  unfold router, is_command, in_state. simpl. rewrite H1, H2, H3.
  destruct s; reflexivity.
Qed.

Lemma resolve_unheard_idle e message w :
  reaches_states e message ->
  commanded e message Students = false ->
  commanded e message ExportCsv = false ->
  state_of w (key (context_of message)) = None ->
  resolve e message w = None.
Proof.
  intros (H1 & H2 & H3) H4 H5 Hs. unfold resolve. rewrite Hs.
  unfold router, is_command, in_state. simpl. now rewrite H1, H2, H3, H4, H5.
Qed.

(** ** The answers are told apart by their first characters *)

Lemma students_reply_not_invalid rows : students_reply rows <> data_invalid.
Proof.
  destruct rows as [|r rs]; intros H.
  - vm_compute in H. discriminate.
  - apply (f_equal (hd 0%N)) in H. revert H.
    unfold students_reply. cbn [join map].
    assert (Ht : exists t, list_title = 1055%N :: t) by (eexists; vm_compute; reflexivity).
    destruct Ht as (t & ->). vm_compute. discriminate.
Qed.

Ltac not_data_invalid Hin :=
  repeat (apply elem_of_cons in Hin as [Hin|Hin];
          [try discriminate; injection Hin as _ Hin; vm_compute in Hin; discriminate|]);
  now apply elem_of_nil in Hin.

Lemma bad_directory_cases e w :
  ~ (EXPORTS_DIR ∈ dirs (fs w) /\ export_path (now e) ∉ dirs (fs w)) ->
  EXPORTS_DIR ∉ dirs (fs w) \/ export_path (now e) ∈ dirs (fs w).
Proof.
  intros Hno.
  destruct (decide (EXPORTS_DIR ∈ dirs (fs w))) as [Hd|Hd]; [|now left].
  destruct (decide (export_path (now e) ∈ dirs (fs w))) as [Hp|Hp]; [now right|].
  destruct Hno. now split.
Qed.

Lemma on_export_csv_spec message e w :
  exists f xs,
    on_export_csv message e w =
    (Ok tt, {| storage := storage w; db := db w; fs := f;
               effects := effects w ++ xs |})
    /\ forall c, answer_sent c data_invalid ∉ xs.
Proof.
  unfold on_export_csv, try_except, bind at 1.
  destruct (db_opens e) eqn:Hopen.
  - destruct (decide (EXPORTS_DIR ∈ dirs (fs w) /\ export_path (now e) ∉ dirs (fs w)))
      as [[Hd Hp]|Hno].
    + destruct (db_online e) eqn:Hon.
      * rewrite (export_students_csv_ok e w Hon Hd Hp).
        eexists _, [db_opened true; document_sent (chat_id message) _ export_caption].
        split.
        -- unfold answer_document, emit, emitting. cbn [storage db fs effects].
           rewrite <- app_assoc. reflexivity.
        -- intros c Hin. repeat (apply elem_of_cons in Hin as [Hin|Hin]; [discriminate|]).
           now apply elem_of_nil in Hin.
      * rewrite (export_students_csv_no_table e w Hopen Hon Hd Hp).
        eexists _, [db_opened true; logged_exception export_failed_log;
                    answer_sent (chat_id message) export_failed].
        split.
        -- unfold is_Exception. unfold_handler. rewrite <- !app_assoc. reflexivity.
        -- intros c Hin. not_data_invalid Hin.
    + rewrite (export_students_csv_no_file e w Hopen (bad_directory_cases e w Hno)).
      exists (fs w), [db_opened true; logged_exception export_failed_log;
                      answer_sent (chat_id message) export_failed].
      split.
      * unfold is_Exception. unfold_handler. rewrite <- !app_assoc. reflexivity.
      * intros c Hin. not_data_invalid Hin.
  - rewrite (export_students_csv_offline e w Hopen).
    exists (fs w), [db_opened false; logged_exception export_failed_log;
                    answer_sent (chat_id message) export_failed].
    split.
    + unfold is_Exception. unfold_handler. rewrite <- !app_assoc. reflexivity.
    + intros c Hin. not_data_invalid Hin.
Qed.

(** ** One update is one row of the transition table *)

Lemma PyLong_FromString_error (s : str) x :
  PyLong_FromString s = Raise x -> x = ValueError.
Proof.
  unfold PyLong_FromString. intros H.
  repeat case_match; congruence.
Qed.

Lemma parse_age_total (t : str) : exists r, parse_age t = Ok r.
Proof.
  unfold parse_age, py_int.
  destruct (PyLong_FromString _) as [n|x] eqn:H; [eexists; reflexivity|].
  apply PyLong_FromString_error in H as ->. eexists; reflexivity.
Qed.

Lemma on_grade_not_text message state e w n :
  strip (text_or_empty message) <> [] ->
  rec_data (record_of (storage w) (key state)) !! "name" = Some (VInt n) ->
  on_grade message state e w = (Raise AttributeError, w).
Proof.
  intros H%not_false_iff Hn. unfold on_grade. rewrite H.
  unfold_handler. rewrite Hn. reflexivity.
Qed.

Lemma final_check_is_text data name age :
  final_check data = Some (name, age) -> name_is_text data.
Proof.
  unfold final_check, name_is_text. intros H n Hn. rewrite Hn in H. discriminate.
Qed.

Theorem feed_update_step e message w : step e message w (feed_update e message w).
Proof.
  unfold feed_update.
  destruct (commanded e message Start) eqn:H1.
  { rewrite (resolve_start _ _ _ H1), on_start_spec. now apply step_start. }
  destruct (commanded e message Help) eqn:H2.
  { rewrite (resolve_help _ _ _ H2). cbv beta. rewrite on_help_spec. now apply step_help. }
  destruct (commanded e message Cancel) eqn:H3.
  { rewrite (resolve_cancel _ _ _ H3), on_cancel_spec. now apply step_cancel. }
  assert (Hr : reaches_states e message) by (repeat split; assumption).
  destruct (state_of w (key (context_of message))) as [s|] eqn:Hs.
  - rewrite (resolve_state _ _ _ s Hr Hs). unfold state_of in Hs. destruct s.
    + destruct (decide (strip (text_or_empty message) = [])) as [Hn|Hn].
      * rewrite (on_name_reject _ _ _ _ Hn). now apply step_name_again.
      * rewrite (on_name_accept _ _ _ _ Hn). now apply step_name.
    + destruct (parse_age_total (text_or_empty message)) as [[a|] Ha].
      * rewrite (on_age_accept _ _ _ _ _ Ha). now apply step_age.
      * rewrite (on_age_reject _ _ _ _ Ha). now apply step_age_again.
    + destruct (decide (strip (text_or_empty message) = [])) as [Hn|Hn].
      { rewrite (on_grade_reject _ _ _ _ Hn). now apply step_grade_again. }
      destruct (final_check (rec_data (record_of (storage w) (key (context_of message)))))
        as [[name age]|] eqn:Hc.
      * destruct (db_online e) eqn:Hon.
        -- destruct (fits_int64 age) eqn:Hfit.
           ++ rewrite (on_grade_saved _ _ _ _ _ _ Hn Hc Hon Hfit).
              now apply (step_grade_saved _ _ _ name age).
           ++ rewrite (on_grade_overflow _ _ _ _ _ _ Hn Hc Hon Hfit).
              now apply (step_grade_overflow _ _ _ name age).
        -- rewrite (on_grade_failed _ _ _ _ _ _ Hn Hc Hon). now apply (step_grade_failed _ _ _ name age).
      * destruct (rec_data (record_of (storage w) (key (context_of message))) !! "name")
          as [[s|n]|] eqn:Hname.
        -- rewrite on_grade_invalid; [now apply step_grade_invalid; [..|intros n; congruence|]
                                     |assumption|intros n; congruence|assumption].
        -- rewrite (on_grade_not_text _ _ _ _ n Hn Hname). now apply (step_grade_not_text _ _ _ n).
        -- rewrite on_grade_invalid; [now apply step_grade_invalid; [..|intros n; congruence|]
                                     |assumption|intros n; congruence|assumption].
  - unfold state_of in Hs.
    destruct (commanded e message Students) eqn:H4.
    { rewrite (resolve_students_idle _ _ _ H4 Hs). cbv beta. rewrite on_students_spec.
      destruct (db_online e).
      * apply step_read; [assumption|assumption|now left|].
        intros c Hin. apply elem_of_cons in Hin as [Hin|Hin]; [discriminate|].
        apply elem_of_cons in Hin as [Hin|Hin]; [|now apply elem_of_nil in Hin].
        injection Hin as _ Hin. symmetry in Hin. now apply students_reply_not_invalid in Hin.
      * apply step_read; [assumption|assumption|now left|].
        intros c Hin. apply elem_of_cons in Hin as [Hin|Hin]; [discriminate|].
        now apply elem_of_nil in Hin. }
    destruct (commanded e message ExportCsv) eqn:H5.
    { rewrite (resolve_export_idle _ _ _ H5 Hs). cbv beta.
      destruct (on_export_csv_spec message e w) as (f & xs & -> & Hxs).
      apply step_read; [assumption|assumption|now right|assumption]. }
    rewrite (resolve_unheard_idle _ _ _ Hr H4 H5 Hs). now apply step_unhandled.
Qed.

(** ** Consequences of the table *)

Ltac by_table H :=
  destruct H;
  repeat match goal with
         | Hr : reaches_states _ _ |- _ => destruct Hr as (? & ? & ?)
         | Hr : _ \/ _ |- _ => destruct Hr
         | Hr : final_check _ = Some _ |- _ =>
             pose proof (final_check_is_text _ _ _ Hr); revert Hr
         end;
  intros.

(** What the filters registered first say, from what is known of the message. *)
Ltac decide_filters :=
  repeat match goal with
         | Hc : commanded ?e ?m ?c = true |- context [commanded ?e ?m ?c2] =>
             first [ rewrite Hc
                   | rewrite (commanded_other e m c c2 Hc) by discriminate ]
         | Hc : commanded ?e ?m ?c = false |- context [commanded ?e ?m ?c] =>
             rewrite Hc
         end;
  cbn [orb].

Lemma step_frame e message w w' k :
  step e message w w' -> k <> sender message ->
  record_of (storage w') k = record_of (storage w) k.
Proof.
  intros H Hk. unfold sender in Hk.
  by_table H; unfold put, emitting; cbn [storage]; try reflexivity;
    now rewrite record_of_insert_ne.
Qed.

Lemma step_session e message w w' :
  step e message w w' ->
  record_of (storage w') (sender message)
  = session_after e message (record_of (storage w) (sender message)).
Proof.
  intros H. unfold sender, session_after.
  by_table H; unfold put, emitting; cbn [storage];
    rewrite ?record_of_insert_eq; decide_filters;
    repeat match goal with
           | Hs : rec_state _ = _ |- _ => rewrite Hs
           | Hs : strip _ = [] |- _ => rewrite Hs
           | Hs : strip _ <> [] |- _ => apply not_false_iff in Hs; rewrite Hs
           | Hs : parse_age _ = _ |- _ => rewrite Hs
           | Hs : rec_data _ !! "name" = _ |- _ => rewrite Hs
           end;
    try reflexivity.
  all: destruct (rec_data _ !! "name") as [[s|n]|] eqn:Hn; try reflexivity.
  all: match goal with Ht : name_is_text _ |- _ => now destruct (Ht n) end.
Qed.

Lemma step_rows e message w w' :
  step e message w w' ->
  exists rows,
    students (db w') = students (db w) ++ rows
    /\ map fields rows = persisted e message (record_of (storage w) (sender message)).
Proof.
  intros H. unfold sender, persisted.
  by_table H; unfold put, emitting; cbn [db students].
  all: try (exists []; split; [now rewrite app_nil_r|]).
  all: try (eexists; split; [reflexivity|]).
  all: decide_filters;
    repeat match goal with
           | Hs : rec_state _ = _ |- _ => rewrite Hs
           | Hs : strip _ = [] |- _ => rewrite Hs
           | Hs : strip _ <> [] |- _ => apply not_false_iff in Hs; rewrite Hs
           | Hs : final_check _ = _ |- _ => rewrite Hs
           | Hs : db_online _ = _ |- _ => rewrite Hs
           | Hs : fits_int64 _ = _ |- _ => rewrite Hs
           end;
    try reflexivity.
  all: unfold final_check;
    match goal with Hn : _ !! "name" = Some (VInt _) |- _ => now rewrite Hn end.
Qed.

(** The sender's record before decides the effects on its own dialogue;
    every other dialogue is left as it was. *)
Lemma feed_update_session e message w :
  record_of (storage (feed_update e message w)) (sender message)
  = session_after e message (record_of (storage w) (sender message)).
Proof. apply step_session, feed_update_step. Qed.

Lemma feed_update_frame e message w k :
  k <> sender message ->
  record_of (storage (feed_update e message w)) k = record_of (storage w) k.
Proof. intros H. apply (step_frame e message w _ k (feed_update_step e message w) H). Qed.

Lemma feed_update_rows e message w :
  exists rows,
    students (db (feed_update e message w)) = students (db w) ++ rows
    /\ map fields rows = persisted e message (record_of (storage w) (sender message)).
Proof. apply step_rows, feed_update_step. Qed.

Lemma run_cons u us w : run (u :: us) w = run us (feed_update (fst u) (snd u) w).
Proof. reflexivity. Qed.

Lemma run_rows us : forall w,
  exists rows, students (db (run us w)) = students (db w) ++ rows.
Proof.
  induction us as [|u us IH]; intros w.
  - exists []. simpl. now rewrite app_nil_r.
  - rewrite run_cons.
    destruct (IH (feed_update (fst u) (snd u) w)) as (rows2 & ->).
    destruct (feed_update_rows (fst u) (snd u) w) as (rows & -> & _).
    exists (rows ++ rows2). now rewrite app_assoc.
Qed.

Lemma new_rows_app w w2 rows :
  students (db w2) = students (db w) ++ rows -> new_rows w w2 = rows.
Proof. intros H. unfold new_rows. rewrite H. apply drop_app_length. Qed.

Lemma new_rows_cons u us w :
  new_rows w (run (u :: us) w)
  = new_rows w (feed_update (fst u) (snd u) w)
    ++ new_rows (feed_update (fst u) (snd u) w) (run (u :: us) w).
Proof.
  rewrite run_cons.
  destruct (run_rows us (feed_update (fst u) (snd u) w)) as (rows2 & H2).
  destruct (feed_update_rows (fst u) (snd u) w) as (rows & H & _).
  rewrite (new_rows_app _ _ _ H), (new_rows_app _ _ _ H2).
  apply new_rows_app. now rewrite H2, H, app_assoc.
Qed.

(** The record of a dialogue after a run is the one it reaches on its own. *)
Lemma run_session k us : forall w,
  record_of (storage (run us w)) k = fst (solo k us (record_of (storage w) k)).
Proof.
  induction us as [|u us IH]; intros w; [reflexivity|].
  rewrite run_cons, IH. cbn [solo]. unfold from.
  destruct (bool_decide_reflect (sender (snd u) = k)) as [<-|Hk].
  - rewrite feed_update_session.
    now destruct (solo _ us _).
  - rewrite feed_update_frame by congruence. reflexivity.
Qed.

Lemma solo_filter k us : forall r, solo k (filter (from k) us) r = solo k us r.
Proof.
  induction us as [|u us IH]; intros r; [reflexivity|].
  rewrite filter_cons. cbn [solo].
  destruct (decide (from k u)) as [Hu|Hu].
  - apply Is_true_true in Hu. cbn [solo]. rewrite Hu, IH. reflexivity.
  - apply Is_true_false in Hu. rewrite Hu. apply IH.
Qed.

(** When every update of a run comes from one dialogue, what the run adds
    to the table is what that dialogue adds. *)
Lemma run_alone k us : forall w,
  Forall (fun u => from k u = true) us ->
  map fields (new_rows w (run us w)) = snd (solo k us (record_of (storage w) k)).
Proof.
  induction us as [|u us IH]; intros w Hall.
  - simpl. unfold new_rows. now rewrite drop_all.
  - inversion Hall as [|? ? Hu Hus]; subst.
    rewrite new_rows_cons, map_app, run_cons, (IH _ Hus).
    cbn [solo]. rewrite Hu.
    unfold from in Hu. apply bool_decide_eq_true in Hu. subst k.
    destruct (feed_update_rows (fst u) (snd u) w) as (rows & H & Hf).
    rewrite (new_rows_app _ _ _ H), Hf, feed_update_session.
    now destruct (solo _ us _).
Qed.

(** ** The age that is accepted *)

Lemma parse_age_some (t : str) age :
  parse_age t = Ok (Some age) <-> py_int (strip t) = Ok age /\ 1 <= age <= 120.
Proof.
  unfold parse_age. split.
  - destruct (py_int (strip t)) as [n|x]; [|destruct x; discriminate].
    destruct ((1 <=? n) && (n <=? 120)) eqn:Hr; [|discriminate].
    intros [= <-]. apply andb_prop in Hr as [H1 H2]. split; [reflexivity|lia].
  - intros [-> Hr].
    replace ((1 <=? age) && (age <=? 120)) with true; [reflexivity|].
    symmetry. apply andb_true_intro. split; lia.
Qed.

(** ** What the records hold *)

Lemma final_check_consistent r :
  consistent r -> rec_state r = Some StudentForm.grade ->
  exists name age,
    rec_data r !! "name" = Some (VStr name) /\ rec_data r !! "age" = Some (VInt age)
    /\ name <> [] /\ strip name = name /\ 1 <= age <= 120
    /\ final_check (rec_data r) = Some (name, age).
Proof.
  unfold consistent. intros Hc Hs. rewrite Hs in Hc.
  destruct Hc as (name & age & Hd & Hn & Hstrip & Hage).
  exists name, age.
  assert (H1 : rec_data r !! "name" = Some (VStr name)).
  { rewrite Hd, lookup_insert_ne by discriminate. apply lookup_singleton_eq. }
  assert (H2 : rec_data r !! "age" = Some (VInt age)).
  { rewrite Hd. apply lookup_insert_eq. }
  repeat split; try assumption; try lia.
  unfold final_check. rewrite H1, H2. cbn [default from_option id as_int].
  rewrite Hstrip. apply not_false_iff in Hn. now rewrite Hn.
Qed.

Lemma session_after_consistent e message r :
  consistent r -> consistent (session_after e message r).
Proof.
  intros Hc. unfold session_after.
  assert (Hstart : consistent {| rec_state := Some StudentForm.name; rec_data := ∅ |})
    by reflexivity.
  assert (Hnone : consistent empty_record) by reflexivity.
  destruct (commanded e message Start); [assumption|].
  destruct (commanded e message Help); [assumption|].
  destruct (commanded e message Cancel); [assumption|].
  destruct (rec_state r) as [[]|] eqn:Hs; try assumption.
  all: try (destruct (not_ (strip (text_or_empty message))) eqn:Hn; [assumption|]).
  all: try (destruct (rec_data r !! "name") as [[]|]; assumption).
  all: try (destruct (parse_age (text_or_empty message)) as [[age|]|] eqn:Ha; try assumption).
  all: unfold consistent in *; rewrite Hs in Hc; cbn [rec_state rec_data].
  all: try (rewrite Hc, insert_empty; eexists; split; [reflexivity|];
            split; [now apply not_false_iff|apply strip_idemp]).
  all: destruct Hc as (name & -> & Hname & Hstrip);
    apply parse_age_some in Ha as [_ Ha];
    exists name, age; repeat split; try assumption; lia.
Qed.

Lemma reachable_consistent w :
  reachable w -> forall k, consistent (record_of (storage w) k).
Proof.
  induction 1 as [d f|e message w Hw IH]; intros k.
  - cbn [storage]. rewrite record_of_empty. reflexivity.
  - destruct (decide (k = sender message)) as [->|Hk].
    + rewrite feed_update_session. apply session_after_consistent, IH.
    + rewrite feed_update_frame by assumption. apply IH.
Qed.

(** The answer of the data-invalid branch is never among the effects. *)
Lemma step_never_invalid e message w w2 c :
  step e message w w2 ->
  consistent (record_of (storage w) (key (context_of message))) ->
  answer_sent c data_invalid ∉ effects w ->
  answer_sent c data_invalid ∉ effects w2.
Proof.
  intros H Hc Hw.
  destruct H; try assumption; unfold put, emitting; cbn [effects];
    rewrite elem_of_app; intros [Hin|Hin]; try (now apply Hw).
  all: try (destruct (final_check_consistent _ Hc) as (? & ? & _ & _ & _ & _ & _ & Hf);
            [assumption|congruence]).
  all: try match goal with
           | Hxs : forall c, answer_sent c data_invalid ∉ ?xs |- _ => now apply (Hxs c)
           end.
  all: repeat (apply elem_of_cons in Hin as [Hin|Hin];
               [try discriminate; injection Hin as _ Hin|]);
    try (now apply elem_of_nil in Hin).
  all: vm_compute in Hin; discriminate.
Qed.

Lemma reachable_never_invalid w c :
  reachable w -> answer_sent c data_invalid ∉ effects w.
Proof.
  induction 1 as [d f|e message w Hw IH].
  - cbn [effects]. apply not_elem_of_nil.
  - apply (step_never_invalid e message w _ c (feed_update_step e message w));
      [|exact IH].
    now apply reachable_consistent.
Qed.

(** ** One update, by the handler that takes it *)

Lemma feed_start e message w :
  commanded e message Start = true ->
  feed_update e message w =
  put (sender message) {| rec_state := Some StudentForm.name; rec_data := ∅ |}
    [answer_sent (chat_id message) greeting] w.
Proof.
  intros Hb. unfold feed_update. now rewrite (resolve_start _ _ _ Hb), on_start_spec.
Qed.

Lemma feed_cancel e message w :
  commanded e message Cancel = true ->
  feed_update e message w =
  put (sender message) empty_record [answer_sent (chat_id message) cancelled] w.
Proof.
  intros Hb. unfold feed_update. now rewrite (resolve_cancel _ _ _ Hb), on_cancel_spec.
Qed.

Lemma feed_invalid e message w s :
  reaches_states e message ->
  state_of w (sender message) = Some s ->
  ~ valid_input s (text_or_empty message) ->
  feed_update e message w =
  emitting [answer_sent (chat_id message) (prompt_again s)] w.
Proof.
  intros Hr Hs Hv. unfold feed_update. rewrite (resolve_state _ _ _ s Hr Hs).
  destruct s; cbn [valid_input prompt_again snd] in *.
  - rewrite on_name_reject; [reflexivity|].
    destruct (strip (text_or_empty message)); [reflexivity|]. now destruct Hv.
  - destruct (parse_age_total (text_or_empty message)) as [[age|] Ha].
    + destruct Hv. now exists age.
    + now rewrite (on_age_reject _ _ _ _ Ha).
  - rewrite on_grade_reject; [reflexivity|].
    destruct (strip (text_or_empty message)); [reflexivity|]. now destruct Hv.
Qed.

Lemma feed_name e message w :
  reaches_states e message ->
  state_of w (sender message) = Some StudentForm.name ->
  strip (text_or_empty message) <> [] ->
  feed_update e message w =
  put (sender message)
    {| rec_state := Some StudentForm.age;
       rec_data := <["name" := VStr (strip (text_or_empty message))]>
                     (rec_data (record_of (storage w) (sender message))) |}
    [answer_sent (chat_id message) age_prompt] w.
Proof.
  intros Hr Hs Hv. unfold feed_update. rewrite (resolve_state _ _ _ _ Hr Hs).
  now rewrite (on_name_accept _ _ _ _ Hv).
Qed.

Lemma feed_age e message w age :
  reaches_states e message ->
  state_of w (sender message) = Some StudentForm.age ->
  parse_age (text_or_empty message) = Ok (Some age) ->
  feed_update e message w =
  put (sender message)
    {| rec_state := Some StudentForm.grade;
       rec_data := <["age" := VInt age]>
                     (rec_data (record_of (storage w) (sender message))) |}
    [answer_sent (chat_id message) grade_prompt] w.
Proof.
  intros Hr Hs Hv. unfold feed_update. rewrite (resolve_state _ _ _ _ Hr Hs).
  now rewrite (on_age_accept _ _ _ _ _ Hv).
Qed.

Lemma feed_grade_saved e message w name age :
  reaches_states e message ->
  state_of w (sender message) = Some StudentForm.grade ->
  strip (text_or_empty message) <> [] ->
  final_check (rec_data (record_of (storage w) (sender message))) = Some (name, age) ->
  db_online e = true -> fits_int64 age = true ->
  feed_update e message w =
  {| storage := <[sender message := empty_record]> (storage w);
     db := {| students := students (db w)
                          ++ [(next_rowid (db w), strip name, age,
                               strip (text_or_empty message))];
              sqlite_sequence := next_rowid (db w) |};
     fs := fs w;
     effects := effects w ++
       [db_opened true;
        answer_sent (chat_id message)
          (saved_message (next_rowid (db w)) name age
             (strip (text_or_empty message)))] |}.
Proof.
  intros Hr Hs Hv Hc Hon Hfit. unfold feed_update. rewrite (resolve_state _ _ _ _ Hr Hs).
  rewrite (on_grade_saved _ _ _ _ _ _ Hv Hc Hon Hfit). cbn [snd].
  now rewrite strip_idemp.
Qed.

Lemma feed_grade_failed e message w name age :
  reaches_states e message ->
  state_of w (sender message) = Some StudentForm.grade ->
  strip (text_or_empty message) <> [] ->
  final_check (rec_data (record_of (storage w) (sender message))) = Some (name, age) ->
  db_online e = false ->
  feed_update e message w =
  put (sender message) empty_record
    [db_opened (db_opens e); logged_exception save_failed_log;
     answer_sent (chat_id message) db_failure] w.
Proof.
  intros Hr Hs Hv Hc Hon. unfold feed_update. rewrite (resolve_state _ _ _ _ Hr Hs).
  now rewrite (on_grade_failed _ _ _ _ _ _ Hv Hc Hon).
Qed.

Lemma reachable_run us : forall w, reachable w -> reachable (run us w).
Proof.
  induction us as [|u us IH]; intros w Hw; [exact Hw|].
  rewrite run_cons. apply IH. now constructor.
Qed.

Lemma reachable_fresh_world : reachable fresh_world.
Proof. constructor. Qed.

(** ** A whole dialogue *)

Lemma text_or_empty_plain chat user (t : str) :
  text_or_empty {| chat_id := chat; user_id := user; body := Plain (Some t) |} = t.
Proof. rewrite text_or_empty_default. reflexivity. Qed.

Lemma final_check_inserted (data : gmap string value) (name : str) age :
  strip name <> [] ->
  final_check (<["age" := VInt age]> (<["name" := VStr (strip name)]> data))
  = Some (strip name, age).
Proof.
  intros H%not_false_iff. unfold final_check.
  rewrite lookup_insert_eq, lookup_insert_ne by discriminate.
  rewrite lookup_insert_eq. cbn [default from_option id as_int].
  now rewrite strip_idemp, H.
Qed.

Lemma state_of_put k r xs w : state_of (put k r xs w) k = rec_state r.
Proof. unfold state_of, put. cbn [storage]. now rewrite record_of_insert_eq. Qed.

Lemma record_of_put k r xs w : record_of (storage (put k r xs w)) k = r.
Proof. unfold put. cbn [storage]. apply record_of_insert_eq. Qed.

Lemma put_put k r1 r2 xs ys w :
  put k r2 ys (put k r1 xs w) = put k r2 (xs ++ ys) w.
Proof.
  unfold put. cbn [storage db fs effects].
  now rewrite insert_insert_eq, app_assoc.
Qed.

(** From any world, [/start] and three valid answers while the database can
    be written: the row and the answers. *)
Lemma full_dialogue w e1 e2 e3 e4 start chat user (name_in age_in grade_in : str) age :
  chat_id start = chat -> user_id start = user ->
  commanded e1 start Start = true ->
  let named := {| chat_id := chat; user_id := user; body := Plain (Some name_in) |} in
  let aged := {| chat_id := chat; user_id := user; body := Plain (Some age_in) |} in
  let graded := {| chat_id := chat; user_id := user; body := Plain (Some grade_in) |} in
  reaches_states e2 named -> reaches_states e3 aged -> reaches_states e4 graded ->
  strip name_in <> [] ->
  parse_age age_in = Ok (Some age) ->
  strip grade_in <> [] ->
  db_online e4 = true ->
  run [(e1, start); (e2, named); (e3, aged); (e4, graded)] w
  = {| storage := <[(chat, user) := empty_record]> (storage w);
       db := {| students := students (db w)
                            ++ [(next_rowid (db w), strip name_in, age, strip grade_in)];
                sqlite_sequence := next_rowid (db w) |};
       fs := fs w;
       effects := effects w ++
         [answer_sent chat greeting; answer_sent chat age_prompt;
          answer_sent chat grade_prompt; db_opened true;
          answer_sent chat
            (saved_message (next_rowid (db w)) (strip name_in) age (strip grade_in))] |}.
Proof.
  intros Hchat Huser Hstart named aged graded H2 H3 H4 Hn Ha Hg Hon.
  assert (Hk : sender start = (chat, user))
    by (unfold sender, context_of; cbn [key]; congruence).
  assert (Hfit : fits_int64 age = true)
    by (apply age_fits_int64; now apply parse_age_some in Ha).
  unfold run. cbn [fold_left fst snd].
  rewrite (feed_start e1 _ w Hstart), Hk, Hchat.
  rewrite (feed_name e2 named);
    [|exact H2|apply state_of_put|unfold named; now rewrite text_or_empty_plain].
  unfold named at 2 3 4. rewrite put_put, record_of_put, text_or_empty_plain. cbn [rec_data].
  rewrite (feed_age e3 aged _ age);
    [|exact H3|apply state_of_put|unfold aged; now rewrite text_or_empty_plain].
  rewrite put_put, record_of_put. cbn [rec_data].
  rewrite (feed_grade_saved e4 graded _ (strip name_in) age);
    [|exact H4|apply state_of_put|unfold graded; now rewrite text_or_empty_plain
     |rewrite record_of_put; now apply final_check_inserted|assumption|assumption].
  unfold graded at 2 3 4. rewrite text_or_empty_plain, strip_idemp.
  unfold put, sender, named, aged, graded.
  cbn [storage db fs effects context_of key chat_id user_id].
  rewrite insert_insert_eq, <- !app_assoc. reflexivity.
Qed.

(** ** Texts outside a dialogue, and two dialogues side by side *)

Lemma feed_unheard_idle e message w :
  (forall c, commanded e message c = false) ->
  state_of w (sender message) = None ->
  feed_update e message w = w.
Proof.
  intros Hb Hs. unfold feed_update.
  rewrite (resolve_unheard_idle e message w);
    [reflexivity|repeat split; apply Hb|apply Hb|apply Hb|exact Hs].
Qed.

Lemma solo_start k u us r r2 :
  from k u = true -> commanded (fst u) (snd u) Start = true ->
  solo k (u :: us) r = solo k (u :: us) r2.
Proof.
  intros Hu Hb. cbn [solo]. rewrite Hu.
  unfold session_after, persisted. now rewrite Hb.
Qed.

Lemma from_filter k us : Forall (fun u => from k u = true) (filter (from k) us).
Proof.
  apply Forall_forall. intros u Hu.
  apply list_elem_of_filter in Hu as [Hu _]. now apply Is_true_true.
Qed.

Lemma two_dialogues_rows U V us : forall w,
  U <> V ->
  Forall (fun u => from U u = true \/ from V u = true) us ->
  map fields (new_rows w (run us w))
  ≡ₚ snd (solo U us (record_of (storage w) U))
     ++ snd (solo V us (record_of (storage w) V)).
Proof.
  induction us as [|u us IH]; intros w HUV Hall.
  - unfold new_rows. simpl. now rewrite drop_all.
  - inversion Hall as [|? ? Hu Hus]; subst.
    rewrite new_rows_cons, map_app, run_cons, (IH _ HUV Hus).
    destruct (feed_update_rows (fst u) (snd u) w) as (rows & H & Hf).
    rewrite (new_rows_app _ _ _ H), Hf. clear H Hf rows.
    cbn [solo]. unfold from in *.
    destruct (bool_decide_reflect (sender (snd u) = U)) as [HU|HU];
      destruct (bool_decide_reflect (sender (snd u) = V)) as [HV|HV];
      try congruence.
    + subst U. rewrite feed_update_session.
      rewrite (feed_update_frame _ _ _ V) by congruence.
      destruct (solo (sender (snd u)) us _) as [rU aU].
      cbn [snd]. now rewrite app_assoc.
    + subst V. rewrite feed_update_session.
      rewrite (feed_update_frame _ _ _ U) by congruence.
      destruct (solo (sender (snd u)) us _) as [rV aV].
      cbn [snd]. rewrite !app_assoc.
      apply Permutation_app_tail, Permutation_app_comm.
    + destruct Hu; discriminate.
Qed.

(** ** Ordering the table *)

#[global] Instance id_desc_total : Total id_desc.
Proof. intros r1 r2. unfold id_desc. lia. Qed.
#[global] Instance id_desc_trans : Transitive id_desc.
Proof. intros r1 r2 r3. unfold id_desc. lia. Qed.
#[global] Instance id_asc_total : Total id_asc.
Proof. intros r1 r2. unfold id_asc. lia. Qed.
#[global] Instance id_asc_trans : Transitive id_asc.
Proof. intros r1 r2 r3. unfold id_asc. lia. Qed.

Lemma order_by_id_desc_sorted rows : StronglySorted id_desc (order_by_id_desc rows).
Proof. apply StronglySorted_merge_sort; apply _. Qed.

Lemma order_by_id_desc_perm rows : order_by_id_desc rows ≡ₚ rows.
Proof. apply merge_sort_Permutation. Qed.

Lemma order_by_id_asc_sorted rows : StronglySorted id_asc (order_by_id_asc rows).
Proof. apply StronglySorted_merge_sort; apply _. Qed.

Lemma order_by_id_asc_perm rows : order_by_id_asc rows ≡ₚ rows.
Proof. apply merge_sort_Permutation. Qed.

(** Rows of distinct ids that are ordered are strictly ordered. *)
Lemma sorted_distinct_desc rows :
  StronglySorted id_desc rows -> NoDup (map row_id rows) ->
  StronglySorted id_above rows.
Proof.
  induction 1 as [|r rows Hs IH Hr]; intros Hnd; [constructor|].
  cbn [map] in Hnd. apply NoDup_cons in Hnd as [Hin Hnd].
  constructor; [now apply IH|].
  apply Forall_forall. intros r2 H2.
  rewrite Forall_forall in Hr. specialize (Hr r2 H2).
  unfold id_desc, id_above in *.
  assert (row_id r <> row_id r2); [|lia].
  intros Heq. apply Hin. rewrite Heq.
  apply list_elem_of_In, in_map, list_elem_of_In, H2.
Qed.

Lemma sorted_distinct_asc rows :
  StronglySorted id_asc rows -> NoDup (map row_id rows) ->
  StronglySorted id_below rows.
Proof.
  induction 1 as [|r rows Hs IH Hr]; intros Hnd; [constructor|].
  cbn [map] in Hnd. apply NoDup_cons in Hnd as [Hin Hnd].
  constructor; [now apply IH|].
  apply Forall_forall. intros r2 H2.
  rewrite Forall_forall in Hr. specialize (Hr r2 H2).
  unfold id_asc, id_below in *.
  assert (row_id r <> row_id r2); [|lia].
  intros Heq. apply Hin. rewrite Heq.
  apply list_elem_of_In, in_map, list_elem_of_In, H2.
Qed.

Lemma list_students_online limit e w :
  db_online e = true -> fits_int64 limit = true ->
  list_students limit e w =
  (Ok (sql_limit limit (order_by_id_desc (students (db w)))),
   emitting [db_opened true] w).
Proof.
  intros Hon Hfit. unfold list_students. unfold_handler.
  rewrite (online_opens e Hon), Hon. cbn [forallb]. rewrite Hfit. cbn [andb].
  destruct w as [st d f xs]. reflexivity.
Qed.

Lemma list_students_offline limit e w :
  db_online e = false ->
  list_students limit e w = (Raise sqlite3_Error, emitting [db_opened (db_opens e)] w).
Proof.
  intros Hon. unfold list_students. unfold_handler. rewrite Hon.
  now destruct (db_opens e).
Qed.

(** A limit that SQLite cannot hold is refused when it is bound. *)
Lemma list_students_overflow limit e w :
  db_online e = true -> fits_int64 limit = false ->
  list_students limit e w = (Raise OverflowError, emitting [db_opened true] w).
Proof.
  intros Hon Hfit. unfold list_students. unfold_handler.
  rewrite (online_opens e Hon), Hon. cbn [forallb]. now rewrite Hfit.
Qed.

Lemma sql_limit_positive limit rows :
  0 <= limit -> sql_limit limit rows = take (Z.to_nat limit) rows.
Proof.
  intros H. unfold sql_limit. destruct (limit <? 0) eqn:Hl; [lia|reflexivity].
Qed.

(** The id AUTOINCREMENT hands out is new: ids stay distinct. *)
Lemma max_rowid_ge rows r : r ∈ rows -> row_id r <= max_rowid rows.
Proof.
  induction rows as [|r2 rows IH]; intros Hin.
  - now apply elem_of_nil in Hin.
  - cbn [max_rowid fold_right]. fold (max_rowid rows).
    apply elem_of_cons in Hin as [->|Hin]; [lia|].
    specialize (IH Hin). lia.
Qed.

Lemma insert_student_distinct name age grade d :
  NoDup (map row_id (students d)) ->
  NoDup (map row_id (students (snd (insert_student name age grade d)))).
Proof.
  intros Hnd. unfold insert_student. cbn [snd students].
  rewrite map_app. cbn [map row_id].
  apply NoDup_app. split; [exact Hnd|]. split; [|apply NoDup_singleton].
  intros id Hin Hnew. apply list_elem_of_singleton in Hnew. subst id.
  apply list_elem_of_In, in_map_iff in Hin as (r & Hid & Hr).
  apply list_elem_of_In, max_rowid_ge in Hr.
  unfold next_rowid in Hid. lia.
Qed.

(** ** The text of the export *)

Lemma lines_from_line cur (t rest : str) :
  one_line t ->
  lines_from cur (t ++ nl ++ rest) = (rev cur ++ t) :: lines_from [] rest.
Proof.
  revert cur. induction t as [|c t IH]; intros cur Ht.
  - cbn. now rewrite app_nil_r.
  - unfold one_line in *. cbn [app lines_from].
    destruct (c =? line_feed)%N eqn:Hc.
    + apply N.eqb_eq in Hc. subst c. destruct Ht. apply elem_of_cons. now left.
    + rewrite IH.
      * cbn [rev]. now rewrite <- app_assoc.
      * intros Hin. apply Ht. apply elem_of_cons. now right.
Qed.

Lemma lines_of_rows (g : row -> str) rows :
  Forall (fun r => one_line (g r)) rows ->
  lines_from [] (concat (map (fun r => g r ++ nl) rows)) = map g rows.
Proof.
  induction 1 as [|r rows Hr Hrows IH]; [reflexivity|].
  cbn [map concat]. rewrite <- app_assoc, (lines_from_line [] (g r) _ Hr).
  cbn [rev app]. now rewrite IH.
Qed.

Lemma uint_digits_are_digits d : forallb is_digit (uint_digits d) = true.
Proof. induction d; cbn [uint_digits forallb]; try rewrite IHd; reflexivity. Qed.

Lemma one_line_app (s t : str) : one_line s -> one_line t -> one_line (s ++ t).
Proof. unfold one_line. intros Hs Ht Hin. apply elem_of_app in Hin as [Hin|Hin]; auto. Qed.

Lemma digits_one_line (s : str) : forallb is_digit s = true -> one_line s.
Proof.
  unfold one_line. intros H Hin. rewrite forallb_forall in H.
  apply list_elem_of_In, H in Hin. discriminate.
Qed.

Lemma str_of_int_one_line n : one_line (str_of_int n).
Proof.
  unfold str_of_int. destruct (Z.to_int n) as [d|d].
  - apply digits_one_line, uint_digits_are_digits.
  - change (45%N :: uint_digits d) with ([45%N] ++ uint_digits d).
    apply one_line_app; [|apply digits_one_line, uint_digits_are_digits].
    unfold one_line. intros Hin. apply list_elem_of_singleton in Hin. discriminate.
Qed.

Lemma comma_one_line : one_line comma.
Proof. unfold one_line. vm_compute. intros Hin. apply list_elem_of_singleton in Hin. discriminate. Qed.

Lemma csv_line_one_line r :
  one_line (row_name r) -> one_line (row_grade r) -> one_line (csv_line r).
Proof.
  destruct r as [[[id name] age] grade]. cbn [row_name row_grade csv_line].
  intros Hn Hg.
  repeat apply one_line_app; auto using str_of_int_one_line, comma_one_line.
Qed.

Lemma csv_header_one_line : one_line csv_header.
Proof.
  unfold one_line. intros Hin. apply list_elem_of_In in Hin.
  vm_compute in Hin. intuition discriminate.
Qed.

(** Without a line feed in a name or a grade, the file has the header and
    one line for each row. *)
Lemma lines_csv_text rows :
  Forall (fun r => one_line (row_name r) /\ one_line (row_grade r)) rows ->
  lines (csv_text rows) = csv_header :: map csv_line rows.
Proof.
  intros H. unfold lines, csv_text, csv_rows.
  rewrite (lines_from_line [] csv_header _ csv_header_one_line).
  cbn [rev app]. f_equal. apply lines_of_rows.
  eapply Forall_impl; [exact H|]. intros r [Hn Hg]. now apply csv_line_one_line.
Qed.

(** *** The name of the file *)

Lemma zero_padded_digits w : forall n,
  length (zero_padded w n) = w /\ forallb is_digit (zero_padded w n) = true.
Proof.
  induction w as [|w IH]; intros n; [split; reflexivity|].
  cbn [zero_padded]. destruct (IH (n / 10)) as [Hl Hd].
  rewrite length_app, List.forallb_app, Hl, Hd. cbn [length forallb].
  split; [lia|].
  assert (Hm : 0 <= n mod 10 < 10) by (apply Z.mod_pos_bound; lia).
  unfold is_digit.
  replace ((48 <=? 48 + Z.to_N (n mod 10))%N) with true by (symmetry; apply N.leb_le; lia).
  replace ((48 + Z.to_N (n mod 10) <=? 57)%N) with true by (symmetry; apply N.leb_le; lia).
  reflexivity.
Qed.

Lemma export_name_stamped t : stamped_name (export_name t).
Proof.
  unfold stamped_name, export_name, strftime_stamp.
  exists (zero_padded 4 (year t) ++ zero_padded 2 (month t) ++ zero_padded 2 (day t)),
         (zero_padded 2 (hour t) ++ zero_padded 2 (minute t) ++ zero_padded 2 (second t)).
  rewrite !length_app, !List.forallb_app.
  rewrite !(proj1 (zero_padded_digits _ _)), !(proj2 (zero_padded_digits _ _)).
  repeat split; try reflexivity.
  all: now rewrite <- !app_assoc.
Qed.

(** *** The directory *)

Lemma load_module_creates f :
  files f !! EXPORTS_DIR = None ->
  exists f2, load_module f = (Ok tt, f2)
             /\ EXPORTS_DIR ∈ dirs f2
             /\ files f2 = files f
             /\ (EXPORTS_DIR ∈ dirs f -> f2 = f).
Proof.
  intros Hf. unfold load_module, mkdir_exist_ok.
  destruct (decide (EXPORTS_DIR ∈ dirs f)) as [Hd|Hd].
  - exists f. repeat split; auto.
  - rewrite Hf. eexists. split; [reflexivity|]. cbn [dirs files].
    repeat split; [set_solver|contradiction].
Qed.

(** ** The scan of an integer *)

Lemma ascii_digit_range c d :
  ascii_digit c d <-> (48 <= c <= 57)%N /\ d = Z.of_N c - 48.
Proof.
  unfold ascii_digit, digit_value.
  destruct ((48 <=? c) && (c <=? 57))%N eqn:H.
  - apply andb_prop in H as [H1%N.leb_le H2%N.leb_le].
    split; [intros [= <-]; now split|intros [_ ->]; reflexivity].
  - split; [discriminate|]. intros [[H1%N.leb_le H2%N.leb_le] _].
    rewrite H1, H2 in H. discriminate.
Qed.

Lemma ascii_digit_not_underscore c d : ascii_digit c d -> (c =? underscore)%N = false.
Proof.
  intros [Hr _]%ascii_digit_range. apply N.eqb_neq. unfold underscore. lia.
Qed.

Lemma value_from_app acc ds d :
  value_from acc (ds ++ [d]) = value_from acc ds * 10 + d.
Proof. unfold value_from. now rewrite fold_left_app. Qed.

Lemma scan_digits_complete body ds rest :
  digits_from ascii_digit body ds -> stops rest ->
  forall digits acc,
    scan_digits (body ++ rest) false digits acc
    = Some (value_from acc ds, (digits + length ds)%nat, rest).
Proof.
  intros Hb Hrest. induction Hb as [|c d r ds Hc Hr IH|c d r ds Hc Hr IH];
    intros digits acc.
  - cbn [app length value_from fold_left]. rewrite Nat.add_0_r.
    destruct rest as [|c rest]; [reflexivity|].
    destruct Hrest as [Hu Hd]. cbn [scan_digits].
    apply N.eqb_neq in Hu. now rewrite Hu, Hd.
  - cbn [app scan_digits].
    rewrite (ascii_digit_not_underscore c d Hc). unfold ascii_digit in Hc.
    rewrite Hc, IH. cbn [length value_from fold_left].
    now rewrite Nat.add_succ_r.
  - cbn [app scan_digits]. rewrite N.eqb_refl.
    rewrite (ascii_digit_not_underscore c d Hc). unfold ascii_digit in Hc.
    rewrite Hc, IH. cbn [length value_from fold_left].
    now rewrite Nat.add_succ_r.
Qed.

Lemma scan_digits_sound s : forall prev digits acc v digits2 rest,
  scan_digits s prev digits acc = Some (v, digits2, rest) ->
  exists body ds,
    s = body ++ rest
    /\ (if prev then numeral ascii_digit body ds
        else digits_from ascii_digit body ds)
    /\ v = value_from acc ds
    /\ digits2 = (digits + length ds)%nat
    /\ stops rest.
Proof.
  induction s as [|c r IH]; intros prev digits acc v digits2 rest H.
  - cbn [scan_digits] in H. destruct prev; [discriminate|].
    injection H as <- <- <-. exists [], [].
    cbn. rewrite Nat.add_0_r. repeat split. constructor.
  - cbn [scan_digits] in H.
    destruct (c =? underscore)%N eqn:Hu.
    + destruct prev; [discriminate|].
      apply N.eqb_eq in Hu. subst c.
      apply IH in H as (body & ds & -> & Hb & -> & -> & Hs).
      inversion Hb as [c d r2 ds2 Hc Hr]; subst.
      exists (underscore :: c :: r2), (d :: ds2).
      repeat split; try assumption. now constructor.
    + destruct (digit_value c) as [d|] eqn:Hd.
      * apply IH in H as (body & ds & -> & Hb & -> & -> & Hs).
        exists (c :: body), (d :: ds).
        cbn [length]. rewrite Nat.add_succ_r.
        repeat split; try assumption.
        destruct prev; now constructor.
      * destruct prev; [discriminate|].
        injection H as <- <- <-. exists [], [].
        cbn [app length value_from fold_left stops]. rewrite Nat.add_0_r.
        split; [reflexivity|]. split; [constructor|].
        split; [reflexivity|]. split; [reflexivity|].
        split; [now apply N.eqb_neq|exact Hd].
Qed.

Lemma skip_c_spaces_split s :
  exists ws, s = ws ++ skip_c_spaces s /\ forallb c_isspace ws = true.
Proof.
  induction s as [|c r (ws & Heq & Hws)].
  - exists []. split; reflexivity.
  - cbn [skip_c_spaces]. destruct (c_isspace c) eqn:Hc.
    + exists (c :: ws). split; [cbn; congruence|]. cbn. now rewrite Hc.
    + exists []. split; reflexivity.
Qed.

Lemma skip_c_spaces_keep c r : c_isspace c = false -> skip_c_spaces (c :: r) = c :: r.
Proof. intros H. cbn. now rewrite H. Qed.

Lemma ascii_digit_not_space c d : ascii_digit c d -> c_isspace c = false.
Proof.
  intros [Hr _]%ascii_digit_range. unfold c_isspace.
  apply orb_false_intro; [apply andb_false_intro2|]; [apply N.leb_gt|apply N.eqb_neq]; lia.
Qed.

(** What is left of [PyLong_FromString] once the sign is read. *)
Lemma unsigned_sound (s2 : list N) (sigma n : Z) :
  match s2 with
  | c :: _ => if (c =? underscore)%N then Raise ValueError else
      match scan_digits s2 false 0 0 with
      | None => Raise ValueError
      | Some (v, digits, rest) =>
          if (max_str_digits <? digits)%nat then Raise ValueError
          else if (digits =? 0)%nat then Raise ValueError
          else match skip_c_spaces rest with
               | [] => Ok (sigma * v)
               | _ :: _ => Raise ValueError
               end
      end
  | [] => Raise ValueError
  end = Ok n ->
  exists body ws2 ds,
    s2 = body ++ ws2 /\ forallb c_isspace ws2 = true
    /\ numeral ascii_digit body ds
    /\ (length ds <= max_str_digits)%nat
    /\ n = sigma * decimal_value ds.
Proof.
  destruct s2 as [|c r]; [discriminate|].
  destruct (c =? underscore)%N eqn:Hu; [discriminate|].
  destruct (scan_digits (c :: r) false 0 0) as [[[v digits] rest]|] eqn:Hscan;
    [|discriminate].
  destruct (max_str_digits <? digits)%nat eqn:Hmax; [discriminate|].
  destruct (digits =? 0)%nat eqn:Hzero; [discriminate|].
  destruct (skip_c_spaces rest) eqn:Hrest; [|discriminate].
  intros [= <-].
  apply scan_digits_sound in Hscan as (body & ds & Heq & Hb & -> & -> & _).
  apply Nat.ltb_ge in Hmax. apply Nat.eqb_neq in Hzero. cbn [Nat.add] in *.
  destruct (skip_c_spaces_split rest) as (ws & Hws & Hspaces).
  rewrite Hrest, app_nil_r in Hws. subst ws.
  exists body, rest, ds. repeat split; try assumption.
  inversion Hb as [|c2 d r2 ds2 Hc Hr|c2 d r2 ds2 Hc Hr]; subst.
  - now cbn in Hzero.
  - now constructor.
  - cbn [app] in Heq. injection Heq as -> _. now rewrite N.eqb_refl in Hu.
Qed.

Lemma PyLong_FromString_sound a n :
  PyLong_FromString a = Ok n -> integer_text_of c_isspace ascii_digit a n.
Proof.
  unfold PyLong_FromString, integer_text_of.
  destruct (skip_c_spaces_split a) as (ws1 & Heq & Hws1).
  destruct (skip_c_spaces a) as [|c r] eqn:Hs1.
  - discriminate.
  - destruct (c =? 43)%N eqn:Hplus; [|destruct (c =? 45)%N eqn:Hminus].
    + apply N.eqb_eq in Hplus. subst c. intros H.
      apply unsigned_sound in H as (body & ws2 & ds & -> & Hws2 & Hb & Hlen & ->).
      exists ws1, [43%N], body, ws2, 1, ds. repeat split; try assumption.
      constructor.
    + apply N.eqb_eq in Hminus. subst c. intros H.
      apply unsigned_sound in H as (body & ws2 & ds & -> & Hws2 & Hb & Hlen & ->).
      exists ws1, [45%N], body, ws2, (-1), ds. repeat split; try assumption.
      constructor.
    + intros H.
      apply (unsigned_sound (c :: r) 1 n) in H
        as (body & ws2 & ds & Hr & Hws2 & Hb & Hlen & ->).
      exists ws1, [], body, ws2, 1, ds. rewrite <- Hr.
      repeat split; try assumption. constructor.
Qed.

Lemma scan_whole body ds :
  numeral ascii_digit body ds ->
  scan_digits body false 0 0 = Some (decimal_value ds, length ds, []).
Proof.
  intros Hb. inversion Hb as [c d r ds2 Hc Hr]; subst.
  rewrite <- (app_nil_r (c :: r)).
  rewrite (scan_digits_complete (c :: r) (d :: ds2) []); [reflexivity| |exact I].
  now constructor.
Qed.

Lemma PyLong_FromString_complete sg body sigma ds :
  sign_text sg sigma -> numeral ascii_digit body ds ->
  (length ds <= max_str_digits)%nat ->
  PyLong_FromString (sg ++ body) = Ok (sigma * decimal_value ds).
Proof.
  intros Hsg Hb Hlen.
  assert (Hscan := scan_whole body ds Hb).
  inversion Hb as [c d r ds2 Hc Hr]; subst.
  assert (Hu := ascii_digit_not_underscore c d Hc).
  assert (Hsp := ascii_digit_not_space c d Hc).
  assert (Hc2 := proj1 (proj1 (ascii_digit_range c d) Hc)).
  assert (Hmax : (max_str_digits <? length (d :: ds2))%nat = false)
    by now apply Nat.ltb_ge.
  unfold PyLong_FromString.
  destruct Hsg; cbn [app].
  - rewrite (skip_c_spaces_keep c r Hsp).
    replace (c =? 43)%N with false by (symmetry; apply N.eqb_neq; lia).
    replace (c =? 45)%N with false by (symmetry; apply N.eqb_neq; lia).
    now rewrite Hu, Hscan, Hmax.
  - rewrite skip_c_spaces_keep by reflexivity. cbn [N.eqb Pos.eqb].
    now rewrite Hu, Hscan, Hmax.
  - rewrite skip_c_spaces_keep by reflexivity. cbn [N.eqb Pos.eqb].
    now rewrite Hu, Hscan, Hmax.
Qed.

(** ** The two tables of Unicode *)

Lemma isspace_points c : isspace c = true <-> In c space_points.
Proof.
  unfold isspace, space_points. cbn [In].
  rewrite !orb_true_iff, !andb_true_iff, !N.leb_le, !N.eqb_eq. lia.
Qed.

Lemma todecimal_in_small zs c d :
  todecimal_in zs c = Some d -> (d < 10)%N.
Proof.
  induction zs as [|z zs IH]; cbn [todecimal_in]; [discriminate|].
  destruct ((z <=? c) && (c <? z + 10))%N eqn:H; [|exact IH].
  apply andb_prop in H as [H1%N.leb_le H2%N.ltb_lt]. intros [= <-]. lia.
Qed.

Lemma todecimal_small c d : todecimal c = Some d -> (d < 10)%N.
Proof. apply todecimal_in_small. Qed.

Lemma todecimal_in_above zs c :
  forallb (fun z => c <? z)%N zs = true -> todecimal_in zs c = None.
Proof.
  induction zs as [|z zs IH]; cbn [todecimal_in forallb]; [reflexivity|].
  intros [H1%N.ltb_lt H2]%andb_prop.
  replace (z <=? c)%N with false by (symmetry; apply N.leb_gt; lia).
  now apply IH.
Qed.

Lemma forallb_weaken {A} (p q : A -> bool) l :
  (forall x, p x = true -> q x = true) -> forallb p l = true -> forallb q l = true.
Proof.
  intros Hpq. rewrite !forallb_forall. auto.
Qed.

(** Below 128 the decimal digits are the ASCII digits. *)
Lemma todecimal_ascii c :
  (c < 128)%N ->
  todecimal c = if ((48 <=? c) && (c <=? 57))%N then Some (c - 48)%N else None.
Proof.
  intros Hc. unfold todecimal.
  change decimal_zeros with (48%N :: tl decimal_zeros). cbn [todecimal_in].
  assert (Hrest : todecimal_in (tl decimal_zeros) c = None).
  { apply todecimal_in_above.
    apply (forallb_weaken (fun z => 128 <=? z)%N); [|vm_compute; reflexivity].
    intros z Hz%N.leb_le. apply N.ltb_lt. lia. }
  rewrite Hrest.
  destruct (48 <=? c)%N eqn:H1; [|reflexivity]. cbn [andb].
  destruct (c <=? 57)%N eqn:H2.
  - replace (c <? 48 + 10)%N with true; [reflexivity|].
    symmetry. apply N.ltb_lt. apply N.leb_le in H2. lia.
  - replace (c <? 48 + 10)%N with false; [reflexivity|].
    symmetry. apply N.ltb_ge. apply N.leb_gt in H2. lia.
Qed.

(** No whitespace is a decimal digit. *)
Lemma digit_not_space c d : todecimal c = Some d -> isspace c = false.
Proof.
  intros Hd. destruct (isspace c) eqn:Hs; [|reflexivity].
  apply isspace_points in Hs.
  assert (Hall : forallb (fun c => match todecimal c with None => true | Some _ => false end)
                   space_points = true) by (vm_compute; reflexivity).
  rewrite forallb_forall in Hall. specialize (Hall c Hs). now rewrite Hd in Hall.
Qed.

Lemma c_isspace_isspace c : c_isspace c = true -> isspace c = true.
Proof.
  unfold c_isspace, isspace.
  rewrite !orb_true_iff, !andb_true_iff, !N.leb_le, !N.eqb_eq. lia.
Qed.

(** *** One character through the transformation *)

Lemma to_ascii_low c : (c < 127)%N -> to_ascii c = c.
Proof. intros H. unfold to_ascii. apply N.ltb_lt in H. now rewrite H. Qed.

Lemma to_ascii_digit c d : unicode_digit c d -> ascii_digit (to_ascii c) d.
Proof.
  intros (m & Hm & ->). unfold to_ascii.
  destruct (c <? 127)%N eqn:Hc.
  - apply N.ltb_lt in Hc. rewrite todecimal_ascii in Hm by lia.
    apply ascii_digit_range.
    destruct ((48 <=? c) && (c <=? 57))%N eqn:Hr; [|discriminate].
    apply andb_prop in Hr as [H1%N.leb_le H2%N.leb_le].
    injection Hm as <-. split; lia.
  - rewrite (digit_not_space c m Hm), Hm.
    apply todecimal_small in Hm. apply ascii_digit_range. split; lia.
Qed.

Lemma to_ascii_high c :
  (127 <= c)%N ->
  to_ascii c = 32%N /\ isspace c = true
  \/ (exists m, todecimal c = Some m /\ to_ascii c = (48 + m)%N /\ (m < 10)%N)
  \/ to_ascii c = 63%N /\ ~ transformable c.
Proof.
  intros Hc. unfold to_ascii.
  replace (c <? 127)%N with false by (symmetry; apply N.ltb_ge; lia).
  destruct (isspace c) eqn:Hs; [now left|]. right.
  destruct (todecimal c) as [m|] eqn:Hm.
  - left. exists m. repeat split. now apply todecimal_small in Hm.
  - right. split; [reflexivity|]. unfold transformable.
    intros [H|[H|H]]; [lia|congruence|congruence].
Qed.

Lemma to_ascii_digit_inv c d :
  ascii_digit (to_ascii c) d -> unicode_digit c d /\ transformable c.
Proof.
  intros [Hr ->]%ascii_digit_range.
  destruct (N.lt_ge_cases c 127) as [Hc|Hc].
  - rewrite to_ascii_low in * by assumption. split; [|now left].
    exists (c - 48)%N. rewrite todecimal_ascii by lia.
    replace ((48 <=? c) && (c <=? 57))%N with true
      by (symmetry; apply andb_true_intro; split; apply N.leb_le; lia).
    split; [reflexivity|lia].
  - destruct (to_ascii_high c Hc) as [[H _]|[(m & Hm & H & Hlt)|[H _]]];
      rewrite H in *; try lia.
    split; [exists m; split; [assumption|lia]|].
    right. right. congruence.
Qed.

Lemma to_ascii_exact c (x : N) :
  (x < 127)%N -> x <> 32%N -> x <> 63%N -> ~ (48 <= x <= 57)%N ->
  to_ascii c = x -> c = x.
Proof.
  intros Hx H32 H63 Hd H.
  destruct (N.lt_ge_cases c 127) as [Hc|Hc].
  - now rewrite to_ascii_low in H.
  - destruct (to_ascii_high c Hc) as [[H2 _]|[(m & Hm & H2 & Hlt)|[H2 _]]];
      rewrite H2 in H; lia.
Qed.

Lemma to_ascii_space c : c_isspace (to_ascii c) = true -> isspace c = true.
Proof.
  intros H.
  destruct (N.lt_ge_cases c 127) as [Hc|Hc].
  - rewrite to_ascii_low in H by assumption. now apply c_isspace_isspace.
  - destruct (to_ascii_high c Hc) as [[_ H2]|[(m & Hm & H2 & Hlt)|[H2 _]]];
      [assumption| |]; rewrite H2 in H; exfalso; revert H; unfold c_isspace;
      rewrite !orb_true_iff, !andb_true_iff, !N.leb_le, !N.eqb_eq; lia.
Qed.

(** *** A whole text through the transformation *)

Lemma transformable_low c : (c < 128)%N -> transformable c -> (c < 127)%N.
Proof.
  intros Hc [H|[H|H]]; [assumption| |].
  - apply isspace_points in H. unfold space_points in H. cbn [In] in H. lia.
  - rewrite todecimal_ascii in H by assumption.
    destruct ((48 <=? c) && (c <=? 57))%N eqn:Hr; [|congruence].
    apply andb_prop in Hr as [_ H2%N.leb_le]. lia.
Qed.

Lemma transform_all s :
  Forall transformable s -> transform_decimal_and_space s = map to_ascii s.
Proof.
  induction 1 as [|c r Hc Hr IH]; [reflexivity|].
  cbn [transform_decimal_and_space map]. unfold to_ascii at 1.
  destruct (c <? 127)%N eqn:Hlow; [now rewrite IH|].
  destruct (isspace c) eqn:Hs; [now rewrite IH|].
  destruct (todecimal c) as [d|] eqn:Hd; [now rewrite IH|].
  apply N.ltb_ge in Hlow. destruct Hc as [H|[H|H]]; [lia|congruence|congruence].
Qed.

Lemma to_ascii_digits_all s :
  Forall transformable s -> to_ascii_digits s = map to_ascii s.
Proof.
  intros Hall. unfold to_ascii_digits.
  destruct (is_ascii s) eqn:Ha; [|now apply transform_all].
  unfold is_ascii in Ha. rewrite forallb_forall in Ha.
  rewrite Forall_forall in Hall.
  rewrite <- (map_id s) at 1. apply map_ext_in. intros c Hc.
  symmetry. apply to_ascii_low, transformable_low.
  - now apply N.ltb_lt, Ha.
  - now apply Hall, list_elem_of_In.
Qed.

Lemma transform_clean s :
  63%N ∉ transform_decimal_and_space s -> Forall transformable s.
Proof.
  induction s as [|c r IH]; [constructor|].
  cbn [transform_decimal_and_space].
  destruct (c <? 127)%N eqn:Hlow.
  { intros H. constructor; [left; now apply N.ltb_lt|].
    apply IH. intros Hin. apply H. now right. }
  destruct (isspace c) eqn:Hs.
  { intros H. constructor; [now right; left|].
    apply IH. intros Hin. apply H. now right. }
  destruct (todecimal c) as [d|] eqn:Hd.
  { intros H. constructor; [right; right; congruence|].
    apply IH. intros Hin. apply H. now right. }
  intros H. destruct H. now left.
Qed.

Lemma to_ascii_digits_clean s :
  Forall (fun x => x <> 63%N /\ x <> 127%N) (to_ascii_digits s) ->
  Forall transformable s.
Proof.
  unfold to_ascii_digits. destruct (is_ascii s) eqn:Ha; intros H.
  - unfold is_ascii in Ha. rewrite forallb_forall in Ha.
    rewrite Forall_forall in *. intros c Hc. left.
    destruct (H c Hc) as [_ H127].
    apply list_elem_of_In, Ha, N.ltb_lt in Hc. lia.
  - apply transform_clean. intros Hin.
    rewrite Forall_forall in H. now destruct (H _ Hin).
Qed.

(** The characters of an integer text. *)
Lemma digits_from_chars digit body ds :
  digits_from digit body ds ->
  Forall (fun x => x = underscore \/ exists d, digit x d) body.
Proof.
  induction 1 as [|c d r ds Hc Hr IH|c d r ds Hc Hr IH].
  - constructor.
  - constructor; [right; now exists d|exact IH].
  - constructor; [now left|]. constructor; [right; now exists d|exact IH].
Qed.

Lemma numeral_chars digit body ds :
  numeral digit body ds ->
  Forall (fun x => x = underscore \/ exists d, digit x d) body.
Proof.
  intros H. inversion H as [c d r ds2 Hc Hr]; subst.
  constructor; [eauto|]. now apply (digits_from_chars digit r ds2).
Qed.

Lemma ascii_integer_text_clean a n :
  integer_text_of c_isspace ascii_digit a n ->
  Forall (fun x => x <> 63%N /\ x <> 127%N) a.
Proof.
  intros (ws1 & sg & body & ws2 & sigma & ds & -> & Hws1 & Hws2 & Hsg & Hb & _).
  assert (Hsp : forall ws, forallb c_isspace ws = true ->
                  Forall (fun x => x <> 63%N /\ x <> 127%N) ws).
  { intros ws Hws. rewrite forallb_forall in Hws. apply Forall_forall.
    intros x Hx. apply list_elem_of_In, Hws in Hx. revert Hx. unfold c_isspace.
    rewrite !orb_true_iff, !andb_true_iff, !N.leb_le, !N.eqb_eq. lia. }
  rewrite !Forall_app. repeat split; auto.
  - destruct Hsg; repeat constructor; discriminate.
  - apply numeral_chars in Hb. eapply Forall_impl; [exact Hb|].
    intros x [->|[d [Hr _]%ascii_digit_range]]; [split; discriminate|lia].
Qed.

(** *** From the transformed text back to the text *)

Lemma spaces_back x :
  forallb c_isspace (map to_ascii x) = true -> forallb isspace x = true.
Proof.
  induction x as [|c x IH]; [reflexivity|].
  cbn [map forallb]. intros [Hc Hx]%andb_prop.
  rewrite (to_ascii_space c Hc). now apply IH.
Qed.

Lemma sign_back x sigma : sign_text (map to_ascii x) sigma -> sign_text x sigma.
Proof.
  intros H. inversion H as [Hx|Hx|Hx].
  - symmetry in Hx. apply map_eq_nil in Hx. subst x. constructor.
  - symmetry in Hx. apply map_eq_cons in Hx as (c & r & -> & Hc & Hr).
    apply map_eq_nil in Hr. subst r.
    apply to_ascii_exact in Hc; try lia. subst c. constructor.
  - symmetry in Hx. apply map_eq_cons in Hx as (c & r & -> & Hc & Hr).
    apply map_eq_nil in Hr. subst r.
    apply to_ascii_exact in Hc; try lia. subst c. constructor.
Qed.

Lemma digits_from_back a ds :
  digits_from ascii_digit a ds ->
  forall x, a = map to_ascii x -> digits_from unicode_digit x ds.
Proof.
  induction 1 as [|c d r ds Hc Hr IH|c d r ds Hc Hr IH]; intros x Hx.
  - symmetry in Hx. apply map_eq_nil in Hx. subst x. constructor.
  - symmetry in Hx. apply map_eq_cons in Hx as (c2 & r2 & -> & <- & <-).
    constructor; [now apply to_ascii_digit_inv in Hc|now apply IH].
  - symmetry in Hx. apply map_eq_cons in Hx as (u & r2 & -> & Hu & Hx).
    apply map_eq_cons in Hx as (c2 & r3 & -> & <- & <-).
    apply to_ascii_exact in Hu; try (unfold underscore; lia). subst u.
    constructor; [now apply to_ascii_digit_inv in Hc|now apply IH].
Qed.

Lemma numeral_back x ds :
  numeral ascii_digit (map to_ascii x) ds -> numeral unicode_digit x ds.
Proof.
  intros H. inversion H as [c d r ds2 Hc Hr Hx]; subst.
  symmetry in Hx. apply map_eq_cons in Hx as (c2 & r2 & -> & <- & <-).
  constructor; [now apply to_ascii_digit_inv in Hc|].
  now apply (digits_from_back _ _ Hr).
Qed.

Lemma integer_text_back s n :
  integer_text_of c_isspace ascii_digit (map to_ascii s) n -> integer_text s n.
Proof.
  intros (ws1 & sg & body & ws2 & sigma & ds & Heq & Hws1 & Hws2 & Hsg & Hb & Hlen & ->).
  apply map_eq_app in Heq as (x1 & s1 & -> & <- & Heq).
  apply map_eq_app in Heq as (x2 & s2 & -> & <- & Heq).
  apply map_eq_app in Heq as (x3 & x4 & -> & <- & <-).
  exists x1, x2, x3, x4, sigma, ds.
  repeat split; auto using spaces_back, sign_back, numeral_back.
Qed.

(** *** And from the text to the transformed text *)

Lemma unicode_digit_transformable c d : unicode_digit c d -> transformable c.
Proof. intros (m & Hm & _). right. right. congruence. Qed.

Lemma digits_from_forth x ds :
  digits_from unicode_digit x ds ->
  digits_from ascii_digit (map to_ascii x) ds /\ Forall transformable x.
Proof.
  induction 1 as [|c d r ds Hc Hr [IH1 IH2]|c d r ds Hc Hr [IH1 IH2]].
  - split; constructor.
  - split; [|constructor; [now apply (unicode_digit_transformable c d)|exact IH2]].
    cbn [map]. constructor; [now apply to_ascii_digit|exact IH1].
  - split.
    + cbn [map]. rewrite (to_ascii_low underscore) by (unfold underscore; lia).
      constructor; [now apply to_ascii_digit|exact IH1].
    + constructor; [left; unfold underscore; lia|].
      constructor; [now apply (unicode_digit_transformable c d)|exact IH2].
Qed.

Lemma numeral_forth x ds :
  numeral unicode_digit x ds ->
  numeral ascii_digit (map to_ascii x) ds /\ Forall transformable x.
Proof.
  intros H. inversion H as [c d r ds2 Hc Hr]; subst.
  destruct (digits_from_forth r ds2 Hr) as [H1 H2].
  split; [|constructor; [now apply (unicode_digit_transformable c d)|exact H2]].
  cbn [map]. constructor; [now apply to_ascii_digit|exact H1].
Qed.

Lemma sign_forth sg sigma :
  sign_text sg sigma -> map to_ascii sg = sg /\ Forall transformable sg.
Proof.
  intros H. destruct H; split; try reflexivity; repeat constructor; left; lia.
Qed.

(** ** [int] reads the integer texts, and nothing else *)

Lemma py_int_sound s n : py_int s = Ok n -> integer_text s n.
Proof.
  unfold py_int. intros H. apply PyLong_FromString_sound in H.
  assert (Hall : Forall transformable s)
    by now apply to_ascii_digits_clean, (ascii_integer_text_clean _ n).
  rewrite (to_ascii_digits_all s Hall) in H. now apply integer_text_back.
Qed.

Lemma py_int_complete sg body sigma ds :
  sign_text sg sigma -> numeral unicode_digit body ds ->
  (length ds <= max_str_digits)%nat ->
  py_int (sg ++ body) = Ok (sigma * decimal_value ds).
Proof.
  intros Hsg Hb Hlen. unfold py_int.
  destruct (sign_forth sg sigma Hsg) as [Hsg1 Hsg2].
  destruct (numeral_forth body ds Hb) as [Hb1 Hb2].
  rewrite to_ascii_digits_all by (apply Forall_app; now split).
  rewrite map_app, Hsg1.
  now apply PyLong_FromString_complete.
Qed.

(** ** Stripping an integer text *)

Lemma strip_between (ws1 m ws2 : list N) c r :
  forallb isspace ws1 = true -> forallb isspace ws2 = true ->
  m = c :: r -> isspace c = false -> lstrip (rev m) = rev m ->
  strip (ws1 ++ m ++ ws2) = m.
Proof.
  intros H1 H2 Hm Hc Hlast. unfold strip.
  rewrite (lstrip_app_spaces ws1 _ H1).
  assert (Hl : lstrip (m ++ ws2) = m ++ ws2) by (subst m; cbn; now rewrite Hc).
  rewrite Hl. unfold rstrip. rewrite rev_app_distr.
  rewrite lstrip_app_spaces.
  - now rewrite Hlast, rev_involutive.
  - rewrite forallb_forall in *. intros x Hx. apply H2. now apply in_rev.
Qed.

Lemma unicode_digit_not_space c d : unicode_digit c d -> isspace c = false.
Proof. intros (m & Hm & _). now apply (digit_not_space c m). Qed.

Lemma lstrip_fixed_app (s t : list N) :
  lstrip s = s -> s <> [] -> lstrip (s ++ t) = s ++ t.
Proof. intros Hs Hne. rewrite lstrip_app_keep; now rewrite Hs. Qed.

Lemma snoc_not_nil {A} (l : list A) x : l ++ [x] <> [].
Proof. now destruct l. Qed.

Lemma digits_from_last c d r ds :
  unicode_digit c d -> digits_from unicode_digit r ds ->
  lstrip (rev (c :: r)) = rev (c :: r).
Proof.
  intros Hc Hr. revert c d Hc.
  induction Hr as [|c2 d2 r ds Hc2 Hr IH|c2 d2 r ds Hc2 Hr IH]; intros c d Hc.
  - cbn. now rewrite (unicode_digit_not_space c d Hc).
  - specialize (IH c2 d2 Hc2). cbn [rev] in *.
    apply lstrip_fixed_app; [exact IH|apply snoc_not_nil].
  - specialize (IH c2 d2 Hc2). cbn [rev] in *.
    apply lstrip_fixed_app; [|apply snoc_not_nil].
    apply lstrip_fixed_app; [exact IH|apply snoc_not_nil].
Qed.

Lemma strip_integer_text ws1 sg body ws2 sigma ds :
  forallb isspace ws1 = true -> forallb isspace ws2 = true ->
  sign_text sg sigma -> numeral unicode_digit body ds ->
  strip (ws1 ++ sg ++ body ++ ws2) = sg ++ body.
Proof.
  intros H1 H2 Hsg Hb. inversion Hb as [c d r ds2 Hc Hr]; subst.
  assert (Hlast := digits_from_last c d r ds2 Hc Hr).
  assert (Hsp := unicode_digit_not_space c d Hc).
  rewrite (app_assoc sg).
  destruct Hsg; cbn [app].
  - now apply (strip_between ws1 (c :: r) ws2 c r).
  - apply (strip_between ws1 (43%N :: c :: r) ws2 43%N (c :: r)); auto.
    cbn [rev] in *. apply lstrip_fixed_app; [exact Hlast|apply snoc_not_nil].
  - apply (strip_between ws1 (45%N :: c :: r) ws2 45%N (c :: r)); auto.
    cbn [rev] in *. apply lstrip_fixed_app; [exact Hlast|apply snoc_not_nil].
Qed.

Lemma strip_split (s : list N) :
  exists ws1 ws2, s = ws1 ++ strip s ++ ws2
                  /\ forallb isspace ws1 = true /\ forallb isspace ws2 = true.
Proof.
  destruct (lstrip_split s) as (ws1 & H1 & Hws1).
  destruct (rstrip_split (lstrip s)) as (ws2 & H2 & Hws2).
  exists ws1, ws2. unfold strip. repeat split; try assumption.
  now rewrite <- H2.
Qed.

(** The integer texts, whitespace around them or not. *)
Lemma integer_text_strip s n : integer_text s n <-> integer_text (strip s) n.
Proof.
  split.
  - intros (ws1 & sg & body & ws2 & sigma & ds & -> & Hws1 & Hws2 & Hsg & Hb & Hlen & ->).
    rewrite (strip_integer_text ws1 sg body ws2 sigma ds) by assumption.
    exists [], sg, body, [], sigma, ds. rewrite app_nil_r. now repeat split.
  - intros (ws1 & sg & body & ws2 & sigma & ds & Heq & Hws1 & Hws2 & Hsg & Hb & Hlen & ->).
    destruct (strip_split s) as (w1 & w2 & Hs & Hw1 & Hw2).
    exists (w1 ++ ws1), sg, body, (ws2 ++ w2), sigma, ds.
    rewrite !List.forallb_app, Hw1, Hw2, Hws1, Hws2.
    repeat split; try assumption.
    rewrite Hs at 1. rewrite Heq, <- !app_assoc. reflexivity.
Qed.

(** [parse_age] accepts the integer texts of an integer from 1 to 120. *)
Lemma parse_age_integer_text text n :
  parse_age text = Ok (Some n) <-> integer_text text n /\ 1 <= n <= 120.
Proof.
  rewrite parse_age_some. split; intros [H Hr]; split; try assumption.
  - now apply integer_text_strip, py_int_sound.
  - destruct H as (ws1 & sg & body & ws2 & sigma & ds & -> & Hws1 & Hws2 & Hsg & Hb & Hlen & ->).
    rewrite (strip_integer_text ws1 sg body ws2 sigma ds) by assumption.
    now apply py_int_complete.
Qed.

(** ** An age is never a command *)

(** An integer text starts, whitespace apart, with a sign or a digit. *)
Lemma integer_text_first s n rest : integer_text s n -> lstrip s <> slash :: rest.
Proof.
  intros (ws1 & sg & body & ws2 & sigma & ds & -> & Hws1 & Hws2 & Hsg & Hb & _).
  rewrite (lstrip_app_spaces ws1 _ Hws1).
  inversion Hb as [c d r ds2 Hc Hr]; subst.
  assert (Hsp := unicode_digit_not_space c d Hc).
  destruct Hsg; cbn [app].
  - rewrite (lstrip_fixed _ c _ eq_refl Hsp). intros [= -> _].
    destruct Hc as (m & Hm & _). vm_compute in Hm. discriminate.
  - rewrite (lstrip_fixed _ 43%N _ eq_refl eq_refl). discriminate.
  - rewrite (lstrip_fixed _ 45%N _ eq_refl eq_refl). discriminate.
Qed.

Lemma age_text_reaches_states e chat user t age :
  parse_age t = Ok (Some age) ->
  reaches_states e {| chat_id := chat; user_id := user; body := Plain (Some t) |}.
Proof.
  intros H. apply plain_reaches_states. intros rest.
  apply parse_age_integer_text in H as [H _]. now apply (integer_text_first t age).
Qed.

(** ** The two commands that read the table *)

Lemma on_export_csv_done message e w :
  db_online e = true ->
  EXPORTS_DIR ∈ dirs (fs w) ->
  export_path (now e) ∉ dirs (fs w) ->
  on_export_csv message e w =
  (Ok tt,
   {| storage := storage w; db := db w;
      fs := {| dirs := dirs (fs w);
               files := <[export_path (now e) :=
                            csv_text (order_by_id_asc (students (db w)))]>
                          (files (fs w)) |};
      effects := effects w ++
        [db_opened true;
         document_sent (chat_id message) (export_path (now e)) export_caption] |}).
Proof.
  intros Hon Hd Hp. unfold on_export_csv, try_except, bind at 1.
  rewrite (export_students_csv_ok e w Hon Hd Hp).
  unfold answer_document, emit, emitting. cbn [storage db fs effects].
  now rewrite <- app_assoc.
Qed.

Lemma on_export_csv_failed message e w :
  db_opens e = false
  \/ EXPORTS_DIR ∉ dirs (fs w) \/ export_path (now e) ∈ dirs (fs w) ->
  on_export_csv message e w =
  (Ok tt,
   emitting [db_opened (db_opens e); logged_exception export_failed_log;
             answer_sent (chat_id message) export_failed] w).
Proof.
  intros Hbad. unfold on_export_csv, try_except, bind at 1.
  destruct (db_opens e) eqn:Hon.
  - destruct Hbad as [Hbad|Hbad]; [discriminate|].
    rewrite (export_students_csv_no_file e w Hon Hbad).
    unfold is_Exception. unfold_handler. now rewrite <- !app_assoc.
  - rewrite (export_students_csv_offline e w Hon).
    unfold is_Exception. unfold_handler. now rewrite <- !app_assoc.
Qed.

(** The table is not there: the export fails after the file was opened,
    which is left behind, empty. *)
Lemma on_export_csv_no_table message e w :
  db_opens e = true -> db_online e = false ->
  EXPORTS_DIR ∈ dirs (fs w) ->
  export_path (now e) ∉ dirs (fs w) ->
  on_export_csv message e w =
  (Ok tt,
   {| storage := storage w; db := db w;
      fs := {| dirs := dirs (fs w);
               files := <[export_path (now e) := []]> (files (fs w)) |};
      effects := effects w ++
        [db_opened true; logged_exception export_failed_log;
         answer_sent (chat_id message) export_failed] |}).
Proof.
  intros Hopen Hoff Hd Hp. unfold on_export_csv, try_except, bind at 1.
  rewrite (export_students_csv_no_table e w Hopen Hoff Hd Hp).
  unfold is_Exception. unfold_handler. now rewrite <- !app_assoc.
Qed.

(** Whatever happens, the export command sends the document or the failure
    answer. *)
Lemma on_export_csv_sends message e w :
  exists f xs,
    on_export_csv message e w =
    (Ok tt, {| storage := storage w; db := db w; fs := f;
               effects := effects w ++ xs |})
    /\ (xs = [db_opened true;
              document_sent (chat_id message) (export_path (now e)) export_caption]
        \/ xs = [db_opened (db_opens e); logged_exception export_failed_log;
                 answer_sent (chat_id message) export_failed]).
Proof.
  destruct (db_opens e) eqn:Hopen.
  - destruct (decide (EXPORTS_DIR ∈ dirs (fs w) /\ export_path (now e) ∉ dirs (fs w)))
      as [[Hd Hp]|Hno].
    + destruct (db_online e) eqn:Hon.
      * rewrite (on_export_csv_done message e w Hon Hd Hp).
        eexists _, _. split; [reflexivity|now left].
      * rewrite (on_export_csv_no_table message e w Hopen Hon Hd Hp).
        eexists _, _. split; [reflexivity|now right].
    + rewrite on_export_csv_failed by (right; now apply bad_directory_cases).
      rewrite Hopen. eexists _, _. split; [reflexivity|now right].
  - rewrite on_export_csv_failed by now left.
    rewrite Hopen. eexists _, _. split; [reflexivity|now right].
Qed.

Lemma feed_students_idle e message w :
  commanded e message Students = true ->
  state_of w (sender message) = None ->
  feed_update e message w = snd (on_students message e w).
Proof.
  intros Hb Hs. unfold feed_update. now rewrite (resolve_students_idle _ _ _ Hb Hs).
Qed.

Lemma feed_export_idle e message w :
  commanded e message ExportCsv = true ->
  state_of w (sender message) = None ->
  feed_update e message w = snd (on_export_csv message e w).
Proof.
  intros Hb Hs. unfold feed_update. now rewrite (resolve_export_idle _ _ _ Hb Hs).
Qed.

Lemma feed_help e message w :
  commanded e message Help = true ->
  feed_update e message w = emitting [answer_sent (chat_id message) help_text] w.
Proof.
  intros Hb. unfold feed_update. now rewrite (resolve_help _ _ _ Hb).
Qed.

Lemma join_cons sep p q r : join sep (p :: q :: r) = p ++ sep ++ join sep (q :: r).
Proof. reflexivity. Qed.

(** *** The lines of the listing *)

Lemma lines_from_last cur (t : list N) :
  one_line t -> rev cur ++ t <> [] -> lines_from cur t = [rev cur ++ t].
Proof.
  revert cur. induction t as [|c t IH]; intros cur Ht Hne.
  - rewrite app_nil_r in *. cbn [lines_from].
    destruct cur as [|x cur]; [now destruct Hne|reflexivity].
  - unfold one_line in *. cbn [lines_from].
    destruct (c =? line_feed)%N eqn:Hc.
    + apply N.eqb_eq in Hc. subst c. destruct Ht. apply elem_of_cons. now left.
    + rewrite IH.
      * cbn [rev]. now rewrite <- app_assoc.
      * intros Hin. apply Ht. apply elem_of_cons. now right.
      * cbn [rev]. rewrite <- app_assoc. now destruct (rev cur).
Qed.

Lemma lines_join parts :
  Forall (fun p => one_line p /\ p <> []) parts ->
  lines (join nl parts) = parts.
Proof.
  unfold lines. induction 1 as [|p parts [Hp Hne] Hall IH]; [reflexivity|].
  destruct parts as [|q parts].
  - cbn [join]. now rewrite (lines_from_last [] p Hp).
  - rewrite join_cons, (lines_from_line [] p _ Hp). cbn [rev app].
    now rewrite IH.
Qed.

Lemma literal_one_line (s : list N) :
  forallb (fun c => negb (c =? line_feed)%N) s = true -> one_line s.
Proof.
  unfold one_line. intros H Hin. rewrite forallb_forall in H.
  apply list_elem_of_In, H in Hin. unfold line_feed in Hin. discriminate.
Qed.

Lemma student_line_one_line r :
  one_line (row_name r) -> one_line (row_grade r) ->
  one_line (student_line r) /\ student_line r <> [].
Proof.
  destruct r as [[[id name] age] grade]. cbn [row_name row_grade student_line].
  intros Hn Hg. split.
  - repeat apply one_line_app; auto using str_of_int_one_line;
      apply literal_one_line; vm_compute; reflexivity.
  - assert (Ht : exists t, lit "• #" = 8226%N :: t) by (eexists; vm_compute; reflexivity).
    destruct Ht as (t & ->). discriminate.
Qed.

Lemma list_title_one_line : one_line list_title /\ list_title <> [].
Proof.
  split; [apply literal_one_line; vm_compute; reflexivity|].
  intros H. vm_compute in H. discriminate.
Qed.

Lemma take_nil_iff {A} n (l : list A) : take (S n) l = [] <-> l = [].
Proof. destruct l; cbn; split; congruence. Qed.

(** ** Adding a student and reading it back *)

Lemma add_student_online name age grade e w :
  db_online e = true -> fits_int64 age = true ->
  add_student name age grade e w =
  (Ok (next_rowid (db w)),
   {| storage := storage w;
      db := {| students := students (db w)
                           ++ [(next_rowid (db w), strip name, age, strip grade)];
               sqlite_sequence := next_rowid (db w) |};
      fs := fs w;
      effects := effects w ++ [db_opened true] |}).
Proof.
  intros Hon Hfit. unfold add_student. unfold_handler.
  rewrite (online_opens e Hon), Hon. cbn [forallb]. rewrite Hfit. cbn [andb].
  unfold insert_student. reflexivity.
Qed.

Lemma add_student_offline name age grade e w :
  db_online e = false ->
  add_student name age grade e w
  = (Raise sqlite3_Error, emitting [db_opened (db_opens e)] w).
Proof.
  intros Hoff. unfold add_student. unfold_handler. rewrite Hoff.
  now destruct (db_opens e).
Qed.

(** An age that SQLite cannot hold is refused when it is bound: nothing is
    inserted. *)
Lemma add_student_overflow name age grade e w :
  db_online e = true -> fits_int64 age = false ->
  add_student name age grade e w = (Raise OverflowError, emitting [db_opened true] w).
Proof.
  intros Hon Hfit. unfold add_student. unfold_handler.
  rewrite (online_opens e Hon), Hon. cbn [forallb]. now rewrite Hfit.
Qed.

Lemma next_rowid_above d r : r ∈ students d -> row_id r < next_rowid d.
Proof. intros Hr. apply max_rowid_ge in Hr. unfold next_rowid. lia. Qed.

(** The row of the largest id comes first in descending order. *)
Lemma order_by_id_desc_newest rows new :
  (forall r, r ∈ rows -> row_id r < row_id new) ->
  exists rest, order_by_id_desc (rows ++ [new]) = new :: rest
               /\ rest ≡ₚ rows.
Proof.
  intros Hnew.
  assert (Hperm := order_by_id_desc_perm (rows ++ [new])).
  assert (Hsorted := order_by_id_desc_sorted (rows ++ [new])).
  destruct (order_by_id_desc (rows ++ [new])) as [|h rest].
  - apply Permutation_nil in Hperm. now destruct rows.
  - apply StronglySorted_inv in Hsorted as [_ Hh]. rewrite Forall_forall in Hh.
    assert (Hin : new ∈ h :: rest).
    { rewrite Hperm. apply elem_of_app. right. now apply list_elem_of_singleton. }
    assert (Hhin : h ∈ rows ++ [new]).
    { rewrite <- Hperm. apply elem_of_cons. now left. }
    assert (Heq : h = new).
    { apply elem_of_app in Hhin as [Hhin|Hhin]; [|now apply list_elem_of_singleton in Hhin].
      apply Hnew in Hhin.
      apply elem_of_cons in Hin as [Hin|Hin]; [congruence|].
      apply Hh in Hin. unfold id_desc in Hin. lia. }
    subst h. exists rest. split; [reflexivity|].
    rewrite (Permutation_app_comm rows [new]) in Hperm. cbn [app] in Hperm.
    now apply Permutation_cons_inv in Hperm.
Qed.

(** ** Commands in the middle of a dialogue *)

Lemma text_or_empty_command chat user c :
  text_or_empty {| chat_id := chat; user_id := user; body := Command c |}
  = command_text c.
Proof. rewrite text_or_empty_default. reflexivity. Qed.

Lemma command_text_stripped c : strip (command_text c) = command_text c.
Proof. destruct c; vm_compute; reflexivity. Qed.

Lemma command_text_not_empty c : command_text c <> [].
Proof. destruct c; vm_compute; discriminate. Qed.

Lemma command_text_no_age c : parse_age (command_text c) = Ok None.
Proof. destruct c; vm_compute; reflexivity. Qed.

(** ** What one update sends, and what it adds to the table *)

Ltac sent_here :=
  eexists; split; [reflexivity|]; split;
  [ repeat (constructor; [first [left; reflexivity|right; reflexivity]|]);
    constructor
  | cbn [List.filter is_sent addressed length]; lia ].

Ltac read_effects Heq :=
  apply (f_equal effects) in Heq; unfold emitting in Heq; cbn [snd effects] in Heq;
  apply app_inv_head in Heq; subst; cbn [effects].

Lemma step_sends e message w w2 :
  step e message w w2 ->
  w2 = feed_update e message w ->
  exists xs,
    effects w2 = effects w ++ xs
    /\ Forall (fun x => addressed x = None \/ addressed x = Some (chat_id message)) xs
    /\ (length (List.filter is_sent xs) <= 1)%nat.
Proof.
  intros H Heq.
  destruct H.
  15: { exists []. rewrite app_nil_r. split; [reflexivity|]. split; [constructor|cbn; lia]. }
  14: { match goal with Hc : _ \/ _ |- _ => destruct Hc as [Hb|Hb] end.
        - rewrite (feed_students_idle e message w Hb), on_students_spec in Heq
            by assumption.
          destruct (db_online e); read_effects Heq; sent_here.
        - rewrite (feed_export_idle e message w Hb) in Heq by assumption.
          destruct (on_export_csv_sends message e w) as (f2 & ys & Hrun & [Hys|Hys]);
            rewrite Hrun in Heq; read_effects Heq; sent_here. }
  9: { exists []. rewrite app_nil_r. split; [reflexivity|]. split; [constructor|cbn; lia]. }
  all: unfold put, emitting; cbn [effects]; sent_here.
Qed.

Lemma step_adds_valid_row e message w w2 :
  step e message w w2 ->
  consistent (record_of (storage w) (key (context_of message))) ->
  students (db w2) = students (db w)
  \/ exists name age grade,
       students (db w2) = students (db w) ++ [(next_rowid (db w), name, age, grade)]
       /\ valid_row (next_rowid (db w), name, age, grade).
Proof.
  intros H Hc. destruct H; try (now left).
  right.
  destruct (final_check_consistent _ Hc) as (n & a & _ & _ & Hne & Hstrip & Hage & Hf);
    [assumption|].
  match goal with
  | H1 : final_check _ = Some _, H2 : final_check _ = Some _ |- _ =>
      rewrite H1 in H2; injection H2 as <- <-
  end.
  eexists _, _, _. cbn [db students]. split; [reflexivity|].
  unfold valid_row. cbn [row_name row_age row_grade].
  rewrite !strip_idemp, Hstrip. repeat split; try assumption; lia.
Qed.

(** ** Reading the exported fields back *)

Lemma split_from_field sep cur (a rest : list N) :
  sep ∉ a ->
  split_from sep cur (a ++ [sep] ++ rest) = (rev cur ++ a) :: split_from sep [] rest.
Proof.
  revert cur. induction a as [|c a IH]; intros cur Ha.
  - cbn [app split_from]. now rewrite N.eqb_refl, app_nil_r.
  - cbn [app split_from].
    destruct (c =? sep)%N eqn:Hc.
    + apply N.eqb_eq in Hc. subst c. destruct Ha. apply elem_of_cons. now left.
    + rewrite IH.
      * cbn [rev]. now rewrite <- app_assoc.
      * intros Hin. apply Ha. apply elem_of_cons. now right.
Qed.

Lemma split_from_last sep cur (a : list N) :
  sep ∉ a -> split_from sep cur a = [rev cur ++ a].
Proof.
  revert cur. induction a as [|c a IH]; intros cur Ha.
  - cbn [split_from]. now rewrite app_nil_r.
  - cbn [split_from].
    destruct (c =? sep)%N eqn:Hc.
    + apply N.eqb_eq in Hc. subst c. destruct Ha. apply elem_of_cons. now left.
    + rewrite IH.
      * cbn [rev]. now rewrite <- app_assoc.
      * intros Hin. apply Ha. apply elem_of_cons. now right.
Qed.

Lemma str_of_int_no_comma n : comma_point ∉ str_of_int n.
Proof.
  assert (Hd : forall d, comma_point ∉ uint_digits d).
  { intros d Hin. assert (H := uint_digits_are_digits d).
    rewrite forallb_forall in H. apply list_elem_of_In, H in Hin. discriminate. }
  unfold str_of_int. destruct (Z.to_int n) as [d|d]; [apply Hd|].
  intros Hin. apply elem_of_cons in Hin as [Hin|Hin]; [discriminate|].
  now apply (Hd d).
Qed.

Lemma csv_line_fields r :
  comma_point ∉ row_name r -> comma_point ∉ row_grade r ->
  split_on comma_point (csv_line r) = printed_fields r.
Proof.
  destruct r as [[[id name] age] grade].
  cbn [row_name row_grade csv_line printed_fields row_id row_age].
  intros Hn Hg. unfold split_on.
  change comma with ([comma_point] : list N).
  rewrite (split_from_field comma_point [] (str_of_int id)) by apply str_of_int_no_comma.
  rewrite (split_from_field comma_point [] name) by assumption.
  rewrite (split_from_field comma_point [] (str_of_int age)) by apply str_of_int_no_comma.
  rewrite (split_from_last comma_point [] grade) by assumption.
  reflexivity.
Qed.

(** ** Where the table changes *)

Lemma step_changes_table e message w w2 :
  step e message w w2 ->
  students (db w2) <> students (db w) ->
  state_of w (sender message) = Some StudentForm.grade
  /\ reaches_states e message
  /\ strip (text_or_empty message) <> []
  /\ db_online e = true
  /\ state_of w2 (sender message) = None
  /\ exists name age,
       final_check (data_of w (sender message)) = Some (name, age)
       /\ students (db w2)
          = students (db w)
            ++ [(next_rowid (db w), strip name, age, strip (text_or_empty message))].
Proof.
  intros H Hne. destruct H; try (exfalso; apply Hne; reflexivity).
  unfold state_of, data_of, sender. cbn [storage db students].
  rewrite record_of_insert_eq, strip_idemp.
  split; [assumption|]. split; [assumption|]. split; [assumption|].
  split; [assumption|]. split; [reflexivity|].
  exists name, age. split; [assumption|reflexivity].
Qed.

(** ** One answer for an update *)

Ltac not_unanswered Hu :=
  exfalso; destruct Hu as [Hs [Hno|[Ht Hoff]]];
  [ unfold state_of, sender in Hs;
    first [ congruence
          | match goal with
            | Hc : commanded _ _ ?c = true |- _ => rewrite (Hno c) in Hc; discriminate
            end ]
  | unfold state_of, sender in Hs;
    first [ congruence
          | match goal with
            | Hc : commanded ?e ?m ?c = true |- _ =>
                rewrite (commanded_other e m Students c Ht) in Hc by discriminate;
                discriminate
            end ] ].

Ltac one_answer :=
  eexists; split; [reflexivity|]; split;
  [ intros Hu; not_unanswered Hu
  | intros _; cbn [List.filter is_sent addressed]; eexists; split; reflexivity ].

Lemma step_answers e message w w2 :
  step e message w w2 ->
  w2 = feed_update e message w ->
  consistent (record_of (storage w) (sender message)) ->
  exists xs,
    effects w2 = effects w ++ xs
    /\ (unanswered e message w -> List.filter is_sent xs = [])
    /\ (~ unanswered e message w ->
          exists x, List.filter is_sent xs = [x]
                    /\ addressed x = Some (chat_id message)).
Proof.
  intros H Heq Hc. unfold sender in Hc.
  destruct H.
  15: { exists []. rewrite app_nil_r. split; [reflexivity|]. split; [reflexivity|].
        intros Hn. exfalso. apply Hn. split; [assumption|]. left.
        match goal with Hr : reaches_states _ _ |- _ => destruct Hr as (? & ? & ?) end.
        intros []; assumption. }
  14: { match goal with Hd : _ \/ _ |- _ => destruct Hd as [Hb|Hb] end.
        - rewrite (feed_students_idle e message w Hb), on_students_spec in Heq
            by assumption.
          destruct (db_online e) eqn:Hon; read_effects Heq.
          + one_answer.
          + eexists. split; [reflexivity|]. split; [reflexivity|].
            intros Hn. exfalso. apply Hn. split; [assumption|]. right. now split.
        - rewrite (feed_export_idle e message w Hb) in Heq by assumption.
          destruct (on_export_csv_sends message e w) as (f2 & ys & Hrun & [Hys|Hys]);
            rewrite Hrun in Heq; read_effects Heq; one_answer. }
  13: { exfalso.
        match goal with
        | Hst : rec_state _ = Some StudentForm.grade |- _ =>
            destruct (final_check_consistent _ Hc Hst) as (? & ? & _ & _ & _ & _ & Hage & Hf)
        end.
        match goal with
        | Hf2 : final_check _ = Some (_, ?a), Hfit : fits_int64 ?a = false |- _ =>
            rewrite Hf2 in Hf; injection Hf as <- <-;
            rewrite (age_fits_int64 _ Hage) in Hfit; discriminate
        end. }
  9: { exfalso.
       match goal with
       | Hst : rec_state _ = Some StudentForm.grade |- _ =>
           destruct (final_check_consistent _ Hc Hst) as (? & ? & ? & _)
       end.
       congruence. }
  all: unfold put, emitting; cbn [effects]; one_answer.
Qed.

(** ** The names of the exported files *)

Lemma zero_padded_inj w : forall n m,
  0 <= n < 10 ^ Z.of_nat w -> 0 <= m < 10 ^ Z.of_nat w ->
  zero_padded w n = zero_padded w m -> n = m.
Proof.
  induction w as [|w IH]; intros n m Hn Hm Heq.
  - cbn in Hn, Hm. lia.
  - rewrite Nat2Z.inj_succ, Z.pow_succ_r in Hn, Hm by lia.
    cbn [zero_padded] in Heq. apply app_inj_tail in Heq as [Hq Hr].
    assert (Hn10 := Z.mod_pos_bound n 10 ltac:(lia)).
    assert (Hm10 := Z.mod_pos_bound m 10 ltac:(lia)).
    assert (Hmod : n mod 10 = m mod 10) by lia.
    assert (Hdiv : n / 10 = m / 10).
    { apply IH; [| |exact Hq].
      - split; [apply Z.div_pos; lia|apply Z.div_lt_upper_bound; lia].
      - split; [apply Z.div_pos; lia|apply Z.div_lt_upper_bound; lia]. }
    rewrite (Z.div_mod n 10), (Z.div_mod m 10) by lia. now rewrite Hdiv, Hmod.
Qed.

Lemma zero_padded_app_inj w n m (s t : list N) :
  0 <= n < 10 ^ Z.of_nat w -> 0 <= m < 10 ^ Z.of_nat w ->
  zero_padded w n ++ s = zero_padded w m ++ t -> n = m /\ s = t.
Proof.
  intros Hn Hm Heq. apply app_inj_1 in Heq as [Hp Hs].
  - split; [now apply (zero_padded_inj w)|exact Hs].
  - now rewrite !(proj1 (zero_padded_digits _ _)).
Qed.

Lemma strftime_stamp_inj t1 t2 :
  valid_datetime t1 -> valid_datetime t2 ->
  strftime_stamp t1 = strftime_stamp t2 -> t1 = t2.
Proof.
  destruct t1 as [y1 mo1 d1 h1 mi1 s1], t2 as [y2 mo2 d2 h2 mi2 s2].
  unfold valid_datetime, strftime_stamp. cbn [year month day hour minute second].
  intros (Hy1 & Hmo1 & Hd1 & Hh1 & Hmi1 & Hs1) (Hy2 & Hmo2 & Hd2 & Hh2 & Hmi2 & Hs2) Heq.
  apply (zero_padded_app_inj 4) in Heq as [-> Heq]; [|cbn; lia|cbn; lia].
  apply (zero_padded_app_inj 2) in Heq as [-> Heq]; [|cbn; lia|cbn; lia].
  apply (zero_padded_app_inj 2) in Heq as [-> Heq]; [|cbn; lia|cbn; lia].
  apply app_inv_head in Heq.
  apply (zero_padded_app_inj 2) in Heq as [-> Heq]; [|cbn; lia|cbn; lia].
  apply (zero_padded_app_inj 2) in Heq as [-> Heq]; [|cbn; lia|cbn; lia].
  rewrite <- (app_nil_r (zero_padded 2 s1)), <- (app_nil_r (zero_padded 2 s2)) in Heq.
  apply (zero_padded_app_inj 2) in Heq as [-> _]; [|cbn; lia|cbn; lia].
  reflexivity.
Qed.

Lemma export_path_inj t1 t2 :
  valid_datetime t1 -> valid_datetime t2 ->
  export_path t1 = export_path t2 -> t1 = t2.
Proof.
  intros H1 H2 Heq. unfold export_path in Heq.
  apply app_inv_head in Heq.
  apply (f_equal (fun l => default [] (head l))) in Heq. cbn [head default] in Heq.
  unfold export_name in Heq. apply app_inv_head, app_inv_tail in Heq.
  now apply strftime_stamp_inj.
Qed.

(** ** Commands with arguments *)

Lemma word_app (s : list N) sp rest :
  forallb (fun c => negb (isspace c)) s = true -> isspace sp = true ->
  word (s ++ sp :: rest) = s.
Proof.
  intros Hs Hsp. induction s as [|c s IH]; cbn [app word forallb] in *.
  - now rewrite Hsp.
  - apply andb_prop in Hs as [Hc Hs]. apply negb_true_iff in Hc. rewrite Hc.
    now rewrite IH.
Qed.

Lemma word_all (s : list N) :
  forallb (fun c => negb (isspace c)) s = true -> word s = s.
Proof.
  intros Hs. induction s as [|c s IH]; [reflexivity|]. cbn [word forallb] in *.
  apply andb_prop in Hs as [Hc Hs]. apply negb_true_iff in Hc. rewrite Hc.
  now rewrite IH.
Qed.

Lemma command_text_word c :
  command_text c = slash :: command_name c
  /\ forallb (fun x => negb (isspace x)) (command_text c) = true
  /\ partition_at (command_name c) = (command_name c, []).
Proof. destruct c; vm_compute; repeat split. Qed.

Lemma extract_command_text c args :
  args = [] \/ (exists sp rest, args = sp :: rest /\ isspace sp = true) ->
  extract_command (command_text c ++ args) = Some (slash, command_name c, []).
Proof.
  intros Hargs. destruct (command_text_word c) as (Htext & Hword & Hpart).
  assert (Hfirst : first_word (command_text c ++ args) = Some (command_text c)).
  { unfold first_word.
    assert (Hl : lstrip (command_text c ++ args) = command_text c ++ args)
      by (rewrite Htext; reflexivity).
    rewrite Hl. rewrite Htext at 1. cbn [app not_]. f_equal.
    destruct Hargs as [->|(sp & rest & -> & Hsp)].
    - rewrite app_nil_r. now apply word_all.
    - now apply word_app. }
  unfold extract_command. rewrite Hfirst, Htext, Hpart. reflexivity.
Qed.

Lemma commanded_text e message c args :
  text_or_caption message = Some (command_text c ++ args) ->
  args = [] \/ (exists sp rest, args = sp :: rest /\ isspace sp = true) ->
  commanded e message c = true.
Proof.
  intros Ht Hargs. unfold commanded. rewrite Ht, (extract_command_text c args Hargs).
  destruct (command_text_word c) as (Htext & _). rewrite Htext. cbn [app not_ orb andb].
  rewrite N.eqb_refl. now apply bool_decide_eq_true.
Qed.

(** * The specification, claim by claim *)

(** C1. For every run of a start command followed by three texts, a name,
    an age and a grade that all pass validation, none of them being a
    command that [/start], [/help] or [/cancel] would take, from any world
    and while the database can be written at the last step: exactly one row
    is added, its name and grade are the stripped inputs and its age is the
    integer parsed from the age input; the last answer is the success
    message, and that message shows, each on its line, the id the table
    assigned in decimal, the stripped name, the age in decimal and the
    stripped grade; the session is gone afterwards. *)
Theorem dialogue_persists_inputs w e1 e2 e3 e4 start chat user
    (name_in age_in grade_in : str) age :
  chat_id start = chat -> user_id start = user ->
  commanded e1 start Start = true ->
  let named := {| chat_id := chat; user_id := user; body := Plain (Some name_in) |} in
  let aged := {| chat_id := chat; user_id := user; body := Plain (Some age_in) |} in
  let graded := {| chat_id := chat; user_id := user; body := Plain (Some grade_in) |} in
  reaches_states e2 named -> reaches_states e4 graded ->
  valid_input StudentForm.name name_in ->
  parse_age age_in = Ok (Some age) ->
  valid_input StudentForm.grade grade_in ->
  db_online e4 = true ->
  let w' := run [(e1, start); (e2, named); (e3, aged); (e4, graded)] w in
  let id := next_rowid (db w) in
  py_int (strip age_in) = Ok age
  /\ reaches_states e3 aged
  /\ students (db w') = students (db w) ++ [(id, strip name_in, age, strip grade_in)]
  /\ last (effects w')
     = Some (answer_sent chat (saved_message id (strip name_in) age (strip grade_in)))
  /\ saved_message id (strip name_in) age (strip grade_in)
     = lit "✅ Сохранено!" ++ nl ++ nl
       ++ lit "ID: " ++ str_of_int id ++ nl
       ++ lit "Имя: " ++ strip name_in ++ nl
       ++ lit "Возраст: " ++ str_of_int age ++ nl
       ++ lit "Класс: " ++ strip grade_in ++ nl ++ nl
       ++ lit "Чтобы добавить ещё — /start" ++ nl
       ++ lit "Посмотреть последние записи — /students"
  /\ record_of (storage w') (chat, user) = empty_record.
Proof.
  intros Hchat Huser Hstart named aged graded H2 H4 Hn Ha Hg Hon w' id. subst w' id.
  assert (H3 : reaches_states e3 aged)
    by now apply (age_text_reaches_states e3 chat user age_in age).
  subst named aged graded.
  rewrite (full_dialogue w e1 e2 e3 e4 start chat user name_in age_in grade_in age
             Hchat Huser Hstart H2 H3 H4 Hn Ha Hg Hon).
  cbn [db students effects storage].
  split; [now apply parse_age_some in Ha|]. split; [exact H3|].
  split; [reflexivity|]. split; [now rewrite last_app|].
  split; [reflexivity|apply record_of_insert_eq].
Qed.

Lemma dialogue_persists_inputs_witness :
  students (db (run [ (online, sends 1 Start); (online, says 1 " Ann ");
                      (online, says 1 "10"); (online, says 1 "4B ") ] fresh_world))
  = [(1, lit "Ann", 10, lit "4B")]
  /\ last (effects (run [ (online, sends 1 Start); (online, says 1 " Ann ");
                          (online, says 1 "10"); (online, says 1 "4B ") ] fresh_world))
     = Some (answer_sent 1
               (lit "✅ Сохранено!" ++ nl ++ nl
                ++ lit "ID: 1" ++ nl
                ++ lit "Имя: Ann" ++ nl
                ++ lit "Возраст: 10" ++ nl
                ++ lit "Класс: 4B" ++ nl ++ nl
                ++ lit "Чтобы добавить ещё — /start" ++ nl
                ++ lit "Посмотреть последние записи — /students")).
Proof.
  destruct (dialogue_persists_inputs fresh_world online online online online
              (sends 1 Start) 1 1 (lit " Ann ") (lit "10") (lit "4B ") 10)
    as (_ & _ & Hrows & Hlast & Htext & _).
  - reflexivity.
  - reflexivity.
  - reflexivity.
  - vm_compute. repeat split.
  - vm_compute. repeat split.
  - vm_compute. discriminate.
  - vm_compute. reflexivity.
  - vm_compute. discriminate.
  - reflexivity.
  - split; [exact Hrows|]. unfold says. rewrite Hlast, Htext.
    vm_compute. reflexivity.
Defined.

(** C2. [parse_age] never raises. It returns an integer exactly when the
    text is a base-10 integer text (optional sign, decimal digits with
    single underscores allowed between them, whitespace allowed around) of
    an integer from 1 to 120, which is what [int] reads in the stripped
    text, and it returns that integer; for every other text it returns
    [None], as for ["0"], ["121"], ["-5"], [""], ["5.5"] and ["abc"]. Every
    integer from 1 to 120, written in decimal, is accepted. *)
Theorem parse_age_accepts_exactly :
  (forall text, exists r, parse_age text = Ok r)
  /\ (forall text n,
        parse_age text = Ok (Some n) <-> integer_text text n /\ 1 <= n <= 120)
  /\ (forall text n,
        parse_age text = Ok (Some n) <-> py_int (strip text) = Ok n /\ 1 <= n <= 120)
  /\ (forall text,
        parse_age text = Ok None
        <-> ~ exists n, integer_text text n /\ 1 <= n <= 120)
  /\ Forall (fun text => parse_age text = Ok None)
       [lit "0"; lit "121"; lit "-5"; lit ""; lit "5.5"; lit "abc"]
  /\ (forall n, 1 <= n <= 120 -> parse_age (str_of_int n) = Ok (Some n)).
Proof.
  split; [exact parse_age_total|].
  split; [exact parse_age_integer_text|].
  split; [exact parse_age_some|].
  split; [|split].
  - intros text. split.
    + intros Hnone (n & Hn). apply parse_age_integer_text in Hn. congruence.
    + intros Hno. destruct (parse_age_total text) as [[n|] Hr]; [|exact Hr].
      destruct Hno. exists n. now apply parse_age_integer_text.
  - repeat constructor.
  - intros n Hn.
    assert (Hall : forallb (fun n => match parse_age (str_of_int n) with
                                     | Ok (Some m) => m =? n
                                     | _ => false
                                     end) (seqZ 1 120) = true)
      by (vm_compute; reflexivity).
    rewrite forallb_forall in Hall.
    assert (Hin : In n (seqZ 1 120)) by (apply list_elem_of_In, elem_of_seqZ; lia).
    specialize (Hall n Hin).
    destruct (parse_age (str_of_int n)) as [[m|]|]; try discriminate.
    apply Z.eqb_eq in Hall. now subst m.
Qed.

Lemma parse_age_accepts_exactly_witness :
  parse_age (lit " +4_2 ") = Ok (Some 42).
Proof.
  apply (proj1 (proj2 parse_age_accepts_exactly)). split; [|lia].
  exists [32%N], [43%N], [52%N; 95%N; 50%N], [32%N], 1, [4; 2].
  split; [reflexivity|]. split; [reflexivity|]. split; [reflexivity|].
  split; [constructor|]. split; [|split; [|reflexivity]].
  - constructor; [now exists 4%N|].
    apply digits_grouped; [now exists 2%N|constructor].
  - unfold max_str_digits. cbn [length]. lia.
Defined.

(** C3, as amended. In the states [name] and [grade] the text of a message
    that is no command for [/start], [/help] or [/cancel], so that the
    handler of the state is given it, is answered with the prompt of the
    state, and nothing else happens, exactly when it is empty once
    stripped, which is exactly when it holds nothing but whitespace. A name that is not empty once stripped is stored stripped in
    the session, which moves to [age]. A grade that is not empty once
    stripped is never stored in the session: the session is removed, and
    when the database can be written the stripped grade is the grade of the
    row that is added. *)
Theorem name_and_grade_validation e message w :
  reachable w ->
  reaches_states e message ->
  let said := text_or_empty message in
  let w' := feed_update e message w in
  (strip said = [] <-> forallb isspace said = true)
  /\ (state_of w (sender message) = Some StudentForm.name ->
        (w' = emitting [answer_sent (chat_id message) name_prompt_again] w
         <-> strip said = [])
        /\ (strip said <> [] ->
              state_of w' (sender message) = Some StudentForm.age
              /\ data_of w' (sender message) !! "name" = Some (VStr (strip said))))
  /\ (state_of w (sender message) = Some StudentForm.grade ->
        (w' = emitting [answer_sent (chat_id message) grade_prompt_again] w
         <-> strip said = [])
        /\ (strip said <> [] ->
              record_of (storage w') (sender message) = empty_record
              /\ (db_online e = true ->
                    exists id name age,
                      students (db w') = students (db w) ++ [(id, name, age, strip said)]))).
Proof.
  intros Hw Hr said w'. subst said w'.
  split; [apply strip_nil_iff|]. split.
  - intros Hs. split.
    + split.
      * intros Heq.
        destruct (decide (strip (text_or_empty message) = [])) as [Hn|Hn]; [exact Hn|].
        rewrite (feed_name _ _ _ Hr Hs Hn) in Heq.
        apply (f_equal effects) in Heq. unfold put, emitting in Heq.
        cbn [effects] in Heq. apply app_inv_head in Heq.
        vm_compute in Heq. discriminate.
      * intros Hn. rewrite (feed_invalid e message w StudentForm.name Hr Hs).
        -- cbn [prompt_again]. reflexivity.
        -- cbn [valid_input]. now intros H.
    + intros Hn. rewrite (feed_name _ _ _ Hr Hs Hn).
      rewrite state_of_put. unfold data_of. rewrite record_of_put.
      cbn [rec_state rec_data]. split; [reflexivity|apply lookup_insert_eq].
  - intros Hs.
    destruct (final_check_consistent _ (reachable_consistent w Hw (sender message)) Hs)
      as (name & age & _ & _ & _ & _ & Hfit%age_fits_int64 & Hc).
    split.
    + split.
      * intros Heq.
        destruct (decide (strip (text_or_empty message) = [])) as [Hn|Hn]; [exact Hn|].
        destruct (db_online e) eqn:Hon.
        -- rewrite (feed_grade_saved _ _ _ _ _ Hr Hs Hn Hc Hon Hfit) in Heq.
           apply (f_equal effects) in Heq. unfold emitting in Heq.
           cbn [effects] in Heq. apply app_inv_head in Heq. discriminate.
        -- rewrite (feed_grade_failed _ _ _ _ _ Hr Hs Hn Hc Hon) in Heq.
           apply (f_equal effects) in Heq. unfold put, emitting in Heq.
           cbn [effects] in Heq. apply app_inv_head in Heq. discriminate.
      * intros Hn. rewrite (feed_invalid e message w StudentForm.grade Hr Hs).
        -- cbn [prompt_again]. reflexivity.
        -- cbn [valid_input]. now intros H.
    + intros Hn. destruct (db_online e) eqn:Hon.
      * rewrite (feed_grade_saved _ _ _ _ _ Hr Hs Hn Hc Hon Hfit). cbn [storage db students].
        split; [apply record_of_insert_eq|]. intros _. now eexists _, _, _.
      * rewrite (feed_grade_failed _ _ _ _ _ Hr Hs Hn Hc Hon).
        split; [apply record_of_put|]. discriminate.
Qed.

Lemma name_and_grade_validation_witness :
  reachable asked_grade
  /\ record_of (storage (feed_update online (says 1 " 4B ") asked_grade)) (1, 1)
     = empty_record.
Proof.
  split; [apply reachable_run; constructor|].
  destruct (name_and_grade_validation online (says 1 " 4B ") asked_grade)
    as (_ & _ & Hgrade).
  - apply reachable_run. constructor.
  - vm_compute. repeat split.
  - destruct Hgrade as (_ & Hkept).
    + vm_compute. reflexivity.
    + apply Hkept. vm_compute. discriminate.
Defined.

(** C3 as it is worded has the grade handler store the stripped grade in the
    session. It does not: the grade ["4B"] is accepted, and the session of
    the sender holds no grade afterwards. *)
Lemma grade_is_not_stored_in_session :
  valid_input StudentForm.grade (text_or_empty (says 1 "4B"))
  /\ stores_stripped online (says 1 "Ann") asked_name "name"
  /\ ~ stores_stripped online (says 1 "4B") asked_grade "grade".
Proof.
  split; [vm_compute; discriminate|].
  split; [vm_compute; reflexivity|].
  vm_compute. discriminate.
Qed.




(** C5. In each of the states [name], [age] and [grade], a message that is
    no command for [/start], [/help] or [/cancel] and whose text fails the
    validation of that state is answered with the prompt of that state and
    the session is left as it was: the storage is unchanged, so the state
    and the data of the sender are the same as before, and no row is added
    to the table. *)
Theorem invalid_input_leaves_session e message w s :
  reaches_states e message ->
  state_of w (sender message) = Some s ->
  ~ valid_input s (text_or_empty message) ->
  storage (feed_update e message w) = storage w
  /\ state_of (feed_update e message w) (sender message) = Some s
  /\ data_of (feed_update e message w) (sender message) = data_of w (sender message)
  /\ db (feed_update e message w) = db w
  /\ effects (feed_update e message w)
     = effects w ++ [answer_sent (chat_id message) (prompt_again s)].
Proof.
  intros Hr Hs Hv. rewrite (feed_invalid e message w s Hr Hs Hv).
  unfold state_of, data_of, emitting. cbn [storage db effects].
  repeat split; try reflexivity. exact Hs.
Qed.

Lemma invalid_input_leaves_session_witness :
  storage (feed_update online (says 1 "   ") asked_name) = storage asked_name
  /\ state_of (feed_update online (says 1 "   ") asked_name) (sender (says 1 "   "))
     = Some StudentForm.name
  /\ data_of (feed_update online (says 1 "   ") asked_name) (sender (says 1 "   "))
     = data_of asked_name (sender (says 1 "   "))
  /\ db (feed_update online (says 1 "   ") asked_name) = db asked_name
  /\ effects (feed_update online (says 1 "   ") asked_name)
     = effects asked_name
       ++ [answer_sent (chat_id (says 1 "   ")) (prompt_again StudentForm.name)].
Proof.
  apply (invalid_input_leaves_session online (says 1 "   ") asked_name StudentForm.name).
  - vm_compute. repeat split.
  - vm_compute. reflexivity.
  - intros H. apply H. vm_compute. reflexivity.
Defined.

(** C6, as amended. For every positive limit that SQLite can hold, that is
    below 2^63, and every table, while the database can be read,
    [list_students limit] returns at most [limit] rows (all of them when
    the table holds fewer), ordered by id descending, strictly when the ids
    of the table are distinct: they are rows of the table, and no row left
    out has a larger id than a row returned. A limit from 2^63 on is refused
    with [OverflowError]. After five students, of ages that SQLite can
    hold, were added to an empty table, [list_students 3] returns the rows
    with ids 5, 4 and 3, in that order. *)
Theorem list_students_most_recent :
  (forall limit e w,
     0 < limit < 2 ^ 63 -> db_online e = true ->
     exists rows rest,
       fst (list_students limit e w) = Ok rows
       /\ Z.of_nat (length rows) <= limit
       /\ length rows = Nat.min (Z.to_nat limit) (length (students (db w)))
       /\ StronglySorted id_desc rows
       /\ (NoDup (map row_id (students (db w))) -> StronglySorted id_above rows)
       /\ rows ++ rest ≡ₚ students (db w)
       /\ (forall r r2, r ∈ rows -> r2 ∈ rest -> row_id r2 <= row_id r))
  /\ (forall limit e w,
        2 ^ 63 <= limit -> db_online e = true ->
        list_students limit e w = (Raise OverflowError, emitting [db_opened true] w))
  /\ (forall r1 r2 r3 r4 r5 w,
        Forall (fun r => fits_int64 (snd (fst r)) = true) [r1; r2; r3; r4; r5] ->
        fst (list_students 3 online
               (enrolled [r1; r2; r3; r4; r5] (with_db empty_db w)))
        = Ok [ (5, strip (fst (fst r5)), snd (fst r5), strip (snd r5));
               (4, strip (fst (fst r4)), snd (fst r4), strip (snd r4));
               (3, strip (fst (fst r3)), snd (fst r3), strip (snd r3)) ]).
Proof.
  split; [|split].
  - intros limit e w Hl Hon.
    rewrite (list_students_online limit e w Hon) by (apply fits_int64_range; lia).
    rewrite sql_limit_positive by lia.
    set (sorted := order_by_id_desc (students (db w))).
    exists (take (Z.to_nat limit) sorted), (drop (Z.to_nat limit) sorted).
    assert (Hs : StronglySorted id_desc (take (Z.to_nat limit) sorted
                                          ++ drop (Z.to_nat limit) sorted)).
    { rewrite take_drop. apply order_by_id_desc_sorted. }
    assert (Hp : take (Z.to_nat limit) sorted ++ drop (Z.to_nat limit) sorted
                 ≡ₚ students (db w)).
    { rewrite take_drop. apply order_by_id_desc_perm. }
    assert (Hlen : length sorted = length (students (db w))).
    { apply Permutation_length, order_by_id_desc_perm. }
    cbn [fst]. repeat split.
    + rewrite length_take. lia.
    + rewrite length_take. now rewrite Hlen.
    + now apply StronglySorted_app_1_l in Hs.
    + intros Hnd. apply sorted_distinct_desc.
      * now apply StronglySorted_app_1_l in Hs.
      * rewrite <- Hp, map_app in Hnd. now apply NoDup_app in Hnd as [Hnd _].
    + exact Hp.
    + intros r r2 Hr Hr2.
      apply (StronglySorted_app_1_elem_of id_desc _ _ r r2 Hs Hr Hr2).
  - intros limit e w Hl Hon. apply list_students_overflow; [exact Hon|].
    destruct (fits_int64 limit) eqn:Hfit; [|reflexivity].
    apply fits_int64_range in Hfit. lia.
  - intros [[n1 a1] g1] [[n2 a2] g2] [[n3 a3] g3] [[n4 a4] g4] [[n5 a5] g5] w Hall.
    cbn [fst snd] in Hall.
    inversion Hall as [|? ? H1 Hall1]; subst. inversion Hall1 as [|? ? H2 Hall2]; subst.
    inversion Hall2 as [|? ? H3 Hall3]; subst. inversion Hall3 as [|? ? H4 Hall4]; subst.
    inversion Hall4 as [|? ? H5 _]; subst.
    unfold enrolled. cbn [fold_left fst snd].
    rewrite !add_student_online; try reflexivity; assumption.
Qed.

Lemma list_students_most_recent_witness :
  exists rows,
    fst (list_students 1 online (enrolled [(lit "Ann", 10, lit "4B"); (lit "Bob", 11, lit "5A")] fresh_world))
    = Ok rows
    /\ Z.of_nat (length rows) <= 1.
Proof.
  destruct (proj1 list_students_most_recent 1 online
              (enrolled [(lit "Ann", 10, lit "4B"); (lit "Bob", 11, lit "5A")] fresh_world))
    as (rows & rest & Hrows & Hlen & _).
  - lia.
  - reflexivity.
  - exists rows. split; assumption.
Defined.

(** C6 as it is worded holds for every positive limit. The limit is bound
    to a parameter of the statement, and SQLite holds 64-bit integers: the
    positive limit 2^63 does not return rows, it raises [OverflowError]. *)
Lemma limit_beyond_int64_is_refused :
  0 < 2 ^ 63
  /\ fst (list_students (2 ^ 63) online
            (enrolled [(lit "Ann", 10, lit "4B")] fresh_world))
     = Raise OverflowError
  /\ ~ exists rows,
        fst (list_students (2 ^ 63) online
               (enrolled [(lit "Ann", 10, lit "4B")] fresh_world))
        = Ok rows.
Proof.
  split; [reflexivity|]. split; [vm_compute; reflexivity|].
  intros (rows & H). vm_compute in H. discriminate.
Qed.

(** C7, as amended. Loading the module creates the directory [exports] when
    it is absent. With the directory in place and the database readable,
    [export_students_csv] returns the path [exports/students_<stamp>.csv],
    the stamp being eight digits, an underscore and six digits, and the file
    at that path holds the header [id,name,age,grade] ended by a line feed,
    then for each row of the table, in ascending id order, its four values
    joined by commas as they are, ended by a line feed. The first line of
    the file is the header; the file has exactly one further line for each
    row when no name and no grade of the table contains a line feed. *)
Theorem export_writes_csv :
  (forall f, files f !! EXPORTS_DIR = None ->
     exists f2, load_module f = (Ok tt, f2) /\ EXPORTS_DIR ∈ dirs f2)
  /\ (forall id name age grade,
        csv_line (id, name, age, grade)
        = str_of_int id ++ lit "," ++ name ++ lit "," ++ str_of_int age ++ lit ","
          ++ grade)
  /\ (forall e w,
        db_online e = true ->
        EXPORTS_DIR ∈ dirs (fs w) ->
        EXPORTS_DIR ++ [export_name (now e)] ∉ dirs (fs w) ->
        exists rows text w2,
          export_students_csv e w = (Ok (EXPORTS_DIR ++ [export_name (now e)]), w2)
          /\ stamped_name (export_name (now e))
          /\ files (fs w2) !! (EXPORTS_DIR ++ [export_name (now e)]) = Some text
          /\ text = lit "id,name,age,grade" ++ nl
                    ++ concat (map (fun r => csv_line r ++ nl) rows)
          /\ rows ≡ₚ students (db w)
          /\ StronglySorted id_asc rows
          /\ (NoDup (map row_id (students (db w))) -> StronglySorted id_below rows)
          /\ head (lines text) = Some (lit "id,name,age,grade")
          /\ (Forall (fun r => one_line (row_name r) /\ one_line (row_grade r))
                (students (db w)) ->
              lines text = lit "id,name,age,grade" :: map csv_line rows)
          /\ db w2 = db w).
Proof.
  split; [|split].
  - intros f Hf. destruct (load_module_creates f Hf) as (f2 & H1 & H2 & _).
    exists f2. now split.
  - reflexivity.
  - intros e w Hon Hd Hp.
    exists (order_by_id_asc (students (db w))),
           (csv_text (order_by_id_asc (students (db w)))).
    eexists. split; [apply (export_students_csv_ok e w Hon Hd Hp)|].
    cbn [fs files db].
    assert (Hperm := order_by_id_asc_perm (students (db w))).
    split; [apply export_name_stamped|].
    split; [apply lookup_insert_eq|].
    split; [reflexivity|].
    split; [exact Hperm|].
    split; [apply order_by_id_asc_sorted|].
    split; [|split; [|split; [|reflexivity]]].
    + intros Hnd. apply sorted_distinct_asc; [apply order_by_id_asc_sorted|].
      now rewrite Hperm.
    + unfold lines, csv_text.
      rewrite (lines_from_line [] csv_header _ csv_header_one_line).
      reflexivity.
    + intros Hall. rewrite lines_csv_text; [reflexivity|]. now rewrite Hperm.
Qed.

Lemma export_writes_csv_witness :
  exists text,
    files (fs (snd (export_students_csv online
                      (enrolled [(lit "Ann", 10, lit "4B")] fresh_world))))
      !! (EXPORTS_DIR ++ [export_name (now online)]) = Some text
    /\ lines text = [lit "id,name,age,grade"; lit "1,Ann,10,4B"].
Proof.
  destruct (proj2 (proj2 export_writes_csv) online
              (enrolled [(lit "Ann", 10, lit "4B")] fresh_world))
    as (rows & text & w2 & Hrun & _ & Hfile & Htext & _).
  - reflexivity.
  - vm_compute. set_solver.
  - vm_compute. set_solver.
  - exists text. rewrite Hrun. split; [exact Hfile|].
    apply (f_equal snd) in Hrun. cbn [snd] in Hrun. subst w2.
    vm_compute in Hfile. injection Hfile as <-. vm_compute. reflexivity.
Defined.

(** C7 as it is worded gives the file one line for each record, the line
    being the four values joined by commas. A student whose name was sent
    on two lines is one record, and takes two lines of the file, neither of
    which is its four values. *)
Lemma two_line_name_takes_two_lines :
  map row_id (students (db (run two_line_name fresh_world))) = [1]
  /\ lines (exported_text (run two_line_name fresh_world))
     = [lit "id,name,age,grade"; lit "1,Ann"; lit "Lee,10,4B"]
  /\ lines (exported_text (run two_line_name fresh_world))
     <> lit "id,name,age,grade"
        :: map csv_line (order_by_id_asc (students (db (run two_line_name fresh_world)))).
Proof.
  vm_compute. repeat split. discriminate.
Qed.

(** C8. [/cancel] in any state leaves the sender without a session. [/start]
    in any state leaves the sender in the state [name] with no data. What a
    dialogue does from its [/start] on, its record and the rows it adds, is
    the same whatever its session was before: nothing of an earlier session
    is carried over. *)
Theorem cancel_and_start_reset :
  (forall e message w,
     body message = Command Cancel ->
     record_of (storage (feed_update e message w)) (sender message) = empty_record)
  /\ (forall e message w,
        body message = Command Start ->
        record_of (storage (feed_update e message w)) (sender message)
        = {| rec_state := Some StudentForm.name; rec_data := ∅ |})
  /\ (forall e message us w1 w2,
        body message = Command Start ->
        Forall (fun u => from (sender message) u = true) us ->
        record_of (storage (run ((e, message) :: us) w1)) (sender message)
        = record_of (storage (run ((e, message) :: us) w2)) (sender message)
        /\ map fields (new_rows w1 (run ((e, message) :: us) w1))
           = map fields (new_rows w2 (run ((e, message) :: us) w2))).
Proof.
  split; [|split].
  - intros e message w Hb.
    rewrite (feed_cancel _ _ _ (commanded_command e message Cancel Hb)).
    apply record_of_put.
  - intros e message w Hb.
    rewrite (feed_start _ _ _ (commanded_command e message Start Hb)).
    apply record_of_put.
  - intros e message us w1 w2 Hb Hus.
    assert (Hu : from (sender message) (e, message) = true)
      by (unfold from; now apply bool_decide_eq_true).
    rewrite !run_session.
    rewrite !(run_alone (sender message)) by (constructor; assumption).
    now rewrite (solo_start _ (e, message) us _ (record_of (storage w2) (sender message))
                   Hu (commanded_command e message Start Hb)).
Qed.

Lemma cancel_and_start_reset_witness :
  record_of (storage (feed_update online (sends 1 Cancel) asked_grade)) (1, 1)
  = empty_record.
Proof.
  exact (proj1 cancel_and_start_reset online (sends 1 Cancel) asked_grade eq_refl).
Defined.

(** C9. An update of one dialogue leaves the record of every other dialogue
    as it was, and what it does to its own record depends on that record
    only. So after any run the record of a dialogue is the one it reaches
    when its own updates are run alone, and for two dialogues whose updates
    are interleaved, the rows added to the table are, ids apart, the rows
    the two add when each is run alone. *)
Theorem dialogues_are_isolated :
  (forall e message w k,
     k <> sender message ->
     record_of (storage (feed_update e message w)) k = record_of (storage w) k)
  /\ (forall e message w1 w2,
        record_of (storage w1) (sender message) = record_of (storage w2) (sender message) ->
        record_of (storage (feed_update e message w1)) (sender message)
        = record_of (storage (feed_update e message w2)) (sender message))
  /\ (forall k us w,
        record_of (storage (run us w)) k
        = record_of (storage (run (filter (from k) us) w)) k)
  /\ (forall U V us w,
        U <> V ->
        Forall (fun u => from U u = true \/ from V u = true) us ->
        map fields (new_rows w (run us w))
        ≡ₚ map fields (new_rows w (run (filter (from U) us) w))
           ++ map fields (new_rows w (run (filter (from V) us) w))).
Proof.
  split; [|split; [|split]].
  - intros e message w k Hk. now apply feed_update_frame.
  - intros e message w1 w2 H. now rewrite !feed_update_session, H.
  - intros k us w. now rewrite !run_session, solo_filter.
  - intros U V us w HUV Hall.
    rewrite (two_dialogues_rows U V us w HUV Hall).
    rewrite (run_alone U (filter (from U) us) w (from_filter U us)).
    rewrite (run_alone V (filter (from V) us) w (from_filter V us)).
    now rewrite !solo_filter.
Qed.

Lemma dialogues_are_isolated_witness :
  map fields (new_rows fresh_world (run interleaved fresh_world))
  ≡ₚ map fields (new_rows fresh_world (run (filter (from (1, 1)) interleaved) fresh_world))
     ++ map fields (new_rows fresh_world (run (filter (from (2, 2)) interleaved) fresh_world)).
Proof.
  apply (proj2 (proj2 (proj2 dialogues_are_isolated)) (1, 1) (2, 2) interleaved fresh_world).
  - discriminate.
  - unfold interleaved.
    repeat (constructor; [first [left; reflexivity|right; reflexivity]|]).
    constructor.
Defined.

(** C10. In every world the bot reaches from an empty storage by handling
    updates, a dialogue in the state [grade] holds a name that is a text
    and is not empty once stripped again, and an age that is an integer
    (between 1 and 120): the final validation passes. The answer of the
    data-invalid branch is never sent. *)
Theorem final_validation_passes w :
  reachable w ->
  (forall k, state_of w k = Some StudentForm.grade ->
     exists name age,
       data_of w k !! "name" = Some (VStr name)
       /\ not_ (strip name) = false
       /\ data_of w k !! "age" = Some (VInt age)
       /\ 1 <= age <= 120
       /\ final_check (data_of w k) = Some (name, age))
  /\ (forall c, answer_sent c data_invalid ∉ effects w).
Proof.
  intros Hw. split.
  - intros k Hs.
    destruct (final_check_consistent _ (reachable_consistent w Hw k) Hs)
      as (name & age & Hn & Ha & Hne & Hstrip & Hage & Hc).
    exists name, age. unfold data_of. repeat split; try assumption; try lia.
    rewrite Hstrip. now apply not_false_iff.
  - intros c. now apply reachable_never_invalid.
Qed.

Lemma final_validation_passes_witness :
  reachable asked_grade
  /\ state_of asked_grade (1, 1) = Some StudentForm.grade
  /\ forall c, answer_sent c data_invalid ∉ effects asked_grade.
Proof.
  split; [apply reachable_run; constructor|].
  split; [vm_compute; reflexivity|].
  apply (final_validation_passes asked_grade).
  apply reachable_run. constructor.
Defined.

(** * Further properties of the code *)

(** X1. [on_export_csv] never lets an exception out and never changes the
    table or the sessions. With the database readable and the directory in
    place it writes the file and sends exactly one document, the file it
    wrote. When the database cannot be opened, the directory is missing or
    a directory stands in the place of the file, it logs the failure, sends
    the one failure answer and no document, and leaves the files as they
    were. When the database opens and the table is not there, the failure
    comes after the file was opened: the answer and the log are the same,
    and the file is left behind empty, whatever it held before. *)
Theorem export_command_is_contained message e w :
  fst (on_export_csv message e w) = Ok tt
  /\ storage (snd (on_export_csv message e w)) = storage w
  /\ db (snd (on_export_csv message e w)) = db w
  /\ (db_online e = true /\ EXPORTS_DIR ∈ dirs (fs w)
      /\ export_path (now e) ∉ dirs (fs w) ->
        effects (snd (on_export_csv message e w))
        = effects w ++ [db_opened true;
                        document_sent (chat_id message) (export_path (now e))
                          export_caption]
        /\ files (fs (snd (on_export_csv message e w))) !! export_path (now e)
           = Some (csv_text (order_by_id_asc (students (db w)))))
  /\ (db_opens e = false \/ EXPORTS_DIR ∉ dirs (fs w)
      \/ export_path (now e) ∈ dirs (fs w) ->
        fs (snd (on_export_csv message e w)) = fs w
        /\ effects (snd (on_export_csv message e w))
           = effects w ++ [db_opened (db_opens e);
                           logged_exception export_failed_log;
                           answer_sent (chat_id message) export_failed])
  /\ (db_is e = db_no_table /\ EXPORTS_DIR ∈ dirs (fs w)
      /\ export_path (now e) ∉ dirs (fs w) ->
        dirs (fs (snd (on_export_csv message e w))) = dirs (fs w)
        /\ files (fs (snd (on_export_csv message e w)))
           = <[export_path (now e) := []]> (files (fs w))
        /\ effects (snd (on_export_csv message e w))
           = effects w ++ [db_opened true;
                           logged_exception export_failed_log;
                           answer_sent (chat_id message) export_failed]).
Proof.
  destruct (on_export_csv_spec message e w) as (f & xs & Hrun & _).
  split; [now rewrite Hrun|]. split; [now rewrite Hrun|]. split; [now rewrite Hrun|].
  clear f xs Hrun. split; [|split].
  - intros (Hon & Hd & Hp). rewrite (on_export_csv_done message e w Hon Hd Hp).
    cbn [snd fs effects files]. split; [reflexivity|apply lookup_insert_eq].
  - intros Hbad. rewrite (on_export_csv_failed message e w Hbad). now split.
  - intros (Hno & Hd & Hp).
    rewrite (on_export_csv_no_table message e w); try assumption.
    + cbn [snd fs dirs files effects]. now repeat split.
    + unfold db_opens. now rewrite Hno.
    + unfold db_online. now rewrite Hno.
Qed.

Lemma export_command_is_contained_witness :
  files (fs (snd (on_export_csv (sends 1 ExportCsv) no_table two_students)))
  = <[export_path (now no_table) := []]> (files (fs two_students)).
Proof.
  apply (export_command_is_contained (sends 1 ExportCsv) no_table two_students).
  split; [reflexivity|]. split; vm_compute; set_solver.
Defined.

(** X2. With the database readable [on_students] sends exactly one answer
    and changes nothing else. The answer is the empty-list notice exactly
    when the table is empty; otherwise it is the title followed by one
    entry for each of the ten rows with the largest ids (all rows when there
    are fewer), the most recent first, the entries joined by line feeds. When
    no name and no grade shown contains a line feed, the answer has the
    title line and exactly one line for each row shown. *)
Theorem students_command_lists_recent message e w :
  db_online e = true ->
  exists rows answer,
    rows = take 10 (order_by_id_desc (students (db w)))
    /\ on_students message e w
       = (Ok tt, emitting [db_opened true; answer_sent (chat_id message) answer] w)
    /\ length rows = Nat.min 10 (length (students (db w)))
    /\ StronglySorted id_desc rows
    /\ (students (db w) = [] -> answer = list_empty)
    /\ (students (db w) <> [] ->
          answer = list_title ++ nl ++ join nl (map student_line rows))
    /\ (students (db w) <> [] ->
          Forall (fun r => one_line (row_name r) /\ one_line (row_grade r)) rows ->
          lines answer = list_title :: map student_line rows).
Proof.
  intros Hon. rewrite on_students_spec, Hon.
  rewrite sql_limit_positive by lia. change (Z.to_nat 10) with 10%nat.
  set (sorted := order_by_id_desc (students (db w))).
  assert (Hperm : sorted ≡ₚ students (db w)) by apply order_by_id_desc_perm.
  assert (Hempty : take 10 sorted = [] <-> students (db w) = []).
  { rewrite take_nil_iff. split; intros H.
    - rewrite H in Hperm. now apply Permutation_nil in Hperm.
    - rewrite H in Hperm. symmetry in Hperm. now apply Permutation_nil in Hperm. }
  exists (take 10 sorted), (students_reply (take 10 sorted)).
  split; [reflexivity|]. split; [reflexivity|].
  split; [rewrite length_take; now rewrite (Permutation_length Hperm)|].
  split.
  { assert (Hs : StronglySorted id_desc (take 10 sorted ++ drop 10 sorted))
      by (rewrite take_drop; apply order_by_id_desc_sorted).
    now apply StronglySorted_app_1_l in Hs. }
  split; [|split].
  - intros H. apply Hempty in H. now rewrite H.
  - intros H. destruct (take 10 sorted) as [|r rows] eqn:Ht.
    + destruct H. now apply Hempty.
    + reflexivity.
  - intros H Hall. destruct (take 10 sorted) as [|r rows] eqn:Ht.
    + destruct H. now apply Hempty.
    + unfold students_reply. apply lines_join. constructor.
      * apply list_title_one_line.
      * apply Forall_fmap. eapply Forall_impl; [exact Hall|].
        intros r2 [Hn Hg]. now apply student_line_one_line.
Qed.

Lemma students_command_lists_recent_witness :
  exists answer,
    on_students (sends 1 Students) online two_students
    = (Ok tt, emitting [db_opened true; answer_sent 1 answer] two_students)
    /\ lines answer
       = [list_title; lit "• #2: Bob, 11 лет, класс 5A"; lit "• #1: Ann, 10 лет, класс 4B"].
Proof.
  destruct (students_command_lists_recent (sends 1 Students) online two_students)
    as (rows & answer & Hrows & Hrun & _ & _ & _ & Hanswer & _).
  - reflexivity.
  - exists answer. split; [exact Hrun|].
    rewrite Hanswer by (vm_compute; discriminate).
    subst rows. vm_compute. reflexivity.
Defined.

(** X3. [on_students] does not handle a database that cannot be read,
    whether the file cannot be opened or the table is not there: the
    [sqlite3.Error] leaves the handler, and the user who asked outside a
    dialogue gets no answer at all; the only trace is the attempt to open
    the database. *)
Theorem students_command_does_not_catch message e w :
  db_online e = false ->
  on_students message e w
  = (Raise sqlite3_Error, emitting [db_opened (db_opens e)] w)
  /\ (body message = Command Students ->
      state_of w (sender message) = None ->
      feed_update e message w = emitting [db_opened (db_opens e)] w
      /\ forall x, x ∈ effects (feed_update e message w) ->
                   x ∈ effects w \/ addressed x = None).
Proof.
  intros Hoff.
  assert (Hrun : on_students message e w
                 = (Raise sqlite3_Error, emitting [db_opened (db_opens e)] w))
    by now rewrite on_students_spec, Hoff.
  split; [exact Hrun|]. intros Hb Hs.
  rewrite (feed_students_idle e message w (commanded_command e message Students Hb) Hs),
    Hrun.
  cbn [snd].
  split; [reflexivity|]. intros x Hin. unfold emitting in Hin. cbn [effects] in Hin.
  apply elem_of_app in Hin as [Hin|Hin]; [now left|right].
  apply list_elem_of_singleton in Hin. now subst x.
Qed.

Lemma students_command_does_not_catch_witness :
  feed_update offline (sends 1 Students) two_students
  = emitting [db_opened false] two_students.
Proof.
  apply (students_command_does_not_catch (sends 1 Students) offline two_students);
    reflexivity.
Defined.

(** X4. [add_student], when the database can be written and the age is an
    integer SQLite can hold, returns an id larger than every id of the
    table, appends the row with the name and the grade stripped and leaves
    the rows already there in place; ids that were distinct stay distinct.
    Read back right away with any positive limit SQLite can hold,
    [list_students] returns the new row first. An age SQLite cannot hold is
    refused with [OverflowError], and nothing is inserted. *)
Theorem added_student_is_listed_first name age grade limit e w :
  db_online e = true ->
  (fits_int64 age = true -> 0 < limit < 2 ^ 63 ->
     exists id rest,
       let new := (id, strip name, age, strip grade) in
       let w1 := snd (add_student name age grade e w) in
       fst (add_student name age grade e w) = Ok id
       /\ (forall r, r ∈ students (db w) -> row_id r < id)
       /\ students (db w1) = students (db w) ++ [new]
       /\ (NoDup (map row_id (students (db w))) -> NoDup (map row_id (students (db w1))))
       /\ fst (list_students limit e w1) = Ok (new :: rest))
  /\ (fits_int64 age = false ->
        fst (add_student name age grade e w) = Raise OverflowError
        /\ db (snd (add_student name age grade e w)) = db w).
Proof.
  intros Hon. split.
  - intros Hfit Hl. rewrite (add_student_online name age grade e w Hon Hfit).
    cbn [fst snd].
    destruct (order_by_id_desc_newest (students (db w))
                (next_rowid (db w), strip name, age, strip grade))
      as (rest & Hsorted & _).
    { intros r Hr. cbn [row_id]. now apply next_rowid_above. }
    exists (next_rowid (db w)), (take (Nat.pred (Z.to_nat limit)) rest).
    cbn zeta. cbn [db students].
    split; [reflexivity|]. split; [intros r; apply next_rowid_above|].
    split; [reflexivity|]. split.
    + intros Hnd.
      apply (insert_student_distinct (strip name) age (strip grade) (db w) Hnd).
    + rewrite list_students_online by (try assumption; apply fits_int64_range; lia).
      cbn [fst db students].
      rewrite sql_limit_positive by lia. unfold row in *. rewrite Hsorted.
      destruct (Z.to_nat limit) as [|n] eqn:Hn; [lia|reflexivity].
  - intros Hfit. rewrite (add_student_overflow name age grade e w Hon Hfit).
    now split.
Qed.

Lemma added_student_is_listed_first_witness :
  exists id rest,
    fst (list_students 1 online
           (snd (add_student (lit " Eve ") 12 (lit "6A") online two_students)))
    = Ok ((id, lit "Eve", 12, lit "6A") :: rest).
Proof.
  destruct (added_student_is_listed_first (lit " Eve ") 12 (lit "6A") 1 online two_students)
    as [Hadd _]; [reflexivity|].
  destruct Hadd as (id & rest & _ & _ & _ & _ & Hlist); [reflexivity|lia|].
  exists id, rest. exact Hlist.
Defined.

(** X5. [/help] is answered in every state and disturbs nothing: the one
    help answer is sent, and the storage, so every dialogue with its state
    and data, the table and the files are as before. *)
Theorem help_keeps_the_dialogue e message w :
  body message = Command Help ->
  feed_update e message w = emitting [answer_sent (chat_id message) help_text] w
  /\ storage (feed_update e message w) = storage w
  /\ db (feed_update e message w) = db w
  /\ fs (feed_update e message w) = fs w.
Proof.
  intros Hb. rewrite (feed_help e message w (commanded_command e message Help Hb)).
  now repeat split.
Qed.

Lemma help_keeps_the_dialogue_witness :
  state_of (feed_update online (sends 1 Help) asked_grade) (1, 1)
  = Some StudentForm.grade.
Proof.
  unfold state_of.
  rewrite (proj1 (proj2 (help_keeps_the_dialogue online (sends 1 Help) asked_grade eq_refl))).
  vm_compute. reflexivity.
Defined.

(** X6. The handlers of the three questions are registered before
    [on_students] and [on_export_csv]. So inside a dialogue [/students] and
    [/export_csv] are not carried out: the text of the command is taken as
    the answer to the question. As a name it is stored and the dialogue
    moves on to the age; as an age it is refused with the age prompt; as a
    grade it is saved in the new row. No list is sent and no file is
    written. *)
Theorem read_commands_answer_the_question e chat user c w :
  c = Students \/ c = ExportCsv ->
  let message := {| chat_id := chat; user_id := user; body := Command c |} in
  (state_of w (chat, user) = Some StudentForm.name ->
     feed_update e message w
     = put (chat, user)
         {| rec_state := Some StudentForm.age;
            rec_data := <["name" := VStr (command_text c)]>
                          (rec_data (record_of (storage w) (chat, user))) |}
         [answer_sent chat age_prompt] w)
  /\ (state_of w (chat, user) = Some StudentForm.age ->
        feed_update e message w = emitting [answer_sent chat age_prompt_again] w)
  /\ (state_of w (chat, user) = Some StudentForm.grade ->
        reachable w -> db_online e = true ->
        exists name age,
          students (db (feed_update e message w))
          = students (db w) ++ [(next_rowid (db w), name, age, command_text c)]
          /\ fs (feed_update e message w) = fs w
          /\ effects (feed_update e message w)
             = effects w ++
               [db_opened true;
                answer_sent chat
                  (saved_message (next_rowid (db w)) name age (command_text c))]).
Proof.
  intros Hc message. subst message.
  assert (Hr : reaches_states e {| chat_id := chat; user_id := user; body := Command c |})
    by now apply (command_reaches_states e _ c).
  split; [|split].
  - intros Hs. rewrite (feed_name e _ w Hr Hs).
    + now rewrite text_or_empty_command, command_text_stripped.
    + rewrite text_or_empty_command, command_text_stripped.
      apply command_text_not_empty.
  - intros Hs. rewrite (feed_invalid e _ w StudentForm.age Hr Hs); [reflexivity|].
    cbn [valid_input]. rewrite text_or_empty_command, command_text_no_age.
    intros (age & Hage). discriminate.
  - intros Hs Hw Hon.
    destruct (final_check_consistent _ (reachable_consistent w Hw (chat, user)) Hs)
      as (name & age & _ & _ & _ & Hstrip & Hfit%age_fits_int64 & Hcheck).
    exists name, age.
    rewrite (feed_grade_saved e _ w name age Hr Hs); try assumption.
    + rewrite text_or_empty_command, command_text_stripped, Hstrip.
      cbn [db students fs effects]. now repeat split.
    + rewrite text_or_empty_command, command_text_stripped.
      apply command_text_not_empty.
Qed.

Lemma read_commands_answer_the_question_witness :
  data_of (feed_update online (sends 1 Students) asked_name) (1, 1) !! "name"
  = Some (VStr (lit "/students")).
Proof.
  unfold data_of, sends.
  rewrite (proj1 (read_commands_answer_the_question online 1 1 Students asked_name
                    (or_introl eq_refl))).
  - rewrite record_of_put. cbn [rec_data]. apply lookup_insert_eq.
  - vm_compute. reflexivity.
Defined.

(** X7. From a sender who is in no dialogue, an update is left alone,
    nothing answered and nothing changed, exactly when it is none of the
    five commands. That is the case of every message without text and
    caption, and of every text that does not begin, whitespace apart, with
    a slash. This is where a sender is after a finished or a cancelled
    dialogue, until the next [/start]. *)
Theorem messages_outside_a_dialogue e message w :
  state_of w (sender message) = None ->
  (feed_update e message w = w <-> forall c, commanded e message c = false)
  /\ (body message = Plain None -> feed_update e message w = w)
  /\ (forall t, body message = Plain (Some t) ->
        (forall rest, lstrip t <> slash :: rest) -> feed_update e message w = w).
Proof.
  intros Hs.
  assert (Hidle : (forall c, commanded e message c = false) ->
                  feed_update e message w = w)
    by (intros Hno; now apply feed_unheard_idle).
  split; [split; [|exact Hidle]|split].
  - intros Heq c. destruct (commanded e message c) eqn:Hc; [exfalso|reflexivity].
    apply (f_equal effects) in Heq.
    assert (Hgrows : forall xs, effects (feed_update e message w) = effects w ++ xs ->
                                xs <> [] -> False).
    { intros xs Hxs Hne. rewrite Hxs in Heq.
      rewrite <- (app_nil_r (effects w)) in Heq at 2.
      apply app_inv_head in Heq. contradiction. }
    destruct c.
    + apply (Hgrows [answer_sent (chat_id message) greeting]); [|discriminate].
      now rewrite (feed_start e message w Hc).
    + apply (Hgrows [answer_sent (chat_id message) help_text]); [|discriminate].
      now rewrite (feed_help e message w Hc).
    + apply (Hgrows [answer_sent (chat_id message) cancelled]); [|discriminate].
      now rewrite (feed_cancel e message w Hc).
    + rewrite (feed_students_idle e message w Hc Hs), on_students_spec in Heq.
      rewrite (feed_students_idle e message w Hc Hs), on_students_spec in Hgrows.
      destruct (db_online e); eapply Hgrows; try reflexivity; discriminate.
    + rewrite (feed_export_idle e message w Hc Hs) in Hgrows.
      destruct (on_export_csv_sends message e w) as (f & xs & Hrun & [Hxs|Hxs]);
        rewrite Hrun in Hgrows; subst xs; eapply Hgrows; try reflexivity; discriminate.
  - intros Hb. apply Hidle. intros c. now apply commanded_nothing.
  - intros t Hb Ht. apply Hidle. intros c.
    destruct message as [chat user b]. cbn [body] in Hb. subst b.
    destruct (commanded e _ c) eqn:Hc; [|reflexivity].
    apply commanded_slash in Hc as (t2 & rest & Ht2 & Hl).
    unfold text_or_caption, text, caption in Ht2. cbn [body] in Ht2.
    destruct (not_ t); [discriminate|]. injection Ht2 as <-.
    now destruct (Ht rest).
Qed.

Lemma messages_outside_a_dialogue_witness :
  feed_update online (says 1 "Ann") fresh_world = fresh_world.
Proof.
  destruct (messages_outside_a_dialogue online (says 1 "Ann") fresh_world)
    as (_ & _ & Htext); [reflexivity|].
  apply (Htext (lit "Ann")); [reflexivity|].
  intros rest H. vm_compute in H. discriminate.
Defined.

(** X8. No question is ever skipped. After an update a dialogue is in the
    state [name] only if it was there before or its sender sent a start
    command; in [age] only if it was there before or it was in [name] and
    its sender gave a valid name that is no command for [/start], [/help]
    or [/cancel]; in [grade] only if it was there before or it was in [age]
    and its sender gave a valid age. *)
Theorem questions_are_never_skipped e message w k s :
  state_of (feed_update e message w) k = Some s ->
  state_of w k = Some s
  \/ (sender message = k
      /\ match s with
         | StudentForm.name => commanded e message Start = true
         | StudentForm.age =>
             state_of w k = Some StudentForm.name /\ reaches_states e message
             /\ valid_input StudentForm.name (text_or_empty message)
         | StudentForm.grade =>
             state_of w k = Some StudentForm.age /\ reaches_states e message
             /\ valid_input StudentForm.age (text_or_empty message)
         end).
Proof.
  unfold state_of. destruct (decide (k = sender message)) as [->|Hk].
  - rewrite feed_update_session. unfold session_after.
    set (r := record_of (storage w) (sender message)).
    destruct (commanded e message Start) eqn:H1.
    { cbn [rec_state]. intros [= <-]. right. now split. }
    destruct (commanded e message Help) eqn:H2; [now left|].
    destruct (commanded e message Cancel) eqn:H3; [discriminate|].
    assert (Hr : reaches_states e message) by (repeat split; assumption).
    destruct (rec_state r) as [[]|] eqn:Hs.
    + destruct (not_ (strip (text_or_empty message))) eqn:Hn.
      * rewrite Hs. now left.
      * cbn [rec_state]. intros [= <-]. right. split; [reflexivity|].
        split; [reflexivity|]. split; [assumption|]. now apply not_false_iff.
    + destruct (parse_age (text_or_empty message)) as [[age|]|] eqn:Ha;
        try (rewrite Hs; now left).
      cbn [rec_state]. intros [= <-]. right. split; [reflexivity|].
      split; [reflexivity|]. split; [assumption|]. now exists age.
    + destruct (not_ (strip (text_or_empty message))); [rewrite Hs; now left|].
      destruct (rec_data r !! "name") as [[]|]; try discriminate.
      rewrite Hs. now left.
    + rewrite Hs. discriminate.
  - rewrite (feed_update_frame e message w k Hk). now left.
Qed.

Lemma questions_are_never_skipped_witness :
  state_of asked_age (1, 1) = Some StudentForm.age
  /\ valid_input StudentForm.age (text_or_empty (says 1 "10")).
Proof.
  destruct (questions_are_never_skipped online (says 1 "10") asked_age (1, 1)
              StudentForm.grade) as [H|(_ & H & _ & Hv)].
  - vm_compute. reflexivity.
  - vm_compute in H. discriminate.
  - split; assumption.
Defined.

(** X9. Whatever the update and the state of the world, the handlers send
    at most one message or document for it, and only to the chat the
    message came from; the effects already there are kept. *)
Theorem answers_go_to_the_sender e message w :
  exists xs,
    effects (feed_update e message w) = effects w ++ xs
    /\ Forall (fun x => addressed x = None \/ addressed x = Some (chat_id message)) xs
    /\ (length (List.filter is_sent xs) <= 1)%nat.
Proof.
  apply (step_sends e message w (feed_update e message w));
    [apply feed_update_step|reflexivity].
Qed.

(** X10. The table only grows, and what the dialogues add is well formed.
    From a world the bot can be in, whose table holds valid rows (name and
    grade stripped and not empty, age from 1 to 120) with distinct ids,
    every run of updates keeps the rows that were there, in place, and
    leaves a table of valid rows with distinct ids. *)
Theorem table_stays_well_formed us : forall w,
  reachable w ->
  Forall valid_row (students (db w)) ->
  NoDup (map row_id (students (db w))) ->
  (exists rows, students (db (run us w)) = students (db w) ++ rows)
  /\ Forall valid_row (students (db (run us w)))
  /\ NoDup (map row_id (students (db (run us w)))).
Proof.
  induction us as [|u us IH]; intros w Hw Hvalid Hnd.
  - cbn [run fold_left]. split; [exists []; now rewrite app_nil_r|now split].
  - rewrite run_cons.
    assert (Hstep : Forall valid_row (students (db (feed_update (fst u) (snd u) w)))
                    /\ NoDup (map row_id (students (db (feed_update (fst u) (snd u) w))))).
    { destruct (step_adds_valid_row (fst u) (snd u) w _
                  (feed_update_step (fst u) (snd u) w)
                  (reachable_consistent w Hw _))
        as [Heq|(name & age & grade & Heq & Hrow)]; rewrite Heq; [now split|].
      split; [apply Forall_app; split; [assumption|now constructor]|].
      apply (insert_student_distinct name age grade (db w) Hnd). }
    destruct Hstep as [Hvalid2 Hnd2].
    destruct (IH _ (reachable_update (fst u) (snd u) w Hw) Hvalid2 Hnd2)
      as ((rows2 & Hrows2) & Hv & Hn).
    split; [|now split].
    destruct (feed_update_rows (fst u) (snd u) w) as (rows & Hrows & _).
    exists (rows ++ rows2). now rewrite Hrows2, Hrows, app_assoc.
Qed.

Lemma table_stays_well_formed_witness :
  Forall valid_row (students (db (run interleaved fresh_world)))
  /\ NoDup (map row_id (students (db (run interleaved fresh_world)))).
Proof.
  apply (table_stays_well_formed interleaved fresh_world).
  - constructor.
  - constructor.
  - constructor.
Defined.

(** X11. The limit of [list_students] at its edges, the database being
    readable: a limit of zero returns no row; a negative limit down to
    -2^63, as a limit below 2^63 that is not below the number of rows,
    returns the whole table, the most recent row first; a limit outside
    these 64 bits is refused with [OverflowError]. *)
Theorem list_students_edge_limits limit e w :
  db_online e = true ->
  (limit = 0 -> fst (list_students limit e w) = Ok [])
  /\ (- 2 ^ 63 <= limit < 0
      \/ Z.of_nat (length (students (db w))) <= limit < 2 ^ 63 ->
        exists rows,
          fst (list_students limit e w) = Ok rows
          /\ rows ≡ₚ students (db w)
          /\ StronglySorted id_desc rows)
  /\ (limit < - 2 ^ 63 \/ 2 ^ 63 <= limit ->
        fst (list_students limit e w) = Raise OverflowError).
Proof.
  intros Hon. split; [|split].
  - intros ->. now rewrite (list_students_online 0 e w Hon).
  - intros Hl.
    rewrite (list_students_online limit e w Hon) by (apply fits_int64_range; lia).
    cbn [fst]. exists (order_by_id_desc (students (db w))).
    split; [|split; [apply order_by_id_desc_perm|apply order_by_id_desc_sorted]].
    f_equal. unfold sql_limit. destruct (limit <? 0) eqn:Hneg; [reflexivity|].
    apply Z.ltb_ge in Hneg. apply take_ge.
    rewrite (Permutation_length (order_by_id_desc_perm (students (db w)))). lia.
  - intros Hl. rewrite list_students_overflow; [reflexivity|exact Hon|].
    destruct (fits_int64 limit) eqn:Hfit; [|reflexivity].
    apply fits_int64_range in Hfit. lia.
Qed.

Lemma list_students_edge_limits_witness :
  fst (list_students 0 online two_students) = Ok []
  /\ exists rows, fst (list_students (-1) online two_students) = Ok rows
                  /\ length rows = 2%nat.
Proof.
  destruct (list_students_edge_limits 0 online two_students eq_refl) as [Hzero _].
  destruct (list_students_edge_limits (-1) online two_students eq_refl) as (_ & Hall & _).
  split; [now apply Hzero|].
  destruct Hall as (rows & Hrows & Hperm & _); [left; lia|].
  exists rows. split; [exact Hrows|]. now rewrite (Permutation_length Hperm).
Defined.

(** X12. A successful export writes one file and nothing else: whatever
    file stood at the returned path before, it is replaced whole by the new
    text; every other file and the directories are left as they were, and
    so are the table and the sessions. *)
Theorem export_replaces_only_its_file e w :
  db_online e = true ->
  EXPORTS_DIR ∈ dirs (fs w) ->
  export_path (now e) ∉ dirs (fs w) ->
  fst (export_students_csv e w) = Ok (export_path (now e))
  /\ files (fs (snd (export_students_csv e w))) !! export_path (now e)
     = Some (csv_text (order_by_id_asc (students (db w))))
  /\ (forall p, p <> export_path (now e) ->
        files (fs (snd (export_students_csv e w))) !! p = files (fs w) !! p)
  /\ dirs (fs (snd (export_students_csv e w))) = dirs (fs w)
  /\ db (snd (export_students_csv e w)) = db w
  /\ storage (snd (export_students_csv e w)) = storage w.
Proof.
  intros Hon Hd Hp. rewrite (export_students_csv_ok e w Hon Hd Hp).
  cbn [fst snd fs files dirs db storage].
  split; [reflexivity|]. split; [apply lookup_insert_eq|].
  split; [|now repeat split].
  intros p Hne. now apply lookup_insert_ne.
Qed.

Lemma export_replaces_only_its_file_witness :
  files (fs (snd (export_students_csv online
                    (snd (export_students_csv online two_students)))))
    !! export_path (now online)
  = Some (csv_text (order_by_id_asc (students (db two_students)))).
Proof.
  destruct (export_replaces_only_its_file online two_students)
    as (_ & _ & _ & Hdirs & Hdb & _);
    [reflexivity|vm_compute; set_solver|vm_compute; set_solver|].
  destruct (export_replaces_only_its_file online
              (snd (export_students_csv online two_students)))
    as (_ & Hfile & _);
    [reflexivity|rewrite Hdirs; vm_compute; set_solver
    |rewrite Hdirs; vm_compute; set_solver|].
  rewrite Hfile, Hdb. reflexivity.
Defined.

(** X13. The export can be read back when the fields allow it. After a
    successful export of a table in which no name and no grade contains a
    comma or a line feed, splitting the file into lines and the lines at
    the commas gives the four column names, then for each row, in ascending
    id order, its id in decimal, its name, its age in decimal and its
    grade. *)
Theorem exported_rows_read_back e w :
  db_online e = true ->
  EXPORTS_DIR ∈ dirs (fs w) ->
  export_path (now e) ∉ dirs (fs w) ->
  Forall (fun r => plain_field (row_name r) /\ plain_field (row_grade r))
    (students (db w)) ->
  exists text,
    files (fs (snd (export_students_csv e w))) !! export_path (now e) = Some text
    /\ map (split_on comma_point) (lines text)
       = [lit "id"; lit "name"; lit "age"; lit "grade"]
         :: map printed_fields (order_by_id_asc (students (db w))).
Proof.
  intros Hon Hd Hp Hall.
  exists (csv_text (order_by_id_asc (students (db w)))).
  rewrite (export_students_csv_ok e w Hon Hd Hp). cbn [snd fs files].
  split; [apply lookup_insert_eq|].
  rewrite <- (order_by_id_asc_perm (students (db w))) in Hall.
  rewrite lines_csv_text.
  - cbn [map]. f_equal.
    rewrite map_map. apply map_ext_in. intros r Hr.
    rewrite Forall_forall in Hall. apply list_elem_of_In in Hr.
    destruct (Hall r Hr) as [[Hn _] [Hg _]]. now apply csv_line_fields.
  - eapply Forall_impl; [exact Hall|]. intros r [[_ Hn] [_ Hg]]. now split.
Qed.

Lemma exported_rows_read_back_witness :
  exists text,
    files (fs (snd (export_students_csv online two_students)))
      !! export_path (now online) = Some text
    /\ map (split_on comma_point) (lines text)
       = [ [lit "id"; lit "name"; lit "age"; lit "grade"];
           [lit "1"; lit "Ann"; lit "10"; lit "4B"];
           [lit "2"; lit "Bob"; lit "11"; lit "5A"] ].
Proof.
  destruct (exported_rows_read_back online two_students) as (text & Hfile & Hread).
  - reflexivity.
  - vm_compute. set_solver.
  - vm_compute. set_solver.
  - unfold plain_field.
    match goal with |- ?P => apply (bool_decide_unpack P) end.
    vm_compute. exact I.
  - exists text. split; [exact Hfile|]. rewrite Hread. vm_compute. reflexivity.
Defined.

(** X14. The table changes only at the last answer of a dialogue. If an
    update changes the rows of the table, then its sender was asked for the
    grade and sent a text that is not empty once stripped and is no command
    for [/start], [/help] or [/cancel], the database could be written, exactly one row was appended, made of the name and the
    age kept in the sender's session and the stripped text, and the
    sender's dialogue is over afterwards. *)
Theorem table_changes_only_at_the_last_answer e message w :
  students (db (feed_update e message w)) <> students (db w) ->
  state_of w (sender message) = Some StudentForm.grade
  /\ reaches_states e message
  /\ strip (text_or_empty message) <> []
  /\ db_online e = true
  /\ state_of (feed_update e message w) (sender message) = None
  /\ exists name age,
       final_check (data_of w (sender message)) = Some (name, age)
       /\ students (db (feed_update e message w))
          = students (db w)
            ++ [(next_rowid (db w), strip name, age, strip (text_or_empty message))].
Proof. apply step_changes_table, feed_update_step. Qed.

Lemma table_changes_only_at_the_last_answer_witness :
  state_of asked_grade (1, 1) = Some StudentForm.grade
  /\ state_of (feed_update online (says 1 "4B") asked_grade) (1, 1) = None.
Proof.
  destruct (table_changes_only_at_the_last_answer online (says 1 "4B") asked_grade)
    as (Hbefore & _ & _ & _ & Hafter & _).
  - vm_compute. discriminate.
  - split; [exact Hbefore|exact Hafter].
Defined.

(** X15. Who gets an answer. On a world the bot can be in, an update gets
    no message at all exactly when its sender is in no dialogue and it is
    none of the five commands, or it is a [/students] command from such a
    sender while the table cannot be read. Every other update gets exactly
    one message or document, in the chat it came from; a failed insert and
    a failed export are among them. *)
Theorem every_other_update_is_answered_once e message w :
  reachable w ->
  exists xs,
    effects (feed_update e message w) = effects w ++ xs
    /\ (unanswered e message w -> List.filter is_sent xs = [])
    /\ (~ unanswered e message w ->
          exists x, List.filter is_sent xs = [x]
                    /\ addressed x = Some (chat_id message)).
Proof.
  intros Hw.
  apply (step_answers e message w (feed_update e message w));
    [apply feed_update_step|reflexivity|apply (reachable_consistent w Hw)].
Qed.

Lemma every_other_update_is_answered_once_witness :
  exists xs,
    effects (feed_update offline (says 1 "4B") asked_grade)
    = effects asked_grade ++ xs
    /\ List.filter is_sent xs = [answer_sent 1 db_failure].
Proof.
  destruct (every_other_update_is_answered_once offline (says 1 "4B") asked_grade)
    as (xs & Heq & _ & Hone).
  - apply reachable_run, reachable_fresh_world.
  - exists xs. split; [exact Heq|].
    assert (Hxs : xs = [db_opened false; logged_exception save_failed_log;
                        answer_sent 1 db_failure]).
    { apply (app_inv_head (effects asked_grade)). rewrite <- Heq.
      vm_compute. reflexivity. }
    rewrite Hxs. reflexivity.
Defined.

(** X16. The name of the exported file tells the second of the export, so
    exports of different seconds never share a file: for two dates and
    times that a [datetime] can hold, the paths are equal only if the times
    are, and a successful export leaves the file of every other time as it
    was. *)
Theorem export_keeps_the_other_exports e t w :
  valid_datetime (now e) -> valid_datetime t -> t <> now e ->
  db_online e = true ->
  EXPORTS_DIR ∈ dirs (fs w) ->
  export_path (now e) ∉ dirs (fs w) ->
  export_path t <> export_path (now e)
  /\ files (fs (snd (export_students_csv e w))) !! export_path t
     = files (fs w) !! export_path t.
Proof.
  intros Hnow Ht Hne Hon Hd Hp.
  assert (Hpath : export_path t <> export_path (now e)).
  { intros Heq. apply Hne. now apply export_path_inj. }
  split; [exact Hpath|].
  rewrite (export_students_csv_ok e w Hon Hd Hp). cbn [snd fs files].
  now apply lookup_insert_ne.
Qed.

Lemma export_keeps_the_other_exports_witness :
  files (fs (snd (export_students_csv online two_students))) !! export_path second_before
  = files (fs two_students) !! export_path second_before.
Proof.
  apply (export_keeps_the_other_exports online second_before two_students).
  - unfold valid_datetime. cbn. lia.
  - unfold valid_datetime. cbn. lia.
  - discriminate.
  - reflexivity.
  - vm_compute. set_solver.
  - vm_compute. set_solver.
Defined.

(** X17. A command is known by its first word: what follows it, after
    whitespace, is not looked at, and the command may stand in the caption
    of a message without text. So [/start], [/help] and [/cancel] followed
    by anything do, in every state, what the bare commands do: [/cancel
    now] in the middle of a dialogue removes the session, it is not taken
    as a name, an age or a grade. *)
Theorem commands_take_arguments e message c args w :
  text_or_caption message = Some (command_text c ++ args) ->
  args = [] \/ (exists sp rest, args = sp :: rest /\ isspace sp = true) ->
  commanded e message c = true
  /\ (c = Start ->
        feed_update e message w
        = put (sender message) {| rec_state := Some StudentForm.name; rec_data := ∅ |}
            [answer_sent (chat_id message) greeting] w)
  /\ (c = Help ->
        feed_update e message w = emitting [answer_sent (chat_id message) help_text] w)
  /\ (c = Cancel ->
        feed_update e message w
        = put (sender message) empty_record [answer_sent (chat_id message) cancelled] w).
Proof.
  intros Ht Hargs.
  assert (Hc : commanded e message c = true) by now apply (commanded_text e message c args).
  split; [exact Hc|]. split; [|split]; intros ->.
  - now apply feed_start.
  - now apply feed_help.
  - now apply feed_cancel.
Qed.

Lemma commands_take_arguments_witness :
  state_of asked_grade (1, 1) = Some StudentForm.grade
  /\ record_of (storage (feed_update online (says 1 "/cancel now") asked_grade)) (1, 1)
     = empty_record.
Proof.
  split; [vm_compute; reflexivity|].
  destruct (commands_take_arguments online (says 1 "/cancel now") Cancel (lit " now")
              asked_grade) as (_ & _ & _ & Hcancel).
  - reflexivity.
  - right. exists 32%N, (lit "now"). split; reflexivity.
  - rewrite (Hcancel eq_refl). apply record_of_put.
Defined.
